(** * find-enrich.mjs: domain discovery, contact ranking and SIC classification

    A shallow embedding of [src/find-enrich.mjs] (the first, more elaborate
    of the two copies in the file) and the properties of it that the design
    document states.

    Conventions.
    - A JavaScript string is a [string]: one [ascii] per UTF-16 code unit,
      for strings whose code units are all below 256.  The character classes
      of the regular expressions are decided on the code of the unit.  The
      only literals outside that range are the em dashes of the
      [SIC_SECTIONS] labels, kept as their UTF-8 bytes; labels are compared
      and joined, never inspected.
    - Numbers that are integers in the source are [Z]; the ranking scores,
      which are multiples of 0.5, are [Q].
    - [Array.prototype.sort] is a stable sort; it is modelled by a stable
      insertion sort driven by the sign of the comparator.
    - A [Set] is a duplicate-free list in insertion order.
    - DNS, HTTP, the HTML parser and the clock are a [World] of oracles. *)

From Stdlib Require Import List Bool Arith ZArith NArith QArith Lia.
From Stdlib Require Import Ascii String.
From Stdlib Require Import Sorting.Sorted Sorting.Permutation.
Import ListNotations.

Close Scope Q_scope.
Open Scope list_scope.
Open Scope string_scope.

(** ** JavaScript string primitives *)

Module JS.

Definition code (c : ascii) : N := N_of_ascii c.

Definition inRange (lo hi : N) (c : ascii) : bool :=
  ((lo <=? code c) && (code c <=? hi))%N.

(** [\d] *)
Definition isDigit (c : ascii) : bool := inRange 48 57 c.

(** [[A-Z]] and [[a-z]] *)
Definition isUpper (c : ascii) : bool := inRange 65 90 c.
Definition isLower (c : ascii) : bool := inRange 97 122 c.

(** [\s] below 256: TAB, LF, VT, FF, CR, SPACE, NBSP. *)
Definition isSpace (c : ascii) : bool :=
  inRange 9 13 c || (code c =? 32)%N || (code c =? 160)%N.

(** [\p{L}] and [\p{N}] below 256. *)
Definition isLetter (c : ascii) : bool :=
  isUpper c || isLower c
  || (code c =? 170)%N || (code c =? 181)%N || (code c =? 186)%N
  || inRange 192 214 c || inRange 216 246 c || inRange 248 255 c.

Definition isNumber (c : ascii) : bool :=
  isDigit c || (code c =? 178)%N || (code c =? 179)%N || (code c =? 185)%N
  || inRange 188 190 c.

(** [String.prototype.toLowerCase] on strings of units below 256, where it
    works one unit at a time: A-Z and the Latin-1 capitals (all of 192..222
    but the multiplication sign).  The cases of the standard that depend
    on the context or change the length (the final sigma, the dotted
    capital I) are of units above 255, which these strings do not hold. *)
Definition lowerChar (c : ascii) : ascii :=
  if isUpper c || ((inRange 192 222 c) && negb (code c =? 215)%N)
  then ascii_of_N (code c + 32) else c.

Fixpoint toLowerCase (s : string) : string :=
  match s with
  | EmptyString => EmptyString
  | String c r => String (lowerChar c) (toLowerCase r)
  end.

Definition len (s : string) : Z := Z.of_nat (String.length s).

(** Truthiness of a string: [!s] is [isEmpty s]. *)
Definition isEmpty (s : string) : bool :=
  match s with EmptyString => true | _ => false end.

Definition truthy (s : string) : bool := negb (isEmpty s).

Definition startsWith (p s : string) : bool := String.prefix p s.

Fixpoint revStr (s : string) : string :=
  match s with
  | EmptyString => EmptyString
  | String c r => revStr r ++ String c EmptyString
  end.

Definition endsWith (p s : string) : bool := String.prefix (revStr p) (revStr s).

(** [s.includes(t)] *)
Fixpoint includes (t s : string) : bool :=
  String.prefix t s ||
  match s with
  | EmptyString => false
  | String _ r => includes t r
  end.

(** [s.slice(n)] for [n >= 0]. *)
Fixpoint sliceFrom (n : nat) (s : string) : string :=
  match n, s with
  | O, _ => s
  | S k, EmptyString => EmptyString
  | S k, String _ r => sliceFrom k r
  end.

(** [s.slice(0, n)] for [n >= 0]. *)
Fixpoint sliceTo (n : nat) (s : string) : string :=
  match n, s with
  | O, _ => EmptyString
  | S k, EmptyString => EmptyString
  | S k, String c r => String c (sliceTo k r)
  end.

(** [s.replace(/[cls]/g, '')]: every unit of the class is deleted. *)
Fixpoint removeAll (cls : ascii -> bool) (s : string) : string :=
  match s with
  | EmptyString => EmptyString
  | String c r => if cls c then removeAll cls r else String c (removeAll cls r)
  end.

(** [s.replace(/[cls]+/g, rep)]: every maximal run of units of the class
    is replaced by one [rep]. *)
Fixpoint replaceRuns (cls : ascii -> bool) (rep : string) (s : string) : string :=
  match s with
  | EmptyString => EmptyString
  | String c r =>
      if cls c then
        match r with
        | String d _ => if cls d then replaceRuns cls rep r
                        else rep ++ replaceRuns cls rep r
        | EmptyString => rep
        end
      else String c (replaceRuns cls rep r)
  end.

Fixpoint trimStart (s : string) : string :=
  match s with
  | String c r => if isSpace c then trimStart r else s
  | EmptyString => EmptyString
  end.

(** [s.trimEnd()]: a unit is dropped when it is white space and nothing
    is left of what follows it. *)
Fixpoint trimEnd (s : string) : string :=
  match s with
  | EmptyString => EmptyString
  | String c r =>
      let r' := trimEnd r in
      if isSpace c && isEmpty r' then EmptyString else String c r'
  end.

(** [s.trim()] *)
Definition trim (s : string) : string := trimEnd (trimStart s).

(** [s.split(c)] for a one-unit separator: the pieces between the
    separators, empty ones included; [''.split(c)] is [['']]. *)
Fixpoint split (sep : ascii) (s : string) : list string :=
  match s with
  | EmptyString => [EmptyString]
  | String c r =>
      if Ascii.eqb c sep then EmptyString :: split sep r
      else match split sep r with
           | t :: ts => String c t :: ts
           | [] => [String c EmptyString]
           end
  end.

(** [s.split(/[cls]+/)]: the pieces between the maximal runs of the
    class; an empty piece is produced at a leading or a trailing run. *)
Fixpoint splitRuns (cls : ascii -> bool) (s : string) : list string :=
  match s with
  | EmptyString => [EmptyString]
  | String c r =>
      if cls c then
        match r with
        | String d _ => if cls d then splitRuns cls r
                        else EmptyString :: splitRuns cls r
        | EmptyString => [EmptyString; EmptyString]
        end
      else match splitRuns cls r with
           | t :: ts => String c t :: ts
           | [] => [String c EmptyString]
           end
  end.

(** [a.join(sep)] *)
Definition join (sep : string) (l : list string) : string := String.concat sep l.

(** [a.includes(x)] on an array of strings. *)
Definition inArray (x : string) (l : list string) : bool :=
  existsb (String.eqb x) l.

(** [Set.prototype.add], the set kept in insertion order. *)
Definition setAdd (x : string) (l : list string) : list string :=
  if inArray x l then l else (l ++ [x])%list.

Definition setAddAll (xs : list string) (l : list string) : list string :=
  fold_left (fun acc x => setAdd x acc) xs l.

(** [a.sort(cmp)]: [after a b] is [cmp(a, b) > 0].  Insertion from the
    right keeps equal elements in their order. *)
Section Sort.
Context {A : Type} (after : A -> A -> bool).

Fixpoint insert (x : A) (l : list A) : list A :=
  match l with
  | [] => [x]
  | y :: r => if after x y then y :: insert x r else x :: l
  end.

Definition sort (l : list A) : list A := fold_right insert [] l.
End Sort.

End JS.

Import JS.

(** ** Contact extraction: phones *)

(** [p.replace(/[^+\d]/g, '')] keeps the plus signs and the digits. *)
Definition notPlusDigit (c : ascii) : bool :=
  negb (Ascii.eqb c "+" || isDigit c).

Definition normalizePhone (p : string) : string :=
  if isEmpty p then "" else
  let s := removeAll notPlusDigit p in
  let s := if startsWith "0044" s then "+" ++ sliceFrom 2 s else s in
  let s := if startsWith "44" s && negb (startsWith "+" s) then "+" ++ s else s in
  s.

Fixpoint allChars (cls : ascii -> bool) (s : string) : bool :=
  match s with
  | EmptyString => true
  | String c r => cls c && allChars cls r
  end.

(** [/^\+?\d{10,15}$/.test(n)] *)
Definition isLikelyPhone (n : string) : bool :=
  let ds := match n with
            | String c r => if Ascii.eqb c "+" then r else n
            | EmptyString => n
            end in
  allChars isDigit ds && (10 <=? len ds)%Z && (len ds <=? 15)%Z.

(** [/^\+44\d{9,11}$/.test(n)] *)
Definition isUkShape (n : string) : bool :=
  startsWith "+44" n &&
  let ds := sliceFrom 3 n in
  allChars isDigit ds && (9 <=? len ds)%Z && (len ds <=? 11)%Z.

Definition phoneScore (n : string) : Q :=
  let s := 0%Q in
  let s := if isUkShape n then (s + 2)%Q else s in
  let s := if (11 <=? len n)%Z && (len n <=? 13)%Z then (s + (1#2))%Q else s in
  s.

(** The comparator [(a, b) => b.s - a.s] is positive when [a.s < b.s]. *)
Definition scoredAfter {A : Type} (a b : A * Q) : bool :=
  negb (Qle_bool (snd b) (snd a)).

Definition pickBestPhone (phones : list string) : string :=
  let arr := filter isLikelyPhone (map normalizePhone phones) in
  match arr with
  | [] => ""
  | _ =>
      let scored := sort scoredAfter (map (fun n => (n, phoneScore n)) arr) in
      match scored with
      | (n, _) :: _ => n
      | [] => ""
      end
  end.

(** ** Contact ranking: emails *)

Definition freeDomains : list string :=
  ["gmail.com"; "yahoo.com"; "hotmail.com"; "outlook.com"; "live.com";
   "aol.com"; "icloud.com"; "proton.me"; "protonmail.com"].

Definition ranks : list string :=
  ["info@"; "contact@"; "hello@"; "support@"; "enquiries@"].

(** [x.split('@')[1] || ''] *)
Definition afterAt (x : string) : string := nth 1 (split "@" x) "".

(** The test of the partition loop: the address goes to [prefer]. *)
Definition onPreferred (preferredDomain e : string) : bool :=
  let d := toLowerCase (afterAt e) in
  truthy preferredDomain && truthy d &&
  (endsWith d preferredDomain || endsWith preferredDomain d).

(** [ranks.forEach((p, i) => { if (lower.startsWith(p)) s += ranks.length - i })] *)
Fixpoint rankBonus (ps : list string) (i : Z) (lower : string) (s : Q) : Q :=
  match ps with
  | [] => s
  | p :: r =>
      rankBonus r (i + 1)%Z lower
        (if startsWith p lower
         then (s + inject_Z (Z.of_nat (List.length ranks) - i))%Q else s)
  end.

Definition emailScore (e : string) : Q :=
  let lower := toLowerCase e in
  let s := rankBonus ranks 0%Z lower 0%Q in
  let s := if negb (includes "+" lower) then (s + (1#2))%Q else s in
  let d := afterAt lower in
  let s := if negb (inArray d freeDomains) then (s + (1#2))%Q else s in
  s.

(** [(emails || []).map(e => e.trim()).filter(Boolean)] *)
Definition cleanEmails (emails : list string) : list string :=
  filter truthy (map trim emails).

Definition pickBestEmail (emails : list string) (preferredDomain : string) : string :=
  let arr := cleanEmails emails in
  match arr with
  | [] => ""
  | _ =>
      let prefer := filter (onPreferred preferredDomain) arr in
      let others := filter (fun e => negb (onPreferred preferredDomain e)) arr in
      let pool := match prefer with [] => others | _ => prefer end in
      let scored := sort scoredAfter (map (fun e => (e, emailScore e)) pool) in
      match scored with
      | (e, _) :: _ => e
      | [] => ""
      end
  end.

(** ** Number parsing and the Cloudflare decoding *)

(** The value of a unit as a digit of a radix up to 36. *)
Definition digitValue (c : ascii) : option Z :=
  if isDigit c then Some (Z.of_N (code c) - 48)%Z
  else if isLower c then Some (Z.of_N (code c) - 87)%Z
  else if isUpper c then Some (Z.of_N (code c) - 55)%Z
  else None.

(** The longest run of digits of the radix at the head of [s], read as a
    number from the accumulator [acc]; [seen] records that a digit was read. *)
Fixpoint readDigits (radix : Z) (s : string) (seen : bool) (acc : Z) : option Z :=
  match s with
  | EmptyString => if seen then Some acc else None
  | String c r =>
      match digitValue c with
      | Some v => if (v <? radix)%Z then readDigits radix r true (acc * radix + v)%Z
                  else if seen then Some acc else None
      | None => if seen then Some acc else None
      end
  end.

(** [parseInt(s, radix)] for radix 10 or 16; [None] is NaN.  White space
    is skipped, a sign is read, and for radix 16 a [0x] or [0X] is dropped. *)
Definition parseInt (s : string) (radix : Z) : option Z :=
  let s := trimStart s in
  let '(sign, s) := match s with
                    | String "-" r => ((-1)%Z, r)
                    | String "+" r => (1%Z, r)
                    | _ => (1%Z, s)
                    end in
  let s := if (radix =? 16)%Z && (startsWith "0x" s || startsWith "0X" s)
           then sliceFrom 2 s else s in
  option_map (Z.mul sign) (readDigits radix s false 0%Z).

(** [ToInt32], with NaN going to 0. *)
Definition toInt32 (x : option Z) : Z :=
  match x with
  | None => 0%Z
  | Some z => ((z + 2^31) mod 2^32 - 2^31)%Z
  end.

(** [a ^ b] *)
Definition bitXor (a b : option Z) : Z := Z.lxor (toInt32 a) (toInt32 b).

(** [String.fromCharCode(n)]: the unit [n mod 2^16].  Units of 256 and
    more, which only a negative operand can produce here, are outside the
    alphabet of the model and keep their low byte. *)
Definition fromCharCode (n : Z) : string :=
  String (ascii_of_N (Z.to_N (n mod 65536))) EmptyString.

(** The loop [for (n = 2; n < hex.length; n += 2)], on the rest of [hex]
    from position [n]; [hex.slice(n, n + 2)] is its first two units, or
    the last one. *)
Fixpoint decodeLoop (e : option Z) (rest : string) (email : string) : string :=
  match rest with
  | EmptyString => email
  | String c1 EmptyString =>
      email ++ fromCharCode (bitXor (parseInt (String c1 EmptyString) 16) e)
  | String c1 (String c2 r) =>
      decodeLoop e r
        (email ++ fromCharCode (bitXor (parseInt (String c1 (String c2 EmptyString)) 16) e))
  end.

Definition decodeCfEmail (hex : string) : string :=
  let e := parseInt (sliceTo 2 hex) 16 in
  decodeLoop e (sliceFrom 2 hex) "".

(** ** Domain candidate generation *)

Definition dropWords : list string :=
  ["limited"; "ltd"; "plc"; "llp"; "inc"; "corp"; "corporation"; "company";
   "tech"; "technologies"; "technology"; "solutions"; "solution"; "group";
   "holdings"; "services"; "consulting"; "consultancy"; "studio"; "labs";
   "lab"; "digital"; "global"; "international"; "uk"; "co"].

Definition dquote : ascii := ascii_of_N 34.

(** The units of the character class of the first [replace]: the double
    quote and the units of the literal below. *)
Definition strippedChars : list ascii :=
  dquote :: list_ascii_of_string ".,/\'&()[]{}!@#$%^*?+:=".

Definition isStripped (c : ascii) : bool := existsb (Ascii.eqb c) strippedChars.

Definition cleanName (raw : string) : string :=
  let s := trim (replaceRuns isSpace " " (replaceRuns isStripped " " (toLowerCase raw))) in
  join " " (filter (fun t => negb (inArray t dropWords)) (split " " s)).

Definition isVowel (c : ascii) : bool := existsb (Ascii.eqb c) (list_ascii_of_string "aeiou").

(** [p[0]] *)
Definition firstUnit (p : string) : string :=
  match p with
  | String c _ => String c EmptyString
  | EmptyString => EmptyString
  end.

Definition variants (name : string) : list string :=
  let v := setAddAll [name; replaceRuns isSpace "" name; replaceRuns isSpace "-" name] [] in
  let parts := filter truthy (split " " name) in
  let noVowels := replaceRuns isSpace "" (removeAll isVowel name) in
  let v := if (5 <=? len noVowels)%Z then setAdd noVowels v else v in
  if (2 <=? Z.of_nat (List.length parts))%Z then
    let first := nth 0 parts "" in
    let last := List.last parts "" in
    let v := setAdd (first ++ last) v in
    let v := setAdd (first ++ "-" ++ last) v in
    setAdd (join "" (map firstUnit (removelast parts)) ++ last) v
  else v.

Definition commonTlds : list string :=
  [".com"; ".co.uk"; ".co"; ".ai"; ".io"; ".net"; ".org"; ".uk"].

Definition tldsForCountry (country : string) : list string :=
  if isEmpty country then commonTlds else
  let c := toLowerCase country in
  if inArray c ["uk"; "united kingdom"; "england"; "scotland"; "wales"; "northern ireland"]
  then [".co.uk"; ".uk"; ".com"; ".co"; ".ai"; ".io"; ".net"; ".org"]
  else commonTlds.

Definition score (domain : string) : Z :=
  let s := 0%Z in
  let s := if endsWith ".co.uk" domain then (s + 6)%Z else s in
  let s := if endsWith ".com" domain then (s + 5)%Z else s in
  let s := if includes "-" domain then (s - 1)%Z else s in
  let s := if (len domain <=? 12)%Z then (s + 1)%Z else s in
  s.

(** ** The world outside: DNS, HTTP, the HTML parser, the clock *)

(** What the cheerio queries of the source read from one parsed page, in
    document order; the two last-resort scans of the page text are part
    of the page. *)
Record Page : Type := {
  mailtoHrefs : list string;  (* href of each a[href^="mailto:"] *)
  telHrefs : list string;     (* href of each a[href^="tel:"] *)
  cfEmails : list string;     (* data-cfemail of each [data-cfemail] *)
  dataEmails : list string;   (* data-email of each [data-email] *)
  textEmails : list string;   (* $.text().match(EMAIL_RE) || [] *)
  textPhones : list string;   (* $.text().match(PHONE_RE) || [] *)
  anchors : list string       (* href of each a[href] *)
}.

(** The oracles.  An oracle gives the same answer to the same question
    each time it is asked. *)
Record World : Type := {
  dnsAlive : string -> bool;            (* any of A, AAAA, MX answers *)
  httpAlive : string -> bool;           (* HEAD, then GET, on the four URL forms *)
  getHtml : string -> string;           (* the body, '' on any failure *)
  load : string -> Page;                (* cheerio's load of a body *)
  makeAbs : string -> string -> string; (* new URL(href, base), '' when it throws *)
  nowIso : string                       (* new Date().toISOString() *)
}.

Record VerificationResult : Type := {
  domain : string;
  dnsOk : bool;
  httpOk : bool;
  ok : bool
}.

Definition verify (w : World) (d : string) : VerificationResult :=
  let dnsOk := dnsAlive w d in
  let httpOk := httpAlive w d in
  {| domain := d; dnsOk := dnsOk; httpOk := httpOk; ok := dnsOk || httpOk |}.

(** ** Domain selection *)

Record Selection : Type := {
  candidates : list VerificationResult;
  pick : option VerificationResult
}.

(** [(a, b) => score(b) - score(a)] is positive when [score a < score b]. *)
Definition domainAfter (a b : string) : bool := (score a <? score b)%Z.

Definition resultAfter (a b : VerificationResult) : bool :=
  (score (domain a) <? score (domain b))%Z.

(** [r.ok && (r.domain.endsWith('.co.uk') || r.domain.endsWith('.com'))] *)
Definition isStrong (r : VerificationResult) : bool :=
  ok r && (endsWith ".co.uk" (domain r) || endsWith ".com" (domain r)).

Definition verifiedOf (checked : list VerificationResult) : list VerificationResult :=
  sort resultAfter (filter ok checked).

(** The loop [for (let i = 0; i < TOP; i += 5)], from [i] on.  [fuel]
    bounds the number of iterations; [None] is fuel exhausted. *)
Fixpoint batchLoop (w : World) (fuel : nat) (cands : list string) (TOP i : nat)
    (checked : list VerificationResult) : option Selection :=
  if (i <? TOP)%nat then
    match fuel with
    | O => None
    | S fuel' =>
        let batch := firstn 5 (skipn i cands) in
        let res := map (verify w) batch in
        let checked := (checked ++ res)%list in
        match find isStrong res with
        | Some strong =>
            Some {| candidates := checked;
                    pick := Some (hd strong (verifiedOf checked)) |}
        | None => batchLoop w fuel' cands TOP (i + 5)%nat checked
        end
    end
  else Some {| candidates := checked; pick := hd_error (verifiedOf checked) |}.

(** The candidates of a cleaned name, sorted. *)
Definition sortedCandidates (cleaned country : string) : list string :=
  sort domainAfter
    (flat_map (fun n => map (fun t => n ++ t) (tldsForCountry country)) (variants cleaned)).

Definition bestDomainFor (w : World) (name country : string) : option Selection :=
  let cleaned := cleanName name in
  if isEmpty cleaned then Some {| candidates := []; pick := None |} else
  let cands := sortedCandidates cleaned country in
  let TOP := Nat.min 40 (List.length cands) in
  batchLoop w TOP cands TOP 0 [].

(** ** Brand matching *)

Definition brandDrop : list string :=
  ["limited"; "ltd"; "plc"; "llp"; "inc"; "corp"; "corporation"; "company";
   "group"; "holdings"; "services"; "uk"; "co"; "cic"].

(** The class [[^\p{L}\p{N}\s-]]. *)
Definition notNameChar (c : ascii) : bool :=
  negb (isLetter c || isNumber c || isSpace c || Ascii.eqb c "-").

(** [s.replace(/[cls]/g, rep)] with a one-unit [rep]. *)
Fixpoint replaceEach (cls : ascii -> bool) (rep : ascii) (s : string) : string :=
  match s with
  | EmptyString => EmptyString
  | String c r => String (if cls c then rep else c) (replaceEach cls rep r)
  end.

Definition tokenizeCompany (name : string) : list string :=
  filter (fun t => negb (inArray t brandDrop))
    (filter truthy (splitRuns isSpace (replaceEach notNameChar " " (toLowerCase name)))).

(** The quotient [hits / tokens.length] is kept exact.  The source compares
    its double with 0.4; the two agree, a quotient of token counts being
    either 2/5 exactly or further from it than a double can fail to tell. *)
Definition brandMatchScore (company htmlText : string) : Q :=
  if isEmpty company || isEmpty htmlText then 0%Q else
  let tokens := tokenizeCompany company in
  match tokens with
  | [] => 0%Q
  | _ =>
      let text := toLowerCase htmlText in
      let hits := List.length
                    (filter (fun t => (3 <=? len t)%Z && includes t text) tokens) in
      (inject_Z (Z.of_nat hits) / inject_Z (Z.of_nat (List.length tokens)))%Q
  end.

(** ** Contact extraction and discovery *)

(** [s.replace(/^p/i, '')] for a lower-case ASCII literal [p]. *)
Definition dropPrefixNoCase (p s : string) : string :=
  if String.eqb (toLowerCase (sliceTo (String.length p) s)) p
  then sliceFrom (String.length p) s else s.

Definition addMailto (emails : list string) (href : string) : list string :=
  let m := dropPrefixNoCase "mailto:" href in
  if truthy m then setAdd (trim m) emails else emails.

Definition addTel (phones : list string) (href : string) : list string :=
  let t := dropPrefixNoCase "tel:" href in
  if truthy t then setAdd (trim t) phones else phones.

Definition addCfEmail (emails : list string) (hex : string) : list string :=
  let dec := decodeCfEmail hex in
  if truthy dec then setAdd (trim dec) emails else emails.

Definition addDataEmail (emails : list string) (v : string) : list string :=
  let m := trim v in
  if truthy m then setAdd m emails else emails.

(** The pair [{ emails, phones }]. *)
Definition extractContactsFromUrl (w : World) (url : string) : list string * list string :=
  let html := getHtml w url in
  if isEmpty html then ([], []) else
  let pg := load w html in
  let emails := fold_left addMailto (mailtoHrefs pg) [] in
  let phones := fold_left addTel (telHrefs pg) [] in
  let emails := fold_left addCfEmail (cfEmails pg) emails in
  let emails := fold_left addDataEmail (dataEmails pg) emails in
  let emails := setAddAll (textEmails pg) emails in
  let phones := setAddAll (textPhones pg) phones in
  (emails, phones).

Definition seedPaths : list string :=
  [""; "contact"; "contact-us"; "contacts"; "about"; "about-us"; "team";
   "imprint"; "legal"; "privacy"].

(** The three sets of the crawl. *)
Record Crawl : Type := {
  seen : list string;
  foundEmails : list string;
  foundPhones : list string
}.

(** One page visited: the body of both loops after their guards. *)
Definition visit (w : World) (url : string) (st : Crawl) : Crawl :=
  let '(emails, phones) := extractContactsFromUrl w url in
  {| seen := setAdd url (seen st);
     foundEmails := setAddAll emails (foundEmails st);
     foundPhones := setAddAll phones (foundPhones st) |}.

Definition visitSeed (w : World) (st : Crawl) (url : string) : Crawl :=
  if isEmpty url || inArray url (seen st) then st else visit w url st.

(** [for (const u of internal)] with its counter. *)
Fixpoint visitInternal (w : World) (us : list string) (count : Z) (st : Crawl) : Crawl :=
  match us with
  | [] => st
  | u :: r =>
      if (3 <=? count)%Z then st
      else if inArray u (seen st) then visitInternal w r count st
      else visitInternal w r (count + 1)%Z (visit w u st)
  end.

Record Contacts : Type := {
  email : string;
  phone : string;
  brandText : string
}.

(** The three sets once the crawl of [domain] is over. *)
Definition crawl (w : World) (domain : string) : Crawl :=
  let baseUrl := "https://" ++ domain ++ "/" in
  let seeds := map (makeAbs w baseUrl) seedPaths in
  let st := fold_left (visitSeed w) seeds
              {| seen := []; foundEmails := []; foundPhones := [] |} in
  let homeHtml := getHtml w baseUrl in
  if truthy homeHtml then
    let internal :=
      fold_left (fun acc href =>
                   let abs := makeAbs w baseUrl href in
                   if truthy abs && startsWith baseUrl abs then setAdd abs acc else acc)
                (anchors (load w homeHtml)) [] in
    visitInternal w internal 0 st
  else st.

Definition discoverContacts (w : World) (domain : string) : Contacts :=
  let st := crawl w domain in
  {| email := pickBestEmail (foundEmails st) domain;
     phone := pickBestPhone (foundPhones st);
     brandText := getHtml w ("https://" ++ domain ++ "/") |}.

(** ** SIC to industry *)

Definition SIC_SECTIONS : list (Z * Z * string) :=
  [ (1, 3, "A — Agriculture, Forestry & Fishing");
    (5, 9, "B — Mining & Quarrying");
    (10, 33, "C — Manufacturing");
    (35, 35, "D — Electricity, Gas, Steam & Air Conditioning");
    (36, 39, "E — Water Supply; Sewerage, Waste Management & Remediation");
    (41, 43, "F — Construction");
    (45, 47, "G — Wholesale & Retail Trade; Repair of Motor Vehicles & Motorcycles");
    (49, 53, "H — Transportation & Storage");
    (55, 56, "I — Accommodation & Food Service Activities");
    (58, 63, "J — Information & Communication");
    (64, 66, "K — Financial & Insurance Activities");
    (68, 68, "L — Real Estate Activities");
    (69, 75, "M — Professional, Scientific & Technical Activities");
    (77, 82, "N — Administrative & Support Service Activities");
    (84, 84, "O — Public Administration & Defence; Compulsory Social Security");
    (85, 85, "P — Education");
    (86, 88, "Q — Human Health & Social Work Activities");
    (90, 93, "R — Arts, Entertainment & Recreation");
    (94, 96, "S — Other Service Activities");
    (97, 98, "T — Activities of Households as Employers; Undifferentiated Goods- & Services-Producing Activities of Households for Own Use");
    (99, 99, "U — Activities of Extraterritorial Organisations & Bodies") ]%Z.

Definition lookupIndustryFromSICCode (sicCode : string) : string :=
  if isEmpty sicCode then "" else
  match parseInt (sliceTo 2 (trim sicCode)) 10 with
  | None => ""
  | Some two =>
      match find (fun s => let '(lo, hi, _) := s in (lo <=? two)%Z && (two <=? hi)%Z)
                 SIC_SECTIONS with
      | Some (_, _, name) => name
      | None => ""
      end
  end.

(** The value of the SIC field: a text or an array of codes. *)
Inductive SicValue : Type :=
| SicText (s : string)
| SicArray (codes : list string).

(** The class [[,;/\s]]. *)
Definition isSicSeparator (c : ascii) : bool :=
  Ascii.eqb c "," || Ascii.eqb c ";" || Ascii.eqb c "/" || isSpace c.

(** [!sicFieldValue]: an empty text is falsy, an array never is. *)
Definition sicBlank (v : SicValue) : bool :=
  match v with
  | SicText s => isEmpty s
  | SicArray _ => false
  end.

Definition deriveIndustryFromSICField (sicFieldValue : SicValue) : string :=
  if sicBlank sicFieldValue then "" else
  let values := match sicFieldValue with
                | SicArray codes => codes
                | SicText s => splitRuns isSicSeparator s
                end in
  let labels :=
    fold_left (fun labels raw =>
                 let label := lookupIndustryFromSICCode raw in
                 if truthy label then setAdd label labels else labels)
              values [] in
  join " | " labels.

(** ** One record *)

(** The fields of a record as [getField] returns them: a blank cell is
    [''].  [fCountry] is [''] when no country field is configured, which is
    the default; [fSic] is what [rec.get] returns for the SIC field. *)
Record Rec : Type := {
  fCompany : string;
  fCountry : string;
  fSic : SicValue;
  fDomain : string;
  fEmail : string;
  fPhone : string;
  fIndustry : string
}.

(** The default field names of the environment. *)
Definition AIRTABLE_DOMAIN_FIELD : string := "Domain".
Definition AIRTABLE_EMAIL_FIELD : string := "Email".
Definition AIRTABLE_PHONE_FIELD : string := "Phone".
Definition AIRTABLE_INDUSTRY_FIELD : string := "Industry".
Definition AIRTABLE_STATUS_FIELD : string := "Enrichment Status".
Definition AIRTABLE_LAST_ENRICHED_AT_FIELD : string := "Last Enriched At".

(** The local variables of [processRecord] when it reaches the status;
    [eBrandOk] is [rec.__BRAND_OK], [None] while it is undefined. *)
Record Enriched : Type := {
  eDomain : string;
  eEmail : string;
  ePhone : string;
  eIndustry : string;
  eBrandOk : option bool
}.

(** Step 1: the domain. *)
Definition resolveDomain (w : World) (rec : Rec) : option string :=
  if isEmpty (fDomain rec) then
    match bestDomainFor w (fCompany rec) (fCountry rec) with
    | None => None
    | Some sel =>
        Some (match pick sel with
              | Some p => domain p
              | None => fDomain rec
              end)
    end
  else Some (fDomain rec).

(** Steps 2 and 3: the contacts and the industry. *)
Definition enrichWith (w : World) (rec : Rec) (dom : string) : Enriched :=
  let '(em, ph, brandOk) :=
    if truthy dom && (isEmpty (fEmail rec) || isEmpty (fPhone rec)) then
      let c := discoverContacts w dom in
      let bm := brandMatchScore (fCompany rec) (brandText c) in
      let BRAND_OK := Qle_bool (4 # 10) bm in
      (if isEmpty (fEmail rec) && truthy (email c) then email c else fEmail rec,
       if isEmpty (fPhone rec) && truthy (phone c) then phone c else fPhone rec,
       Some BRAND_OK)
    else (fEmail rec, fPhone rec, None) in
  let industry :=
    if isEmpty (fIndustry rec) && negb (sicBlank (fSic rec)) then
      let derived := deriveIndustryFromSICField (fSic rec) in
      if truthy derived then derived else fIndustry rec
    else fIndustry rec in
  {| eDomain := dom; eEmail := em; ePhone := ph; eIndustry := industry;
     eBrandOk := brandOk |}.

Definition enrich (w : World) (rec : Rec) : option Enriched :=
  option_map (enrichWith w rec) (resolveDomain w rec).

Definition statusNote (e : Enriched) : string :=
  let d := truthy (eDomain e) in
  let em := truthy (eEmail e) in
  let ph := truthy (ePhone e) in
  if negb d && negb em && negb ph then "No domain or contacts found"
  else if d && negb em && negb ph then "Domain only"
  else if d && (em || ph) then
    match eBrandOk e with
    | Some false => "Domain only (unverified brand match)"
    | _ => "OK"
    end
  else "Partial".

(** The patch: the fields in the order they are assigned. *)
Definition Patch : Type := list (string * string).

Definition setIf (field value : string) (p : Patch) : Patch :=
  if truthy value then (p ++ [(field, value)])%list else p.

Definition patchOf (w : World) (e : Enriched) : Patch :=
  let patch := [] in
  let patch := setIf AIRTABLE_DOMAIN_FIELD (eDomain e) patch in
  let patch := setIf AIRTABLE_EMAIL_FIELD (eEmail e) patch in
  let patch := setIf AIRTABLE_PHONE_FIELD (ePhone e) patch in
  let patch := setIf AIRTABLE_INDUSTRY_FIELD (eIndustry e) patch in
  (patch ++ [(AIRTABLE_STATUS_FIELD, statusNote e);
             (AIRTABLE_LAST_ENRICHED_AT_FIELD, nowIso w)])%list.

(** The patch handed to [table.update]; [None] only if the domain
    selection ran out of fuel. *)
Definition processRecord (w : World) (rec : Rec) : option Patch :=
  option_map (patchOf w) (enrich w rec).

(** [patch[field]] *)
Definition patchGet (field : string) (p : Patch) : option string :=
  option_map snd (find (fun kv => String.eqb (fst kv) field) p).

(** * The probes of the verifier: httpAlive and dnsAlive *)

(** What axios hands back: the status, and the body when it is a string. *)
Record Response : Type := {
  status : Z;
  data : option string
}.

(** The network under [httpAlive] and [dnsAlive]: each call answers or
    throws, [None] being a throw or a rejected promise. *)
Record Net : Type := {
  head : string -> option Response;          (* axios.head *)
  get : string -> option Response;           (* axios.get *)
  resolve4 : string -> option (list string);
  resolve6 : string -> option (list string);
  resolveMx : string -> option (list string)
}.

Definition tries (domain : string) : list string :=
  ["https://" ++ domain; "https://www." ++ domain;
   "http://" ++ domain; "http://www." ++ domain].

(** The test of the HEAD loop; a throw goes on to the next URL. *)
Definition headAnswers (net : Net) (url : string) : bool :=
  match head net url with
  | Some res => (0 <? status res)%Z && (status res <? 600)%Z
  | None => false
  end.

(** The two tests of the GET loop. *)
Definition getAnswers (net : Net) (url : string) : bool :=
  match get net url with
  | Some res =>
      match data res with
      | Some body => (100 <? len body)%Z
      | None => false
      end
      || ((200 <=? status res)%Z && (status res <? 400)%Z)
  | None => false
  end.

(** Each loop returns true at the first URL that passes its test. *)
Definition httpAliveVia (net : Net) (domain : string) : bool :=
  if existsb (headAnswers net) (tries domain) then true
  else if existsb (getAnswers net) (tries domain) then true
  else false.

(** [r.status === 'fulfilled' && r.value && r.value.length] *)
Definition settledNonEmpty (r : option (list string)) : bool :=
  match r with
  | Some value => negb (Nat.eqb (List.length value) 0)
  | None => false
  end.

Definition dnsAliveVia (net : Net) (domain : string) : bool :=
  existsb settledNonEmpty [resolve4 net domain; resolve6 net domain; resolveMx net domain].

(** A world whose verifier runs on [net]. *)
Definition overNet (net : Net) (w : World) : World :=
  {| dnsAlive := dnsAliveVia net; httpAlive := httpAliveVia net;
     getHtml := getHtml w; load := load w; makeAbs := makeAbs w; nowIso := nowIso w |}.

(** * The vocabulary of the properties *)

(** [x] is not to be moved after [y]. *)
Definition notAfter {A : Type} (after : A -> A -> bool) (x y : A) : Prop :=
  after x y = false.

(** The separator of a split, and the strings free of it. *)
Definition isSep (sep c : ascii) : bool := Ascii.eqb c sep.

Definition sepFree (sep : ascii) (s : string) : bool :=
  allChars (fun c => negb (isSep sep c)) s.

(** The units that [normalizePhone] keeps. *)
Definition isPlusDigit (c : ascii) : bool := negb (notPlusDigit c).

(** The two prefix rewritings of [normalizePhone]. *)
Definition ukRewrite (s : string) : string :=
  let s := if startsWith "0044" s then "+" ++ sliceFrom 2 s else s in
  if startsWith "44" s && negb (startsWith "+" s) then "+" ++ s else s.

(** The number of digits of a string. *)
Definition digitCount (s : string) : Z :=
  len (removeAll (fun c => negb (isDigit c)) s).

(** The test of the [find] of [lookupIndustryFromSICCode]. *)
Definition inSection (two : Z) (s : Z * Z * string) : bool :=
  let '(lo, hi, _) := s in (lo <=? two)%Z && (two <=? hi)%Z.

(** The encoding the decoder undoes: a byte as two hexadecimal digits, in
    either case, and an address as the key followed by each byte xor the key. *)
Definition hexDigit (upper : bool) (n : Z) : ascii :=
  nth (Z.to_nat n)
      (list_ascii_of_string (if upper then "0123456789ABCDEF" else "0123456789abcdef"))
      "0"%char.

(** A byte as its two hexadecimal digits. *)
Definition hexByte (upper : bool) (b : Z) : string :=
  String (hexDigit upper (b / 16)) (String (hexDigit upper (b mod 16)) EmptyString).

(** The key, then each byte xor the key. *)
Definition cfEncode (upper : bool) (k : Z) (bytes : list Z) : string :=
  hexByte upper k ++ String.concat "" (map (fun b => hexByte upper (Z.lxor b k)) bytes).

(** The units of the original address. *)
Definition unitsToString (bytes : list Z) : string :=
  String.concat "" (map fromCharCode bytes).

(** A byte value. *)
Definition isByte (b : Z) : Prop := (0 <= b < 256)%Z.

(** [p] is the pick the selector owes for the results [checked]: an alive
    result that no alive result outscores, or nothing when none is alive. *)
Definition bestAlive (checked : list VerificationResult)
    (p : option VerificationResult) : Prop :=
  match p with
  | Some r => In r checked /\ ok r = true
              /\ forall r', In r' checked -> ok r' = true ->
                            (score (domain r') <= score (domain r))%Z
  | None => forall r', In r' checked -> ok r' = false
  end.

(** How the loop ends on the verified candidates [top] of the capped list:
    after [n] batches, none of the first [n - 1] holding a strong hit, and
    either the last one holds one or [top] is exhausted without any. *)
Definition stopsAfter (top : list VerificationResult) (n : nat)
    (sel : Selection) : Prop :=
  candidates sel = firstn (5 * n) top
  /\ (forall r, In r (firstn (5 * (n - 1)) top) -> isStrong r = false)
  /\ (((1 <= n)%nat
       /\ exists r, In r (firstn 5 (skipn (5 * (n - 1)) top)) /\ isStrong r = true)
      \/ ((List.length top <= 5 * n)%nat
          /\ forall r, In r top -> isStrong r = false))
  /\ bestAlive (candidates sel) (pick sel).

(** The cartesian product of the variants and the top-level domains. *)
Definition generated (cleaned country : string) : list string :=
  flat_map (fun n => map (fun t => n ++ t) (tldsForCountry country)) (variants cleaned).

(** The record of the end-to-end scenario. *)
Definition acmeWidgets : Rec :=
  {| fCompany := "Acme Widgets Ltd"; fCountry := ""; fSic := SicText "25110";
     fDomain := ""; fEmail := ""; fPhone := ""; fIndustry := "" |}.

(** A page with nothing on it. *)
Definition emptyPage : Page :=
  {| mailtoHrefs := []; telHrefs := []; cfEmails := []; dataEmails := [];
     textEmails := []; textPhones := []; anchors := [] |}.

(** A world in which every probe fails and every fetch is empty. *)
Definition offline : World :=
  {| dnsAlive := fun _ => false; httpAlive := fun _ => false;
     getHtml := fun _ => ""; load := fun _ => emptyPage;
     makeAbs := fun _ _ => ""; nowIso := "2024-01-01T00:00:00.000Z" |}.

(** Every field of the patch is one of [fields]. *)
Definition onlyFields (fields : list string) (p : Patch) : Prop :=
  forall kv, In kv p -> In (fst kv) fields.

(** A page that names no brand, with one address and one phone. *)
Definition contactPage : Page :=
  {| mailtoHrefs := ["mailto:info@acme.com"]; telHrefs := ["tel:+44 1234 567890"];
     cfEmails := []; dataEmails := []; textEmails := []; textPhones := [];
     anchors := [] |}.

(** A world in which every domain is alive and every page is that page. *)
Definition unbranded : World :=
  {| dnsAlive := fun _ => true; httpAlive := fun _ => true;
     getHtml := fun _ => "<html><body>Contact us</body></html>";
     load := fun _ => contactPage;
     makeAbs := fun b h => b ++ h; nowIso := "2024-01-01T00:00:00.000Z" |}.

(** The same company with its domain known and its contacts blank. *)
Definition acmeWithDomain : Rec :=
  {| fCompany := "Acme Widgets Ltd"; fCountry := ""; fSic := SicText "";
     fDomain := "acme.com"; fEmail := ""; fPhone := ""; fIndustry := "" |}.

(** The pool that is ranked. *)
Definition poolOf (emails : list string) (preferredDomain : string) : list string :=
  match filter (onPreferred preferredDomain) (cleanEmails emails) with
  | [] => cleanEmails emails
  | prefer => prefer
  end.

(** The first unit of [s] is of the class. *)
Definition startsIn (cls : ascii -> bool) (s : string) : bool :=
  match s with
  | String c _ => cls c
  | EmptyString => false
  end.

(** The last unit of [s] is of the class. *)
Fixpoint endsIn (cls : ascii -> bool) (s : string) : bool :=
  match s with
  | EmptyString => false
  | String c r => if isEmpty r then cls c else endsIn cls r
  end.

(** No two units of the class are adjacent. *)
Fixpoint noDouble (cls : ascii -> bool) (s : string) : bool :=
  match s with
  | EmptyString => true
  | String c r => negb (cls c && startsIn cls r) && noDouble cls r
  end.

(** What the normalizer leaves of a unit: not stripped, not an upper-case
    letter, and white space only if it is the plain space. *)
Definition isKept (c : ascii) : bool :=
  negb (isStripped c) && negb (isUpper c) && (negb (isSpace c) || Ascii.eqb c " ").

(** The string that [cleanName] splits into words. *)
Definition tidied (raw : string) : string :=
  trim (replaceRuns isSpace " " (replaceRuns isStripped " " (toLowerCase raw))).

(** The classes of [EMAIL_RE], which ignores case; first [[A-Z]]. *)
Definition isAlpha (c : ascii) : bool := isUpper c || isLower c.

(** [[A-Z0-9._%+-]] *)
Definition isEmailLocalChar (c : ascii) : bool :=
  isAlpha c || isDigit c || existsb (Ascii.eqb c) (list_ascii_of_string "._%+-").

(** [[A-Z0-9.-]] *)
Definition isEmailDomainChar (c : ascii) : bool :=
  isAlpha c || isDigit c || existsb (Ascii.eqb c) (list_ascii_of_string ".-").

(** The longest prefix of units of a class, and the rest. *)
Fixpoint span (cls : ascii -> bool) (s : string) : string * string :=
  match s with
  | EmptyString => (EmptyString, EmptyString)
  | String c r =>
      if cls c then let '(a, b) := span cls r in (String c a, b)
      else (EmptyString, s)
  end.

(** [s] as a whole is a match of [EMAIL_RE]: a local part, the only at
    sign, then a domain part, a dot and two letters or more, which are
    what follows the last dot. *)
Definition matchesEmailRe (s : string) : bool :=
  let '(local, rest) := span isEmailLocalChar s in
  truthy local &&
  match rest with
  | String c after =>
      Ascii.eqb c "@" &&
      let '(tld, before) := span isAlpha (revStr after) in
      (2 <=? len tld)%Z &&
      match before with
      | String d dom => Ascii.eqb d "." && truthy dom && allChars isEmailDomainChar dom
      | EmptyString => false
      end
  | EmptyString => false
  end.

(** The suffixes and the prefixes of a string. *)
Fixpoint suffixes (s : string) : list string :=
  s :: match s with
       | String _ r => suffixes r
       | EmptyString => []
       end.

Definition prefixes (s : string) : list string := map revStr (suffixes (revStr s)).

(** [EMAIL_RE.test(s)]: some part of [s] is a match. *)
Definition emailReTest (s : string) : bool :=
  existsb matchesEmailRe (flat_map prefixes (suffixes s)).

(** C1 for one record, as the invariant is written: a contact scraped
    into a blank field passed its plausibility test. *)
Definition contactsPlausible (w : World) (rec : Rec) : Prop :=
  forall p, processRecord w rec = Some p ->
    (fPhone rec = "" ->
     forall ph, patchGet AIRTABLE_PHONE_FIELD p = Some ph -> isLikelyPhone ph = true)
    /\ (fEmail rec = "" ->
        forall em, patchGet AIRTABLE_EMAIL_FIELD p = Some em -> emailReTest em = true).

(** A page whose only address is in a data-email attribute, spelled out
    against harvesting. *)
Definition obfuscatedPage : Page :=
  {| mailtoHrefs := []; telHrefs := []; cfEmails := [];
     dataEmails := ["info [at] acme.co.uk"];
     textEmails := []; textPhones := []; anchors := [] |}.

(** A world in which every page is that page. *)
Definition obfuscated : World :=
  {| dnsAlive := fun _ => true; httpAlive := fun _ => true;
     getHtml := fun _ => "<html><body>Acme Widgets</body></html>";
     load := fun _ => obfuscatedPage;
     makeAbs := fun b h => b ++ h; nowIso := "2024-01-01T00:00:00.000Z" |}.

(** The digits of a string, in order. *)
Definition digitsOf (s : string) : string := removeAll (fun c => negb (isDigit c)) s.

(** A domain that ends in one of the two strong suffixes. *)
Definition strongDomain (d : string) : bool := endsWith ".co.uk" d || endsWith ".com" d.

(** The labels that [deriveIndustryFromSICField] joins. *)
Definition sicLabels (values : list string) : list string :=
  fold_left (fun labels raw =>
               let label := lookupIndustryFromSICCode raw in
               if truthy label then setAdd label labels else labels)
            values [].

(** The two-digit numbers from 1 to 99 that no section holds. *)
Definition unmappedPrefixes : list Z := [4; 34; 40; 44; 48; 54; 57; 67; 76; 83; 89]%Z.

(** The pool of plausible phones that is ranked. *)
Definition phonePool (phones : list string) : list string :=
  filter isLikelyPhone (map normalizePhone phones).

(** [x] is the first of the best of [pool]: what precedes it scores less,
    what follows it scores no more. *)
Definition firstBest (f : string -> Q) (pool : list string) (x : string) : Prop :=
  exists l1 l2, pool = (l1 ++ x :: l2)%list
                /\ (forall y, In y l1 -> (f y < f x)%Q)
                /\ (forall y, In y l2 -> (f y <= f x)%Q).

(** A step that adds to a set, or leaves it. *)
Definition addsToSet (step : list string -> string -> list string) : Prop :=
  forall l x, step l x = l \/ exists y, step l x = setAdd y l.

(** The sets of a crawl are duplicate-free and at most [n] pages were
    visited. *)
Definition crawlWithin (n : nat) (st : Crawl) : Prop :=
  NoDup (seen st) /\ (List.length (seen st) <= n)%nat
  /\ NoDup (foundEmails st) /\ NoDup (foundPhones st).

(** The fields a patch can hold, and the status notes. *)
Definition patchFields : list string :=
  [AIRTABLE_DOMAIN_FIELD; AIRTABLE_EMAIL_FIELD; AIRTABLE_PHONE_FIELD;
   AIRTABLE_INDUSTRY_FIELD; AIRTABLE_STATUS_FIELD; AIRTABLE_LAST_ENRICHED_AT_FIELD].

Definition statusNotes : list string :=
  ["No domain or contacts found"; "Domain only"; "OK";
   "Domain only (unverified brand match)"; "Partial"].

(** A string that the first steps of [cleanName] leave as it is. *)
Definition isTidy (s : string) : Prop :=
  allChars (fun c => Ascii.eqb (lowerChar c) c) s = true
  /\ allChars isKept s = true
  /\ noDouble isSpace s = true
  /\ startsIn isSpace s = false
  /\ endsIn isSpace s = false.

(** A word: not empty and free of white space. *)
Definition isWord (t : string) : Prop :=
  t <> "" /\ allChars (fun c => negb (isSpace c)) t = true.

(** The tokens of a company name that count as found in a page: three
    units at least and part of the page in lower case. *)
Definition brandHits (company htmlText : string) : list string :=
  filter (fun t => (3 <=? len t)%Z && includes t (toLowerCase htmlText))
         (tokenizeCompany company).

(** A network on which every request is answered 404 without a body and
    every lookup fails. *)
Definition notFoundNet : Net :=
  {| head := fun _ => Some {| status := 404; data := None |};
     get := fun _ => Some {| status := 404; data := None |};
     resolve4 := fun _ => None; resolve6 := fun _ => None; resolveMx := fun _ => None |}.

(** The domain part that the partition loop of [pickBestEmail] reads: the
    text between the first at sign and the next, in lower case. *)
Definition domainPart (e : string) : string := toLowerCase (afterAt e).

(** The test of the partition loop in words: the domain part is not empty,
    and it ends with the preferred domain or the preferred domain ends
    with it. *)
Definition sharesEnding (preferredDomain d : string) : Prop :=
  d <> "" /\ ((exists x, preferredDomain = x ++ d) \/ (exists x, d = x ++ preferredDomain)).



(** ** The crawl with its log *)

(** The two loops of [discoverContacts] once more, each with the log of
    its calls of [extractContactsFromUrl]: the URL is appended where the
    source makes the call, after the guards. *)
Definition visitSeedLog (w : World) (acc : Crawl * list string) (url : string)
  : Crawl * list string :=
  if isEmpty url || inArray url (seen (fst acc)) then acc
  else (visit w url (fst acc), (snd acc ++ [url])%list).

Fixpoint visitInternalLog (w : World) (us : list string) (count : Z)
    (acc : Crawl * list string) : Crawl * list string :=
  match us with
  | [] => acc
  | u :: r =>
      if (3 <=? count)%Z then acc
      else if inArray u (seen (fst acc)) then visitInternalLog w r count acc
      else visitInternalLog w r (count + 1)%Z
             (visit w u (fst acc), (snd acc ++ [u])%list)
  end.

(** The seed loop from the empty sets, with its log. *)
Definition crawlSeeds (w : World) (domain : string) : Crawl * list string :=
  let baseUrl := "https://" ++ domain ++ "/" in
  fold_left (visitSeedLog w) (map (makeAbs w baseUrl) seedPaths)
    ({| seen := []; foundEmails := []; foundPhones := [] |}, []).

(** The loop over the internal links, from where the seed loop ends,
    with a log of its own. *)
Definition crawlInternal (w : World) (domain : string) : Crawl * list string :=
  let baseUrl := "https://" ++ domain ++ "/" in
  let st := fst (crawlSeeds w domain) in
  let homeHtml := getHtml w baseUrl in
  if truthy homeHtml then
    let internal :=
      fold_left (fun acc href =>
                   let abs := makeAbs w baseUrl href in
                   if truthy abs && startsWith baseUrl abs then setAdd abs acc else acc)
                (anchors (load w homeHtml)) [] in
    visitInternalLog w internal 0 (st, [])
  else (st, []).

(** The pages extracted by a crawl, in order. *)
Definition pagesExtracted (w : World) (domain : string) : list string :=
  (snd (crawlSeeds w domain) ++ snd (crawlInternal w domain))%list.

(** The calls of [getHtml] of a crawl, in order: one for each page
    extracted, and the one for the home page between the two loops. *)
Definition requests (w : World) (domain : string) : list string :=
  let baseUrl := "https://" ++ domain ++ "/" in
  (snd (crawlSeeds w domain) ++ baseUrl :: snd (crawlInternal w domain))%list.

(** The log so far is what [seen] got after [pre], and no URL is twice in
    [seen]. *)
Definition logged (pre : list string) (acc : Crawl * list string) : Prop :=
  seen (fst acc) = (pre ++ snd acc)%list /\ NoDup (seen (fst acc)).

(** The pages a crawl of [domain] asks for whatever it finds: the home
    page and the seeds, those left out that [makeAbs] could not resolve. *)
Definition sitePages (w : World) (domain : string) : list string :=
  let baseUrl := "https://" ++ domain ++ "/" in
  baseUrl :: filter truthy (map (makeAbs w baseUrl) seedPaths).

(** The candidates that [bestDomainFor] may verify: none when the cleaned
    name is empty, the first forty of the sorted list otherwise. *)
Definition cappedCandidates (name country : string) : list string :=
  if isEmpty (cleanName name) then []
  else firstn 40 (sortedCandidates (cleanName name) country).

(** A world in which acme.com is down while the rest of the web answers. *)
Definition acmeDown : World :=
  {| dnsAlive := fun _ => true; httpAlive := fun _ => true;
     getHtml := fun u => if startsWith "https://acme.com/" u then ""
                         else "<html><body>Contact us</body></html>";
     load := fun _ => contactPage;
     makeAbs := fun b h => b ++ h; nowIso := "2024-01-01T00:00:00.000Z" |}.

(** A world in which one domain is alive, which is no candidate of the
    Acme Widgets record. *)
Definition elsewhere : World :=
  {| dnsAlive := fun d => String.eqb d "example.org";
     httpAlive := fun d => String.eqb d "example.org";
     getHtml := fun _ => ""; load := fun _ => emptyPage;
     makeAbs := fun _ _ => ""; nowIso := "2024-01-01T00:00:00.000Z" |}.

(** * Properties *)

(** ** The stable sort *)

Section SortFacts.
Context {A : Type} (after : A -> A -> bool).

Lemma insert_perm (x : A) (l : list A) : Permutation (insert after x l) (x :: l).
Proof.
  induction l as [| y r IH]; simpl.
  - apply Permutation_refl.
  - destruct (after x y).
    + eapply perm_trans; [apply perm_skip, IH | apply perm_swap].
    + apply Permutation_refl.
Qed.

Lemma sort_perm (l : list A) : Permutation (sort after l) l.
Proof.
  induction l as [| x r IH]; simpl.
  - apply perm_nil.
  - eapply perm_trans; [apply insert_perm | apply perm_skip, IH].
Qed.

Lemma sort_In (l : list A) (x : A) : In x (sort after l) <-> In x l.
Proof.
  split; apply Permutation_in; [| apply Permutation_sym]; apply sort_perm.
Qed.

Lemma sort_nonempty (l : list A) : l <> [] -> sort after l <> [].
Proof.
  intros Hl Hs. apply Hl.
  apply Permutation_nil. rewrite <- Hs. apply sort_perm.
Qed.

(** A comparator that is the strict part of a total preorder. *)
Hypothesis after_asym : forall x y, after x y = true -> after y x = false.
Hypothesis after_trans :
  forall x y z, after x y = false -> after y z = false -> after x z = false.

Lemma insert_sorted (x : A) (l : list A) :
  StronglySorted (notAfter after) l -> StronglySorted (notAfter after) (insert after x l).
Proof.
  induction 1 as [| y r Hr IH Hy]; simpl.
  - constructor; [constructor | constructor].
  - destruct (after x y) eqn:E.
    + constructor; [exact IH |].
      apply Forall_forall. intros z Hz.
      apply (Permutation_in _ (insert_perm x r)) in Hz.
      destruct Hz as [<- | Hz].
      * apply after_asym, E.
      * rewrite Forall_forall in Hy. apply Hy, Hz.
    + constructor; [constructor; assumption |].
      constructor; [exact E |].
      apply Forall_forall. intros z Hz.
      rewrite Forall_forall in Hy.
      apply after_trans with y; [exact E | apply Hy, Hz].
Qed.

Lemma sort_sorted (l : list A) : StronglySorted (notAfter after) (sort after l).
Proof.
  induction l as [| x r IH]; simpl; [constructor | apply insert_sorted, IH].
Qed.

(** The first element of the sorted array is one that no element beats. *)
Lemma sort_head (l : list A) (x : A) (r : list A) :
  sort after l = x :: r -> In x l /\ forall y, In y l -> after x y = false.
Proof.
  intros E. split.
  - apply sort_In. rewrite E. left; reflexivity.
  - intros y Hy. apply sort_In in Hy. rewrite E in Hy.
    pose proof (sort_sorted l) as S. rewrite E in S.
    inversion S as [| ? ? _ Hall]; subst.
    destruct Hy as [<- | Hy].
    + destruct (after x x) eqn:Ex; [| reflexivity].
      rewrite (after_asym _ _ Ex) in Ex. discriminate.
    + rewrite Forall_forall in Hall. apply Hall, Hy.
Qed.
End SortFacts.

Lemma scoredAfter_asym {A : Type} (x y : A * Q) :
  scoredAfter x y = true -> scoredAfter y x = false.
Proof.
  unfold scoredAfter. intros H.
  apply negb_true_iff in H. apply negb_false_iff.
  apply Qle_bool_iff. apply Qlt_le_weak, Qnot_le_lt.
  intros C. apply Qle_bool_iff in C. congruence.
Qed.

Lemma scoredAfter_trans {A : Type} (x y z : A * Q) :
  scoredAfter x y = false -> scoredAfter y z = false -> scoredAfter x z = false.
Proof.
  unfold scoredAfter. intros H1 H2.
  apply negb_false_iff in H1, H2. apply negb_false_iff.
  apply Qle_bool_iff in H1, H2. apply Qle_bool_iff.
  eapply Qle_trans; eassumption.
Qed.

(** The winner of a ranking: it comes from the pool and no member of the
    pool has a higher score. *)
Lemma ranking_winner (f : string -> Q) (pool : list string) :
  pool <> [] ->
  exists e r, sort scoredAfter (map (fun x => (x, f x)) pool) = (e, f e) :: r /\
              In e pool /\ forall x, In x pool -> (f x <= f e)%Q.
Proof.
  intros Hne.
  destruct (sort scoredAfter (map (fun x => (x, f x)) pool)) as [| [e s] r] eqn:E.
  - exfalso. apply (sort_nonempty scoredAfter (map (fun x => (x, f x)) pool)); [| exact E].
    destruct pool; [congruence | discriminate].
  - destruct (sort_head scoredAfter scoredAfter_asym scoredAfter_trans _ _ _ E) as [Hin Hmax].
    apply in_map_iff in Hin. destruct Hin as [e' [He' Hin]].
    inversion He'; subst e' s.
    exists e, r. split; [reflexivity |]. split; [exact Hin |].
    intros x Hx.
    specialize (Hmax (x, f x) (in_map _ _ _ Hx)).
    unfold scoredAfter in Hmax; simpl in Hmax.
    apply negb_false_iff in Hmax. apply Qle_bool_iff, Hmax.
Qed.

(** ** Phone normalization and selection *)

Lemma normalizePhone_unfold (p : string) :
  normalizePhone p = if isEmpty p then "" else ukRewrite (removeAll notPlusDigit p).
Proof. reflexivity. Qed.

Lemma removeAll_kept (cls : ascii -> bool) (s : string) :
  allChars (fun c => negb (cls c)) (removeAll cls s) = true.
Proof.
  induction s as [| c r IH]; simpl; [reflexivity |].
  destruct (cls c) eqn:E; simpl; [exact IH | now rewrite E, IH].
Qed.

Lemma removeAll_fixed (cls : ascii -> bool) (s : string) :
  allChars (fun c => negb (cls c)) s = true -> removeAll cls s = s.
Proof.
  induction s as [| c r IH]; simpl; [reflexivity |].
  intros H. apply andb_true_iff in H. destruct H as [Hc Hr].
  apply negb_true_iff in Hc. rewrite Hc, (IH Hr). reflexivity.
Qed.

Lemma allChars_sliceFrom (P : ascii -> bool) (n : nat) (s : string) :
  allChars P s = true -> allChars P (sliceFrom n s) = true.
Proof.
  revert s. induction n as [| n IH]; intros [| c r]; simpl; auto.
  intros H. apply andb_true_iff in H. apply IH, H.
Qed.

Lemma ukRewrite_plusDigit (s : string) :
  allChars isPlusDigit s = true -> allChars isPlusDigit (ukRewrite s) = true.
Proof.
  intros H. unfold ukRewrite.
  destruct (startsWith "0044" s).
  - simpl. apply (allChars_sliceFrom _ 2), H.
  - destruct (startsWith "44" s && negb (startsWith "+" s)); simpl; exact H.
Qed.

Lemma ukRewrite_idem (s : string) : ukRewrite (ukRewrite s) = ukRewrite s.
Proof.
  unfold ukRewrite.
  destruct (startsWith "0044" s) eqn:E1.
  - reflexivity.
  - destruct (startsWith "44" s && negb (startsWith "+" s)) eqn:E2.
    + reflexivity.
    + rewrite E1, E2. reflexivity.
Qed.

(** C10. Normalizing a phone a second time changes nothing. *)
Theorem normalizePhone_idempotent (p : string) :
  normalizePhone (normalizePhone p) = normalizePhone p.
Proof.
  rewrite (normalizePhone_unfold p).
  destruct (isEmpty p) eqn:Ep; [reflexivity |].
  assert (Hk : allChars isPlusDigit (ukRewrite (removeAll notPlusDigit p)) = true).
  { apply ukRewrite_plusDigit.
    unfold isPlusDigit. apply removeAll_kept. }
  set (out := ukRewrite (removeAll notPlusDigit p)) in *.
  rewrite (normalizePhone_unfold out).
  destruct (isEmpty out) eqn:Eo.
  - destruct out; [reflexivity | discriminate].
  - rewrite removeAll_fixed.
    + apply ukRewrite_idem.
    + exact Hk.
Qed.

Lemma digitCount_allDigits (s : string) :
  allChars isDigit s = true -> digitCount s = len s.
Proof.
  intros H. unfold digitCount. rewrite removeAll_fixed; [reflexivity |].
  erewrite <- H. clear.
  induction s as [| c r IH]; simpl; [reflexivity |].
  now rewrite IH, negb_involutive.
Qed.

Lemma isLikelyPhone_digitCount (n : string) :
  isLikelyPhone n = true -> (10 <= digitCount n <= 15)%Z.
Proof.
  unfold isLikelyPhone. intros H.
  apply andb_true_iff in H. destruct H as [H H15].
  apply andb_true_iff in H. destruct H as [Hd H10].
  apply Z.leb_le in H10, H15.
  destruct n as [| c r].
  - rewrite (digitCount_allDigits _ Hd). lia.
  - destruct (Ascii.eqb c "+") eqn:Ec.
    + apply Ascii.eqb_eq in Ec. subst c.
      unfold digitCount. simpl removeAll.
      fold (digitCount r). rewrite (digitCount_allDigits _ Hd). lia.
    + rewrite (digitCount_allDigits _ Hd). lia.
Qed.

Lemma prefix_cons (a b : ascii) (p s : string) :
  String.prefix (String a p) (String b s) = true -> a = b /\ String.prefix p s = true.
Proof.
  cbn [String.prefix]. destruct (ascii_dec a b); [auto | discriminate].
Qed.

Lemma normalizePhone_0044 (p : string) :
  startsWith "0044" (removeAll notPlusDigit p) = true ->
  normalizePhone p = "+" ++ sliceFrom 2 (removeAll notPlusDigit p)
  /\ startsWith "+44" (normalizePhone p) = true.
Proof.
  intros H. rewrite normalizePhone_unfold.
  destruct p as [| a0 p0]; [discriminate H |].
  cbv beta iota delta [isEmpty]. unfold ukRewrite. rewrite H.
  set (s := removeAll notPlusDigit (String a0 p0)) in *.
  split; [reflexivity |].
  unfold startsWith in H.
  destruct s as [| a s]; [discriminate H |]. apply prefix_cons in H. destruct H as [<- H].
  destruct s as [| b s]; [discriminate H |]. apply prefix_cons in H. destruct H as [<- H].
  destruct s as [| c s]; [discriminate H |]. apply prefix_cons in H. destruct H as [<- H].
  destruct s as [| d s]; [discriminate H |]. apply prefix_cons in H. destruct H as [<- _].
  destruct s; reflexivity.
Qed.

(** C7. A leading 0044 becomes +44, as in 00441234567890, and a list of
    phones none of which normalizes to 10 to 15 digits, as the single
    12345, yields the empty result. *)
Theorem pickBestPhone_rejects_implausible (phones : list string)
    (H : Forall (fun p => (digitCount (normalizePhone p) < 10
                           \/ 15 < digitCount (normalizePhone p))%Z) phones) :
  normalizePhone "00441234567890" = "+441234567890"
  /\ (forall p, startsWith "0044" (removeAll notPlusDigit p) = true ->
                normalizePhone p = "+" ++ sliceFrom 2 (removeAll notPlusDigit p)
                /\ startsWith "+44" (normalizePhone p) = true)
  /\ pickBestPhone ["12345"] = ""
  /\ pickBestPhone phones = "".
Proof.
  split; [reflexivity |]. split; [exact normalizePhone_0044 |]. split; [reflexivity |].
  unfold pickBestPhone.
  assert (E : filter isLikelyPhone (map normalizePhone phones) = []).
  { induction H as [| p r Hp _ IH]; simpl; [reflexivity |].
    destruct (isLikelyPhone (normalizePhone p)) eqn:El; [| exact IH].
    apply isLikelyPhone_digitCount in El. lia. }
  rewrite E. reflexivity.
Qed.

Lemma pickBestPhone_rejects_implausible_witness :
  Forall (fun p => (digitCount (normalizePhone p) < 10
                    \/ 15 < digitCount (normalizePhone p))%Z) ["12345"]
  /\ pickBestPhone ["12345"] = "".
Proof.
  assert (H : Forall (fun p => (digitCount (normalizePhone p) < 10
                                \/ 15 < digitCount (normalizePhone p))%Z) ["12345"]).
  { constructor; [left; vm_compute; reflexivity | constructor]. }
  split; [exact H |].
  exact (proj2 (proj2 (proj2 (pickBestPhone_rejects_implausible ["12345"] H)))).
Defined.

(** ** The industry classifier *)

Lemma lookup_unfold (sicCode : string) :
  lookupIndustryFromSICCode sicCode =
  if isEmpty sicCode then "" else
  match parseInt (sliceTo 2 (trim sicCode)) 10 with
  | None => ""
  | Some two => match find (inSection two) SIC_SECTIONS with
                | Some (_, _, name) => name
                | None => ""
                end
  end.
Proof. reflexivity. Qed.

Ltac decide_bounds :=
  repeat match goal with
         | |- context [(?a <=? ?b)%Z] => destruct (Z.leb_spec a b); try lia; simpl
         end.

(** The sections are disjoint: a number within a section finds it. *)
Lemma find_section (two lo hi : Z) (name : string) :
  In (lo, hi, name) SIC_SECTIONS -> (lo <= two <= hi)%Z ->
  find (inSection two) SIC_SECTIONS = Some (lo, hi, name).
Proof.
  intros HIn Hr. unfold SIC_SECTIONS in *. simpl in HIn.
  repeat (destruct HIn as [HIn | HIn];
          [inversion HIn; subst; clear HIn;
           unfold find, inSection; decide_bounds; reflexivity |]).
  contradiction.
Qed.

Lemma find_no_section (two : Z) :
  (forall lo hi name, In (lo, hi, name) SIC_SECTIONS -> ~ (lo <= two <= hi)%Z) ->
  find (inSection two) SIC_SECTIONS = None.
Proof.
  intros H.
  destruct (find (inSection two) SIC_SECTIONS) as [[[lo hi] name] |] eqn:E; [| reflexivity].
  apply find_some in E. destruct E as [HIn Hb].
  exfalso. apply (H lo hi name HIn).
  unfold inSection in Hb. apply andb_true_iff in Hb.
  destruct Hb as [H1 H2]. apply Z.leb_le in H1, H2. lia.
Qed.

Lemma labels_skip (codes : list string) (acc : list string) :
  fold_left (fun labels raw =>
               let label := lookupIndustryFromSICCode raw in
               if truthy label then setAdd label labels else labels) codes acc
  = fold_left (fun labels raw =>
               let label := lookupIndustryFromSICCode raw in
               if truthy label then setAdd label labels else labels)
      (filter (fun c => truthy (lookupIndustryFromSICCode c)) codes) acc.
Proof.
  revert acc. induction codes as [| c r IH]; intros acc; simpl; [reflexivity |].
  destruct (truthy (lookupIndustryFromSICCode c)) eqn:E; simpl.
  - rewrite E. apply IH.
  - apply IH.
Qed.

(** C8. The classifier reads the first two units of a code as a number and
    looks it up in the 21 sections; 62020 is in J, 01100 in A, 00 in none;
    a prefix that is no number gives no label and is skipped in a list. *)
Theorem lookupIndustry_by_section :
  List.length SIC_SECTIONS = 21%nat
  /\ lookupIndustryFromSICCode "62020" = "J — Information & Communication"
  /\ includes "J — Information & Communication"
       (deriveIndustryFromSICField (SicText "62020")) = true
  /\ lookupIndustryFromSICCode "01100" = "A — Agriculture, Forestry & Fishing"
  /\ includes "A — Agriculture, Forestry & Fishing"
       (deriveIndustryFromSICField (SicText "01100")) = true
  /\ lookupIndustryFromSICCode "00" = ""
  /\ deriveIndustryFromSICField (SicText "00") = ""
  /\ (forall code two lo hi name,
        isEmpty code = false ->
        parseInt (sliceTo 2 (trim code)) 10 = Some two ->
        In (lo, hi, name) SIC_SECTIONS -> (lo <= two <= hi)%Z ->
        lookupIndustryFromSICCode code = name)
  /\ (forall code two,
        parseInt (sliceTo 2 (trim code)) 10 = Some two ->
        (forall lo hi name, In (lo, hi, name) SIC_SECTIONS -> ~ (lo <= two <= hi)%Z) ->
        lookupIndustryFromSICCode code = "")
  /\ (forall code,
        parseInt (sliceTo 2 (trim code)) 10 = None ->
        lookupIndustryFromSICCode code = "")
  /\ (forall codes,
        deriveIndustryFromSICField (SicArray codes) =
        deriveIndustryFromSICField
          (SicArray (filter (fun c => truthy (lookupIndustryFromSICCode c)) codes))).
Proof.
  repeat (split; [vm_compute; reflexivity |]).
  split; [| split; [| split]].
  - intros code two lo hi name Hne Hp HIn Hr.
    rewrite lookup_unfold, Hne, Hp, (find_section _ _ _ _ HIn Hr). reflexivity.
  - intros code two Hp Hno.
    rewrite lookup_unfold, Hp, (find_no_section _ Hno).
    destruct (isEmpty code); reflexivity.
  - intros code Hp. rewrite lookup_unfold, Hp.
    destruct (isEmpty code); reflexivity.
  - intros codes. unfold deriveIndustryFromSICField. simpl.
    rewrite labels_skip. reflexivity.
Qed.

(** ** The Cloudflare decoding *)

Lemma parseInt_hexByte (upper : bool) (b : Z) :
  isByte b -> parseInt (hexByte upper b) 16 = Some b.
Proof.
  intros Hb.
  assert (A : forallb (fun n => match parseInt (hexByte upper (Z.of_nat n)) 16 with
                                | Some v => (v =? Z.of_nat n)%Z
                                | None => false
                                end) (seq 0 256) = true).
  { destruct upper; vm_compute; reflexivity. }
  rewrite forallb_forall in A.
  specialize (A (Z.to_nat b)).
  rewrite Z2Nat.id in A by (unfold isByte in Hb; lia).
  assert (HIn : In (Z.to_nat b) (seq 0 256)).
  { apply in_seq. unfold isByte in Hb. lia. }
  specialize (A HIn).
  destruct (parseInt (hexByte upper b) 16) as [v |]; [| discriminate].
  apply Z.eqb_eq in A. now subst.
Qed.

Lemma lxor_byte (a b : Z) : isByte a -> isByte b -> isByte (Z.lxor a b).
Proof.
  unfold isByte. intros Ha Hb.
  assert (Hn : (0 <= Z.lxor a b)%Z) by (apply Z.lxor_nonneg; lia).
  split; [exact Hn |].
  destruct (Z.eq_dec (Z.lxor a b) 0) as [-> | Hz]; [lia |].
  change 256%Z with (2 ^ 8)%Z.
  apply Z.log2_lt_pow2; [lia |].
  pose proof (Z.log2_lxor a b (proj1 Ha) (proj1 Hb)) as Hl.
  assert (La : (Z.log2 a < 8)%Z).
  { destruct (Z.eq_dec a 0) as [-> | Hza]; [simpl; lia |].
    apply Z.log2_lt_pow2; lia. }
  assert (Lb : (Z.log2 b < 8)%Z).
  { destruct (Z.eq_dec b 0) as [-> | Hzb]; [simpl; lia |].
    apply Z.log2_lt_pow2; lia. }
  lia.
Qed.

Lemma toInt32_byte (b : Z) : isByte b -> toInt32 (Some b) = b.
Proof.
  unfold isByte, toInt32. intros Hb.
  rewrite Z.mod_small; lia.
Qed.

Lemma bitXor_decodes (b k : Z) :
  isByte b -> isByte k -> bitXor (Some (Z.lxor b k)) (Some k) = b.
Proof.
  intros Hb Hk. unfold bitXor.
  rewrite (toInt32_byte _ (lxor_byte _ _ Hb Hk)), (toInt32_byte _ Hk).
  rewrite Z.lxor_assoc, Z.lxor_nilpotent, Z.lxor_0_r. reflexivity.
Qed.

Lemma append_assoc (a b c : string) : (a ++ b) ++ c = a ++ (b ++ c).
Proof. induction a as [| x a IH]; simpl; [reflexivity | now rewrite IH]. Qed.

Lemma append_empty_r (a : string) : a ++ "" = a.
Proof. induction a as [| x a IH]; simpl; [reflexivity | now rewrite IH]. Qed.

Lemma concat_empty_cons (x : string) (l : list string) :
  String.concat "" (x :: l) = x ++ String.concat "" l.
Proof.
  destruct l as [| y l]; simpl; [now rewrite append_empty_r | reflexivity].
Qed.

Lemma decodeLoop_encoded (upper : bool) (k : Z) (bytes : list Z) (email : string) :
  isByte k -> Forall isByte bytes ->
  decodeLoop (Some k)
    (String.concat "" (map (fun b => hexByte upper (Z.lxor b k)) bytes)) email
  = email ++ unitsToString bytes.
Proof.
  intros Hk Hall. revert email.
  induction Hall as [| b r Hb _ IH]; intros email.
  - simpl. now rewrite append_empty_r.
  - unfold unitsToString. simpl map. rewrite !concat_empty_cons.
    unfold hexByte at 1. simpl append.
    change (decodeLoop (Some k)
              (String (hexDigit upper (Z.lxor b k / 16))
                 (String (hexDigit upper (Z.lxor b k mod 16))
                    (String.concat "" (map (fun b0 => hexByte upper (Z.lxor b0 k)) r)))) email)
      with (decodeLoop (Some k)
              (String.concat "" (map (fun b0 => hexByte upper (Z.lxor b0 k)) r))
              (email ++ fromCharCode (bitXor (parseInt (hexByte upper (Z.lxor b k)) 16) (Some k)))).
    rewrite IH.
    rewrite (parseInt_hexByte _ _ (lxor_byte _ _ Hb Hk)), (bitXor_decodes _ _ Hb Hk).
    apply append_assoc.
Qed.

(** C9. Decoding undoes the Cloudflare encoding: the key as two hexadecimal
    digits, then each byte xor the key as two hexadecimal digits, gives back
    the units of the address. *)
Theorem decodeCfEmail_left_inverse (upper : bool) (k : Z) (bytes : list Z)
    (Hk : isByte k) (Hbytes : Forall isByte bytes) :
  decodeCfEmail (cfEncode upper k bytes) = unitsToString bytes.
Proof.
  unfold decodeCfEmail, cfEncode.
  unfold hexByte at 1 2. simpl append. simpl sliceTo. simpl sliceFrom.
  change (String (hexDigit upper (k / 16)) (String (hexDigit upper (k mod 16)) ""))
    with (hexByte upper k).
  rewrite (parseInt_hexByte _ _ Hk).
  rewrite (decodeLoop_encoded upper k bytes "" Hk Hbytes). reflexivity.
Qed.

Lemma decodeCfEmail_left_inverse_witness :
  isByte 66 /\ Forall isByte [105; 64; 98; 46; 99]%Z
  /\ decodeCfEmail (cfEncode false 66 [105; 64; 98; 46; 99]%Z) = "i@b.c".
Proof.
  assert (Hk : isByte 66) by (unfold isByte; lia).
  assert (Hb : Forall isByte [105; 64; 98; 46; 99]%Z)
    by (repeat constructor; unfold isByte; lia).
  split; [exact Hk |]. split; [exact Hb |].
  exact (decodeCfEmail_left_inverse false 66 [105; 64; 98; 46; 99]%Z Hk Hb).
Defined.

(** ** Domain selection *)

Lemma domainAfter_asym (x y : string) : domainAfter x y = true -> domainAfter y x = false.
Proof. unfold domainAfter. intros H. apply Z.ltb_lt in H. apply Z.ltb_ge. lia. Qed.

Lemma domainAfter_trans (x y z : string) :
  domainAfter x y = false -> domainAfter y z = false -> domainAfter x z = false.
Proof. unfold domainAfter. rewrite !Z.ltb_ge. lia. Qed.

Lemma resultAfter_asym (x y : VerificationResult) :
  resultAfter x y = true -> resultAfter y x = false.
Proof. unfold resultAfter. intros H. apply Z.ltb_lt in H. apply Z.ltb_ge. lia. Qed.

Lemma resultAfter_trans (x y z : VerificationResult) :
  resultAfter x y = false -> resultAfter y z = false -> resultAfter x z = false.
Proof. unfold resultAfter. rewrite !Z.ltb_ge. lia. Qed.

Lemma verifiedOf_head (checked : list VerificationResult) (x : VerificationResult)
    (r : list VerificationResult) :
  verifiedOf checked = x :: r -> bestAlive checked (Some x).
Proof.
  intros E. unfold verifiedOf in E.
  destruct (sort_head resultAfter resultAfter_asym resultAfter_trans _ _ _ E) as [Hin Hmax].
  apply filter_In in Hin. destruct Hin as [Hin Hok].
  split; [exact Hin |]. split; [exact Hok |].
  intros r' Hr' Hok'.
  assert (Hf : In r' (filter ok checked)) by (apply filter_In; split; assumption).
  specialize (Hmax r' Hf). unfold resultAfter in Hmax.
  apply Z.ltb_ge in Hmax. exact Hmax.
Qed.

Lemma verifiedOf_empty (checked : list VerificationResult) :
  verifiedOf checked = [] -> bestAlive checked None.
Proof.
  intros E r' Hr'. destruct (ok r') eqn:Hok; [| reflexivity].
  assert (Hf : In r' (filter ok checked)) by (apply filter_In; split; assumption).
  apply (sort_In resultAfter) in Hf. unfold verifiedOf in E. rewrite E in Hf.
  contradiction.
Qed.

Lemma bestAlive_hd_error (checked : list VerificationResult) :
  bestAlive checked (hd_error (verifiedOf checked)).
Proof.
  destruct (verifiedOf checked) as [| x r] eqn:E; simpl.
  - apply verifiedOf_empty, E.
  - eapply verifiedOf_head, E.
Qed.

Lemma bestAlive_strong (checked : list VerificationResult) (strong : VerificationResult) :
  In strong checked -> isStrong strong = true ->
  bestAlive checked (Some (hd strong (verifiedOf checked))).
Proof.
  intros Hin Hs.
  destruct (verifiedOf checked) as [| x r] eqn:E; simpl.
  - exfalso. apply verifiedOf_empty in E. specialize (E strong Hin).
    unfold isStrong in Hs. apply andb_true_iff in Hs. destruct Hs as [Hs _]. congruence.
  - eapply verifiedOf_head, E.
Qed.

Lemma firstn_plus {A : Type} (i a : nat) (l : list A) :
  firstn (i + a) l = (firstn i l ++ firstn a (skipn i l))%list.
Proof.
  revert l. induction i as [| i IH]; intros l; simpl; [reflexivity |].
  destruct l as [| x l]; simpl.
  - now rewrite firstn_nil.
  - now rewrite IH.
Qed.

Lemma firstn_incl {A : Type} (i j : nat) (l : list A) (x : A) :
  (i <= j)%nat -> In x (firstn i l) -> In x (firstn j l).
Proof.
  intros Hle Hx. replace j with (i + (j - i))%nat by lia.
  rewrite firstn_plus. apply in_or_app. now left.
Qed.

Section BatchLoop.
Variable w : World.
Variable cands : list string.
Variable TOP : nat.

Let top : list VerificationResult := map (verify w) (firstn TOP cands).

Hypothesis TOP_le : (TOP <= List.length cands)%nat.
Hypothesis batch_in_top :
  forall k, (5 * k < TOP)%nat ->
            map (verify w) (firstn 5 (skipn (5 * k) cands)) = firstn 5 (skipn (5 * k) top).

Lemma top_length : List.length top = TOP.
Proof. unfold top. rewrite length_map, length_firstn. lia. Qed.

Lemma loop_exit (k : nat) (checked : list VerificationResult) :
  (TOP <= 5 * k)%nat ->
  checked = firstn (5 * k) top ->
  (forall r, In r checked -> isStrong r = false) ->
  stopsAfter top k {| candidates := checked; pick := hd_error (verifiedOf checked) |}.
Proof.
  intros Hk Hc Hns. unfold stopsAfter; simpl.
  split; [exact Hc |]. split; [| split].
  - intros r Hr. apply Hns. rewrite Hc.
    apply (firstn_incl (5 * (k - 1)) (5 * k)); [lia | exact Hr].
  - right. split; [rewrite top_length; exact Hk |].
    intros r Hr. apply Hns. rewrite Hc, firstn_all2; [exact Hr |].
    rewrite top_length. exact Hk.
  - apply bestAlive_hd_error.
Qed.

Lemma batchLoop_eq (fuel i : nat) (checked : list VerificationResult) :
  batchLoop w fuel cands TOP i checked =
  if (i <? TOP)%nat then
    match fuel with
    | O => None
    | S fuel' =>
        let res := map (verify w) (firstn 5 (skipn i cands)) in
        match find isStrong res with
        | Some strong =>
            Some {| candidates := (checked ++ res)%list;
                    pick := Some (hd strong (verifiedOf (checked ++ res)%list)) |}
        | None => batchLoop w fuel' cands TOP (i + 5)%nat (checked ++ res)%list
        end
    end
  else Some {| candidates := checked; pick := hd_error (verifiedOf checked) |}.
Proof. destruct fuel; reflexivity. Qed.

Lemma batchLoop_stops (fuel k : nat) (checked : list VerificationResult) :
  (TOP <= 5 * k + fuel)%nat ->
  checked = firstn (5 * k) top ->
  (forall r, In r checked -> isStrong r = false) ->
  exists sel n, batchLoop w fuel cands TOP (5 * k) checked = Some sel
                /\ stopsAfter top n sel.
Proof.
  revert k checked. induction fuel as [| fuel IH]; intros k checked Hfuel Hc Hns;
    rewrite batchLoop_eq; destruct (5 * k <? TOP)%nat eqn:Ei.
  - apply Nat.ltb_lt in Ei. lia.
  - apply Nat.ltb_ge in Ei. eexists; exists k. split; [reflexivity |].
    apply loop_exit; assumption.
  - apply Nat.ltb_lt in Ei. cbv zeta.
    rewrite (batch_in_top k Ei).
    assert (Hnext : (checked ++ firstn 5 (skipn (5 * k) top))%list
                    = firstn (5 * (k + 1)) top).
    { rewrite Hc. replace (5 * (k + 1))%nat with (5 * k + 5)%nat by lia.
      symmetry. apply firstn_plus. }
    destruct (find isStrong (firstn 5 (skipn (5 * k) top))) as [strong |] eqn:Ef.
    + apply find_some in Ef. destruct Ef as [Hin Hs].
      eexists; exists (k + 1)%nat. split; [reflexivity |].
      unfold stopsAfter; simpl.
      replace (k + 1 - 1)%nat with k by lia.
      split; [exact Hnext |]. split; [| split].
      * intros r Hr. apply Hns. rewrite Hc. exact Hr.
      * left. split; [lia |]. exists strong. split; assumption.
      * apply bestAlive_strong; [| exact Hs].
        apply in_or_app. right. exact Hin.
    + replace (5 * k + 5)%nat with (5 * (k + 1))%nat by lia.
      apply IH.
      * lia.
      * exact Hnext.
      * intros r Hr. apply in_app_or in Hr. destruct Hr as [Hr | Hr].
        -- apply Hns, Hr.
        -- apply (find_none _ _ Ef), Hr.
  - apply Nat.ltb_ge in Ei. eexists; exists k. split; [reflexivity |].
    apply loop_exit; assumption.
Qed.
End BatchLoop.

Lemma capped_batches (w : World) (cands : list string) (k : nat) :
  (5 * k < Nat.min 40 (List.length cands))%nat ->
  map (verify w) (firstn 5 (skipn (5 * k) cands))
  = firstn 5 (skipn (5 * k)
               (map (verify w) (firstn (Nat.min 40 (List.length cands)) cands))).
Proof.
  intros Hk. rewrite skipn_map, firstn_map. f_equal.
  destruct (Nat.le_gt_cases (List.length cands) 40) as [Hlen | Hlen].
  - rewrite (firstn_all2 (n := Nat.min 40 (List.length cands))); [reflexivity | lia].
  - rewrite (firstn_skipn_comm 5 (5 * k) (firstn _ cands)), firstn_firstn.
    replace (Nat.min (5 * k + 5) (Nat.min 40 (List.length cands))) with (5 * k + 5)%nat by lia.
    apply firstn_skipn_comm.
Qed.

Lemma capped_top (cands : list string) :
  firstn (Nat.min 40 (List.length cands)) cands = firstn 40 cands.
Proof.
  destruct (Nat.le_gt_cases (List.length cands) 40) as [Hlen | Hlen].
  - rewrite !firstn_all2; [reflexivity | lia | lia].
  - replace (Nat.min 40 (List.length cands)) with 40%nat by lia. reflexivity.
Qed.

(** The selection on a list of sorted candidates. *)
Lemma selection_stops (w : World) (cands : list string) :
  exists sel n,
    batchLoop w (Nat.min 40 (List.length cands)) cands
              (Nat.min 40 (List.length cands)) 0 [] = Some sel
    /\ stopsAfter (map (verify w) (firstn 40 cands)) n sel.
Proof.
  rewrite <- (capped_top cands).
  apply (batchLoop_stops w cands (Nat.min 40 (List.length cands))
           ltac:(lia) (capped_batches w cands) _ 0 []).
  - lia.
  - reflexivity.
  - intros r [].
Qed.

Lemma StronglySorted_impl {A : Type} (R R' : A -> A -> Prop) (l : list A) :
  (forall x y, R x y -> R' x y) -> StronglySorted R l -> StronglySorted R' l.
Proof.
  intros Himp. induction 1 as [| x r _ IH Hall]; constructor; [exact IH |].
  eapply Forall_impl; [| exact Hall]. intros y. apply Himp.
Qed.

Lemma sortedCandidates_sorted (cleaned country : string) :
  Permutation (sortedCandidates cleaned country) (generated cleaned country)
  /\ StronglySorted (fun a b => (score b <= score a)%Z) (sortedCandidates cleaned country).
Proof.
  split; [apply sort_perm |].
  apply StronglySorted_impl with (R := notAfter domainAfter).
  - unfold notAfter, domainAfter. intros x y H. apply Z.ltb_ge in H. exact H.
  - apply sort_sorted; [apply domainAfter_asym | apply domainAfter_trans].
Qed.

(** C2. The selector caps the candidates sorted by score to the first 40
    and verifies them five at a time.  It stops after the first batch that
    holds an alive candidate ending in .co.uk or .com, or when the capped
    list is exhausted; either way it returns an alive candidate that no
    alive candidate checked so far outscores, in whatever batch it was
    checked, or nothing when none was alive. *)
Theorem bestDomainFor_batches (w : World) (name country : string) :
  exists sel,
    bestDomainFor w name country = Some sel
    /\ (cleanName name = "" -> sel = {| candidates := []; pick := None |})
    /\ (cleanName name <> "" ->
        let cands := sortedCandidates (cleanName name) country in
        Permutation cands (generated (cleanName name) country)
        /\ StronglySorted (fun a b => (score b <= score a)%Z) cands
        /\ exists n, stopsAfter (map (verify w) (firstn 40 cands)) n sel).
Proof.
  unfold bestDomainFor.
  destruct (cleanName name) as [| c cleaned] eqn:E; simpl isEmpty; cbv iota.
  - eexists. split; [reflexivity |]. split; [reflexivity | congruence].
  - destruct (selection_stops w (sortedCandidates (String c cleaned) country))
      as [sel [n [Hrun Hstop]]].
    exists sel. split; [exact Hrun |]. split; [discriminate |].
    intros _. cbv zeta.
    destruct (sortedCandidates_sorted (String c cleaned) country) as [Hp Hs].
    split; [exact Hp |]. split; [exact Hs |].
    exists n. exact Hstop.
Qed.

Lemma In_firstn {A : Type} (n : nat) (l : list A) (x : A) :
  In x (firstn n l) -> In x l.
Proof.
  intros H. rewrite <- (firstn_skipn n l). apply in_or_app. now left.
Qed.

(** The selector always returns, and what it picks was verified alive. *)
Lemma bestDomainFor_pick (w : World) (name country : string) :
  exists sel,
    bestDomainFor w name country = Some sel
    /\ forall r, pick sel = Some r -> ok r = true /\ r = verify w (domain r).
Proof.
  unfold bestDomainFor.
  destruct (isEmpty (cleanName name)).
  - eexists. split; [reflexivity |]. simpl. discriminate.
  - destruct (selection_stops w (sortedCandidates (cleanName name) country))
      as [sel [n [Hrun [Hc [_ [_ Hbest]]]]]].
    exists sel. split; [exact Hrun |].
    intros r Hr. rewrite Hr in Hbest. destruct Hbest as [Hin [Hok _]].
    split; [exact Hok |].
    rewrite Hc in Hin. apply In_firstn in Hin.
    apply in_map_iff in Hin. destruct Hin as [d [<- _]]. reflexivity.
Qed.

(** With no DNS and no HTTP answer no domain is picked. *)
Lemma bestDomainFor_offline (w : World) (name country : string) :
  (forall d, dnsAlive w d = false) -> (forall d, httpAlive w d = false) ->
  exists sel, bestDomainFor w name country = Some sel /\ pick sel = None.
Proof.
  intros Hdns Hhttp.
  destruct (bestDomainFor_pick w name country) as [sel [Hrun Hpick]].
  exists sel. split; [exact Hrun |].
  destruct (pick sel) as [r |] eqn:E; [| reflexivity].
  destruct (Hpick r eq_refl) as [Hok Hr].
  rewrite Hr in Hok. simpl in Hok. rewrite Hdns, Hhttp in Hok. discriminate.
Qed.

(** ** One record: the offline scenario *)

(** C3, as the scenario is written: the patch of the Acme Widgets record
    holds the status and the timestamp only.  It does not: the industry is
    derived from the SIC code without any network access. *)
Lemma processRecord_offline_not_status_only :
  ~ (exists p, processRecord offline acmeWidgets = Some p
               /\ patchGet AIRTABLE_STATUS_FIELD p = Some "No domain or contacts found"
               /\ onlyFields [AIRTABLE_STATUS_FIELD; AIRTABLE_LAST_ENRICHED_AT_FIELD] p).
Proof.
  intros [p [Hp [_ Honly]]].
  vm_compute in Hp. inversion Hp; subst p; clear Hp.
  specialize (Honly ("Industry", "C — Manufacturing") (or_introl eq_refl)).
  simpl in Honly. destruct Honly as [H | [H | []]]; discriminate.
Qed.

(** C3, amended. When every DNS and HTTP probe fails, the Acme Widgets
    record gets the status "No domain or contacts found" and a patch of the
    industry of its SIC code, the status and the timestamp; no page is
    fetched, no domain having been found. *)
Theorem processRecord_offline (w : World)
    (Hdns : forall d, dnsAlive w d = false)
    (Hhttp : forall d, httpAlive w d = false) :
  processRecord w acmeWidgets =
  Some [(AIRTABLE_INDUSTRY_FIELD, "C — Manufacturing");
        (AIRTABLE_STATUS_FIELD, "No domain or contacts found");
        (AIRTABLE_LAST_ENRICHED_AT_FIELD, nowIso w)].
Proof.
  destruct (bestDomainFor_offline w "Acme Widgets Ltd" "" Hdns Hhttp) as [sel [Hrun Hpick]].
  unfold processRecord, enrich, resolveDomain.
  change (fDomain acmeWidgets) with "".
  change (fCompany acmeWidgets) with "Acme Widgets Ltd".
  change (fCountry acmeWidgets) with "".
  cbv beta iota delta [isEmpty].
  rewrite Hrun, Hpick. reflexivity.
Qed.

Lemma processRecord_offline_witness :
  (forall d, dnsAlive offline d = false)
  /\ (forall d, httpAlive offline d = false)
  /\ processRecord offline acmeWidgets =
     Some [("Industry", "C — Manufacturing");
           ("Enrichment Status", "No domain or contacts found");
           ("Last Enriched At", "2024-01-01T00:00:00.000Z")].
Proof.
  split; [reflexivity |]. split; [reflexivity |].
  exact (processRecord_offline offline (fun _ => eq_refl) (fun _ => eq_refl)).
Defined.

(** ** The status *)

Lemma truthy_empty_iff (s : string) : truthy s = false <-> s = "".
Proof. destruct s; split; intros H; try reflexivity; discriminate. Qed.

Lemma truthy_true_iff (s : string) : truthy s = true <-> s <> "".
Proof.
  destruct s; split; intros H; try reflexivity; try discriminate.
  exfalso. apply H. reflexivity.
Qed.

Lemma patchOf_contacts (w : World) (e : Enriched) :
  patchGet AIRTABLE_EMAIL_FIELD (patchOf w e)
  = (if truthy (eEmail e) then Some (eEmail e) else None)
  /\ patchGet AIRTABLE_PHONE_FIELD (patchOf w e)
     = (if truthy (ePhone e) then Some (ePhone e) else None).
Proof.
  unfold patchOf, setIf.
  destruct (truthy (eDomain e)), (truthy (eEmail e)), (truthy (ePhone e)),
    (truthy (eIndustry e)); split; reflexivity.
Qed.

(** C5. The status is the one the five cases of the design give, and a
    weak brand match leaves the contact values in place: they are the ones
    discovered, whatever the verdict, and the patch carries them. *)
Theorem statusNote_cases :
  (forall e : Enriched,
      (eDomain e = "" -> eEmail e = "" -> ePhone e = "" ->
       statusNote e = "No domain or contacts found")
      /\ (eDomain e <> "" -> eEmail e = "" -> ePhone e = "" ->
          statusNote e = "Domain only")
      /\ (eDomain e <> "" -> eEmail e <> "" \/ ePhone e <> "" ->
          eBrandOk e = Some true \/ eBrandOk e = None ->
          statusNote e = "OK")
      /\ (eDomain e <> "" -> eEmail e <> "" \/ ePhone e <> "" ->
          eBrandOk e = Some false ->
          statusNote e = "Domain only (unverified brand match)")
      /\ (eDomain e = "" -> eEmail e <> "" \/ ePhone e <> "" ->
          statusNote e = "Partial"))
  /\ (forall (w : World) (rec : Rec) (dom : string),
         let e := enrichWith w rec dom in
         let c := discoverContacts w dom in
         eDomain e = dom
         /\ (eBrandOk e = None ->
             eEmail e = fEmail rec /\ ePhone e = fPhone rec)
         /\ (forall verdict, eBrandOk e = Some verdict ->
             verdict = Qle_bool (4 # 10) (brandMatchScore (fCompany rec) (brandText c))
             /\ eEmail e = (if isEmpty (fEmail rec) && truthy (email c)
                            then email c else fEmail rec)
             /\ ePhone e = (if isEmpty (fPhone rec) && truthy (phone c)
                            then phone c else fPhone rec))
         /\ patchGet AIRTABLE_EMAIL_FIELD (patchOf w e)
            = (if truthy (eEmail e) then Some (eEmail e) else None)
         /\ patchGet AIRTABLE_PHONE_FIELD (patchOf w e)
            = (if truthy (ePhone e) then Some (ePhone e) else None)
         /\ patchGet AIRTABLE_STATUS_FIELD (patchOf w e) = Some (statusNote e))
  /\ processRecord unbranded acmeWithDomain =
     Some [("Domain", "acme.com"); ("Email", "info@acme.com");
           ("Phone", "+441234567890");
           ("Enrichment Status", "Domain only (unverified brand match)");
           ("Last Enriched At", "2024-01-01T00:00:00.000Z")].
Proof.
  split; [| split].
  - intros e. unfold statusNote.
    repeat split.
    + intros -> -> ->. reflexivity.
    + intros Hd -> ->. apply truthy_true_iff in Hd. rewrite Hd. reflexivity.
    + intros Hd Hc Hb. apply truthy_true_iff in Hd. rewrite Hd.
      assert (Hor : truthy (eEmail e) || truthy (ePhone e) = true).
      { apply orb_true_iff. destruct Hc as [Hc | Hc]; apply truthy_true_iff in Hc; auto. }
      destruct (truthy (eEmail e)), (truthy (ePhone e)); try discriminate;
        destruct Hb as [-> | ->]; reflexivity.
    + intros Hd Hc Hb. apply truthy_true_iff in Hd. rewrite Hd, Hb.
      assert (Hor : truthy (eEmail e) || truthy (ePhone e) = true).
      { apply orb_true_iff. destruct Hc as [Hc | Hc]; apply truthy_true_iff in Hc; auto. }
      destruct (truthy (eEmail e)), (truthy (ePhone e)); try discriminate; reflexivity.
    + intros Hd Hc. rewrite Hd. simpl truthy.
      assert (Hor : truthy (eEmail e) || truthy (ePhone e) = true).
      { apply orb_true_iff. destruct Hc as [Hc | Hc]; apply truthy_true_iff in Hc; auto. }
      destruct (truthy (eEmail e)), (truthy (ePhone e)); try discriminate; reflexivity.
  - intros w rec dom e c.
    assert (Hp := patchOf_contacts w e).
    split; [| split; [| split; [| split; [exact (proj1 Hp) | split; [exact (proj2 Hp) |]]]]].
    + subst e. unfold enrichWith.
      destruct (truthy dom && (isEmpty (fEmail rec) || isEmpty (fPhone rec))); reflexivity.
    + subst e. unfold enrichWith.
      destruct (truthy dom && (isEmpty (fEmail rec) || isEmpty (fPhone rec)));
        simpl; [discriminate | auto].
    + intros verdict. subst e c. unfold enrichWith.
      destruct (truthy dom && (isEmpty (fEmail rec) || isEmpty (fPhone rec)));
        simpl; [| discriminate].
      intros Hv. inversion Hv. auto.
    + unfold patchOf, setIf.
      destruct (truthy (eDomain e)), (truthy (eEmail e)), (truthy (ePhone e)),
        (truthy (eIndustry e)); reflexivity.
  - vm_compute. reflexivity.
Qed.

(** ** Email ranking *)

Lemma filter_negb_all {A : Type} (f : A -> bool) (l : list A) :
  filter f l = [] -> filter (fun x => negb (f x)) l = l.
Proof.
  induction l as [| x r IH]; simpl; [reflexivity |].
  destruct (f x); simpl; [discriminate |].
  intros H. now rewrite IH.
Qed.

Lemma pickBestEmail_pool (emails : list string) (preferredDomain : string) :
  cleanEmails emails <> [] ->
  In (pickBestEmail emails preferredDomain) (poolOf emails preferredDomain)
  /\ forall e, In e (poolOf emails preferredDomain) ->
               (emailScore e <= emailScore (pickBestEmail emails preferredDomain))%Q.
Proof.
  intros Hne.
  assert (Hpool : poolOf emails preferredDomain <> []).
  { unfold poolOf.
    destruct (filter (onPreferred preferredDomain) (cleanEmails emails));
      [exact Hne | discriminate]. }
  destruct (ranking_winner emailScore _ Hpool) as [e [r [Es [Hin Hmax]]]].
  assert (Epick : pickBestEmail emails preferredDomain = e).
  { unfold pickBestEmail. unfold poolOf in Es.
    destruct (cleanEmails emails) as [| a0 arr0] eqn:Earr; [congruence |].
    destruct (filter (onPreferred preferredDomain) (a0 :: arr0)) as [| p ps] eqn:Ep.
    - rewrite (filter_negb_all _ _ Ep), Es. reflexivity.
    - rewrite Es. reflexivity. }
  rewrite Epick. split; assumption.
Qed.

(** The partition test is a test of suffixes of text: the text after the
    first at sign of the address, in lower case, ends with the preferred
    domain or the preferred domain ends with it.  No label boundary is
    asked for: an address at notacme.com is on acme.com. *)
Lemma onPreferred_suffix (preferredDomain e : string) :
  onPreferred preferredDomain e = true <->
  preferredDomain <> "" /\ afterAt e <> ""
  /\ (endsWith (toLowerCase (afterAt e)) preferredDomain = true
      \/ endsWith preferredDomain (toLowerCase (afterAt e)) = true).
Proof.
  unfold onPreferred.
  assert (Hl : truthy (toLowerCase (afterAt e)) = truthy (afterAt e))
    by (destruct (afterAt e); reflexivity).
  rewrite Hl, !andb_true_iff, orb_true_iff, !truthy_true_iff. tauto.
Qed.

Example onPreferred_no_boundary :
  onPreferred "acme.com" "info@notacme.com" = true.
Proof. reflexivity. Qed.

Lemma prefix_iff (p s : string) :
  String.prefix p s = true <-> exists r, s = p ++ r.
Proof.
  revert s. induction p as [| a p IH]; intros s.
  - split; [intros _; exists s; reflexivity | intros _; destruct s; reflexivity].
  - split.
    + intros H. destruct s as [| b s]; [discriminate H |].
      apply prefix_cons in H. destruct H as [-> H].
      apply IH in H. destruct H as [r ->]. exists r. reflexivity.
    + intros [r ->]. simpl append. cbn [String.prefix].
      destruct (ascii_dec a a); [| congruence]. apply IH. exists r. reflexivity.
Qed.

Lemma revStr_app (a b : string) : revStr (a ++ b) = revStr b ++ revStr a.
Proof.
  induction a as [| c a IH]; simpl.
  - symmetry. apply append_empty_r.
  - rewrite IH. apply append_assoc.
Qed.

Lemma revStr_involutive (s : string) : revStr (revStr s) = s.
Proof.
  induction s as [| c s IH]; simpl; [reflexivity |].
  rewrite revStr_app, IH. reflexivity.
Qed.

Lemma endsWith_iff (p s : string) :
  endsWith p s = true <-> exists x, s = x ++ p.
Proof.
  unfold endsWith. rewrite prefix_iff. split.
  - intros [r H]. exists (revStr r).
    rewrite <- (revStr_involutive s), H, revStr_app, revStr_involutive. reflexivity.
  - intros [x ->]. exists (revStr x). apply revStr_app.
Qed.

(** The partition test of the source is the test on endings. *)
Lemma onPreferred_sharesEnding (preferredDomain e : string) :
  preferredDomain <> "" ->
  (onPreferred preferredDomain e = true <-> sharesEnding preferredDomain (domainPart e)).
Proof.
  intros Hp. rewrite onPreferred_suffix. unfold sharesEnding, domainPart.
  rewrite !endsWith_iff.
  assert (Hl : toLowerCase (afterAt e) <> "" <-> afterAt e <> "")
    by (destruct (afterAt e); simpl; split; congruence).
  rewrite Hl. tauto.
Qed.





Lemma onPreferred_iff (preferredDomain e : string) :
  onPreferred preferredDomain e = true <->
  preferredDomain <> "" /\ sharesEnding preferredDomain (domainPart e).
Proof.
  destruct (string_dec preferredDomain "") as [-> | Hp].
  - split; [discriminate | intros [H _]; contradiction].
  - rewrite (onPreferred_sharesEnding _ _ Hp). tauto.
Qed.

(** The pool is the preferred partition when it is not empty, and every
    address otherwise. *)
Lemma poolOf_members (emails : list string) (preferredDomain e : string) :
  In e (poolOf emails preferredDomain) <->
  In e (cleanEmails emails)
  /\ ((preferredDomain <> "" /\ sharesEnding preferredDomain (domainPart e))
      \/ forall e', In e' (cleanEmails emails) ->
                    ~ (preferredDomain <> "" /\ sharesEnding preferredDomain (domainPart e'))).
Proof.
  unfold poolOf.
  destruct (filter (onPreferred preferredDomain) (cleanEmails emails)) as [| p ps] eqn:Ef.
  - assert (Hnone : forall e', In e' (cleanEmails emails) ->
                      ~ (preferredDomain <> "" /\ sharesEnding preferredDomain (domainPart e'))).
    { intros e' Hin H. apply onPreferred_iff in H.
      assert (Hf : In e' (filter (onPreferred preferredDomain) (cleanEmails emails)))
        by (apply filter_In; split; assumption).
      rewrite Ef in Hf. contradiction. }
    split; [intros H; split; [exact H | right; exact Hnone] | intros [H _]; exact H].
  - rewrite <- Ef. rewrite filter_In. split.
    + intros [Hin Hon]. split; [exact Hin |]. left. apply onPreferred_iff, Hon.
    + intros [Hin [Hon | Hnone]].
      * split; [exact Hin | apply onPreferred_iff, Hon].
      * exfalso.
        assert (Hp : In p (filter (onPreferred preferredDomain) (cleanEmails emails)))
          by (rewrite Ef; left; reflexivity).
        apply filter_In in Hp. destruct Hp as [Hp1 Hp2].
        apply (Hnone p Hp1). apply onPreferred_iff, Hp2.
Qed.

(** ** The name normalizer *)

Lemma allChars_impl (P Q : ascii -> bool) (s : string) :
  (forall c, P c = true -> Q c = true) -> allChars P s = true -> allChars Q s = true.
Proof.
  intros Himp. induction s as [| c r IH]; simpl; [reflexivity |].
  intros H. apply andb_true_iff in H. destruct H as [Hc Hr].
  now rewrite (Himp _ Hc), (IH Hr).
Qed.

Lemma allChars_app (P : ascii -> bool) (a b : string) :
  allChars P (a ++ b) = allChars P a && allChars P b.
Proof.
  induction a as [| c r IH]; simpl; [reflexivity |].
  now rewrite IH, andb_assoc.
Qed.

Lemma lowerChar_not_upper (c : ascii) : isUpper (lowerChar c) = false.
Proof. destruct c as [[] [] [] [] [] [] [] []]; vm_compute; reflexivity. Qed.

Lemma toLowerCase_not_upper (s : string) :
  allChars (fun c => negb (isUpper c)) (toLowerCase s) = true.
Proof.
  induction s as [| c r IH]; simpl; [reflexivity |].
  now rewrite lowerChar_not_upper, IH.
Qed.

Lemma replaceRuns_cons (cls : ascii -> bool) (rep : string) (c : ascii) (r : string) :
  replaceRuns cls rep (String c r) =
  if cls c then
    if startsIn cls r then replaceRuns cls rep r else rep ++ replaceRuns cls rep r
  else String c (replaceRuns cls rep r).
Proof.
  destruct r as [| d r]; simpl; destruct (cls c); try reflexivity.
  now rewrite append_empty_r.
Qed.

Lemma replaceRuns_allChars (cls P : ascii -> bool) (rep s : string) :
  allChars P rep = true ->
  allChars (fun c => cls c || P c) s = true ->
  allChars P (replaceRuns cls rep s) = true.
Proof.
  intros Hrep. induction s as [| c r IH]; [reflexivity |].
  intros H. simpl in H. apply andb_true_iff in H. destruct H as [Hc Hr].
  rewrite replaceRuns_cons. destruct (cls c) eqn:Ec.
  - destruct (startsIn cls r); [apply IH, Hr |].
    rewrite allChars_app, Hrep, (IH Hr). reflexivity.
  - simpl in Hc. simpl. now rewrite Hc, (IH Hr).
Qed.

Lemma collapse_starts (s : string) :
  startsIn isSpace (replaceRuns isSpace " " s) = startsIn isSpace s.
Proof.
  induction s as [| c r IH]; [reflexivity |].
  rewrite replaceRuns_cons.
  change (startsIn isSpace (String c r)) with (isSpace c).
  destruct (isSpace c) eqn:Ec.
  - destruct (startsIn isSpace r) eqn:Er; [exact IH | reflexivity].
  - simpl. exact Ec.
Qed.

Lemma collapse_noDouble (s : string) :
  noDouble isSpace (replaceRuns isSpace " " s) = true.
Proof.
  induction s as [| c r IH]; [reflexivity |].
  rewrite replaceRuns_cons. destruct (isSpace c) eqn:Ec.
  - destruct (startsIn isSpace r) eqn:Er; [exact IH |].
    simpl append. cbn [noDouble]. rewrite collapse_starts, Er, IH. reflexivity.
  - cbn [noDouble]. rewrite Ec, IH. reflexivity.
Qed.

Lemma allChars_trimStart (P : ascii -> bool) (s : string) :
  allChars P s = true -> allChars P (trimStart s) = true.
Proof.
  induction s as [| c r IH]; simpl; [reflexivity |].
  intros H. destruct (isSpace c); [| exact H].
  apply andb_true_iff in H. apply IH, H.
Qed.

Lemma noDouble_trimStart (cls : ascii -> bool) (s : string) :
  noDouble cls s = true -> noDouble cls (trimStart s) = true.
Proof.
  induction s as [| c r IH]; simpl; [reflexivity |].
  intros H. destruct (isSpace c); [| exact H].
  apply andb_true_iff in H. apply IH, H.
Qed.

Lemma trimStart_starts (s : string) : startsIn isSpace (trimStart s) = false.
Proof.
  induction s as [| c r IH]; simpl; [reflexivity |].
  destruct (isSpace c) eqn:Ec; [exact IH | exact Ec].
Qed.

Lemma allChars_trimEnd (P : ascii -> bool) (s : string) :
  allChars P s = true -> allChars P (trimEnd s) = true.
Proof.
  induction s as [| c r IH]; simpl; [reflexivity |].
  intros H. apply andb_true_iff in H. destruct H as [Hc Hr].
  destruct (isSpace c && isEmpty (trimEnd r)); [reflexivity |].
  simpl. now rewrite Hc, (IH Hr).
Qed.

Lemma trimEnd_starts (cls : ascii -> bool) (s : string) :
  startsIn cls s = false -> startsIn cls (trimEnd s) = false.
Proof.
  destruct s as [| c r]; simpl; [reflexivity |].
  intros H. destruct (isSpace c && isEmpty (trimEnd r)); [reflexivity | exact H].
Qed.

Lemma noDouble_trimEnd (cls : ascii -> bool) (s : string) :
  noDouble cls s = true -> noDouble cls (trimEnd s) = true.
Proof.
  induction s as [| c r IH]; simpl; [reflexivity |].
  intros H. apply andb_true_iff in H. destruct H as [Hc Hr].
  destruct (isSpace c && isEmpty (trimEnd r)); [reflexivity |].
  cbn [noDouble]. rewrite (IH Hr), andb_true_r.
  destruct (cls c); [| reflexivity].
  simpl in Hc. apply negb_true_iff in Hc.
  simpl. now rewrite (trimEnd_starts cls r Hc).
Qed.

Lemma trimEnd_ends (s : string) : endsIn isSpace (trimEnd s) = false.
Proof.
  induction s as [| c r IH]; simpl; [reflexivity |].
  destruct (isSpace c) eqn:Ec; simpl.
  - destruct (isEmpty (trimEnd r)) eqn:Er; [reflexivity |].
    simpl. rewrite Er. exact IH.
  - destruct (isEmpty (trimEnd r)) eqn:Er; [exact Ec | exact IH].
Qed.

Section Finer.
Variables cls cls' : ascii -> bool.
Hypothesis finer : forall c, cls' c = true -> cls c = true.

Lemma startsIn_finer (s : string) : startsIn cls s = false -> startsIn cls' s = false.
Proof.
  destruct s as [| c r]; simpl; [reflexivity |].
  intros H. destruct (cls' c) eqn:E; [| reflexivity].
  rewrite (finer _ E) in H. discriminate.
Qed.

Lemma endsIn_finer (s : string) : endsIn cls s = false -> endsIn cls' s = false.
Proof.
  induction s as [| c r IH]; simpl; [reflexivity |].
  destruct (isEmpty r); [| exact IH].
  intros H. destruct (cls' c) eqn:E; [| reflexivity].
  rewrite (finer _ E) in H. discriminate.
Qed.

Lemma noDouble_finer (s : string) : noDouble cls s = true -> noDouble cls' s = true.
Proof.
  induction s as [| c r IH]; simpl; [reflexivity |].
  intros H. apply andb_true_iff in H. destruct H as [Hc Hr].
  rewrite (IH Hr), andb_true_r.
  destruct (cls' c) eqn:E; [| reflexivity].
  rewrite (finer _ E) in Hc. simpl in Hc. apply negb_true_iff in Hc.
  simpl. now rewrite (startsIn_finer r Hc).
Qed.
End Finer.

Section Split.
Variable sep : ascii.

Lemma split_cons (c : ascii) (r : string) :
  split sep (String c r) =
  if isSep sep c then EmptyString :: split sep r
  else String c (hd EmptyString (split sep r)) :: tl (split sep r).
Proof.
  unfold isSep. simpl. destruct (Ascii.eqb c sep); [reflexivity |].
  destruct (split sep r) eqn:E; [| reflexivity].
  exfalso. clear -E. destruct r as [| d r]; simpl in E; [discriminate |].
  destruct (Ascii.eqb d sep); [discriminate |].
  destruct (split sep r); discriminate.
Qed.

Lemma split_hd_tl (s : string) :
  split sep s = hd EmptyString (split sep s) :: tl (split sep s).
Proof.
  destruct s as [| c r]; [reflexivity |].
  rewrite split_cons. destruct (isSep sep c); reflexivity.
Qed.

Lemma split_allChars (P : ascii -> bool) (s : string) :
  allChars P s = true -> Forall (fun t => allChars P t = true) (split sep s).
Proof.
  induction s as [| c r IH]; intros H.
  - repeat constructor.
  - simpl in H. apply andb_true_iff in H. destruct H as [Hc Hr].
    specialize (IH Hr). rewrite split_cons.
    destruct (isSep sep c).
    + constructor; [reflexivity | exact IH].
    + rewrite split_hd_tl in IH. inversion IH as [| ? ? Hh Ht]; subst.
      constructor; [| exact Ht]. simpl. now rewrite Hc, Hh.
Qed.

Lemma split_sepFree (s : string) :
  Forall (fun t => sepFree sep t = true) (split sep s).
Proof.
  induction s as [| c r IH].
  - repeat constructor.
  - rewrite split_cons. destruct (isSep sep c) eqn:Ec.
    + constructor; [reflexivity | exact IH].
    + rewrite split_hd_tl in IH. inversion IH as [| ? ? Hh Ht]; subst.
      constructor; [| exact Ht]. unfold sepFree in *. simpl. now rewrite Ec, Hh.
Qed.

Lemma split_one (t : string) : sepFree sep t = true -> split sep t = [t].
Proof.
  unfold sepFree. induction t as [| c r IH]; intros H; [reflexivity |].
  simpl in H. apply andb_true_iff in H. destruct H as [Hc Hr].
  apply negb_true_iff in Hc.
  rewrite split_cons, Hc, (IH Hr). reflexivity.
Qed.

Lemma split_app_sep (t rest : string) :
  sepFree sep t = true -> split sep (t ++ String sep rest) = t :: split sep rest.
Proof.
  unfold sepFree. induction t as [| c r IH]; intros H.
  - simpl append. rewrite split_cons. unfold isSep. now rewrite Ascii.eqb_refl.
  - simpl in H. apply andb_true_iff in H. destruct H as [Hc Hr].
    apply negb_true_iff in Hc.
    simpl append. rewrite split_cons, Hc, (IH Hr). reflexivity.
Qed.

Lemma split_join (ts : list string) :
  ts <> [] -> Forall (fun t => sepFree sep t = true) ts ->
  split sep (join (String sep EmptyString) ts) = ts.
Proof.
  unfold join. induction ts as [| x r IH]; intros Hne Hall; [congruence |].
  inversion Hall as [| ? ? Hx Hr]; subst.
  destruct r as [| y r].
  - simpl. apply split_one, Hx.
  - change (String.concat (String sep "") (x :: y :: r))
      with (x ++ String sep (String.concat (String sep "") (y :: r))).
    rewrite (split_app_sep _ _ Hx), IH; [reflexivity | discriminate | exact Hr].
Qed.

(** In a string without two adjacent separators that does not end in
    one, every piece but the first is non-empty, and so is the first
    unless the string is empty or begins with a separator. *)
Lemma split_pieces (s : string) :
  noDouble (isSep sep) s = true -> endsIn (isSep sep) s = false ->
  Forall (fun t => truthy t = true) (tl (split sep s))
  /\ (startsIn (isSep sep) s = false -> s <> "" ->
      truthy (hd EmptyString (split sep s)) = true).
Proof.
  induction s as [| c r IH]; intros Hd He.
  - split; [constructor | congruence].
  - cbn [noDouble] in Hd. apply andb_true_iff in Hd. destruct Hd as [Hc Hr].
    simpl in He.
    assert (Her : endsIn (isSep sep) r = false).
    { destruct r; [reflexivity | exact He]. }
    destruct (IH Hr Her) as [IHt IHh].
    rewrite split_cons. destruct (isSep sep c) eqn:Ec.
    + split; [| simpl; congruence].
      simpl tl. rewrite split_hd_tl. constructor; [| exact IHt].
      simpl in Hc. apply negb_true_iff in Hc.
      apply IHh; [exact Hc |].
      intros ->. simpl in He. congruence.
    + split; [exact IHt | reflexivity].
Qed.
End Split.

Lemma inArray_In (x : string) (l : list string) : inArray x l = true <-> In x l.
Proof.
  unfold inArray. rewrite existsb_exists. split.
  - intros [y [Hy E]]. apply String.eqb_eq in E. now subst.
  - intros H. exists x. split; [exact H | apply String.eqb_refl].
Qed.

Lemma allChars_join (P : ascii -> bool) (sep : string) (ts : list string) :
  allChars P sep = true -> Forall (fun t => allChars P t = true) ts ->
  allChars P (join sep ts) = true.
Proof.
  intros Hsep. unfold join. induction 1 as [| x r Hx Hr IH]; [reflexivity |].
  destruct r as [| y r]; [exact Hx |].
  change (String.concat sep (x :: y :: r)) with (x ++ sep ++ String.concat sep (y :: r)).
  now rewrite !allChars_app, Hx, Hsep, IH.
Qed.

Lemma Forall_filter {A : Type} (P : A -> Prop) (f : A -> bool) (l : list A) :
  Forall P l -> Forall P (filter f l).
Proof.
  intros H. apply Forall_forall. intros x Hx. apply filter_In in Hx.
  rewrite Forall_forall in H. apply H, Hx.
Qed.

Lemma tidied_kept (raw : string) : allChars isKept (tidied raw) = true.
Proof.
  unfold tidied, trim.
  apply allChars_trimEnd, allChars_trimStart.
  apply replaceRuns_allChars; [reflexivity |].
  apply allChars_impl with (P := fun c => negb (isStripped c) && negb (isUpper c)).
  { intros c H. unfold isKept. rewrite H. simpl. destruct (isSpace c); reflexivity. }
  apply replaceRuns_allChars; [reflexivity |].
  apply allChars_impl with (P := fun c => negb (isUpper c)).
  { intros c H. rewrite H. destruct (isStripped c); reflexivity. }
  apply toLowerCase_not_upper.
Qed.

Lemma space_isSpace (c : ascii) : isSep " " c = true -> isSpace c = true.
Proof. unfold isSep. intros H. apply Ascii.eqb_eq in H. now subst. Qed.

Lemma tidied_pieces (raw : string) :
  tidied raw <> "" ->
  Forall (fun t => truthy t = true) (split " " (tidied raw)).
Proof.
  intros Hne.
  assert (Hd : noDouble (isSep " ") (tidied raw) = true).
  { apply (noDouble_finer isSpace _ space_isSpace).
    unfold tidied, trim. apply noDouble_trimEnd, noDouble_trimStart, collapse_noDouble. }
  assert (He : endsIn (isSep " ") (tidied raw) = false).
  { apply (endsIn_finer isSpace _ space_isSpace). unfold tidied, trim. apply trimEnd_ends. }
  assert (Hs : startsIn (isSep " ") (tidied raw) = false).
  { apply (startsIn_finer isSpace _ space_isSpace).
    unfold tidied, trim. apply trimEnd_starts, trimStart_starts. }
  destruct (split_pieces " " _ Hd He) as [Ht Hh].
  rewrite split_hd_tl. constructor; [apply Hh; assumption | exact Ht].
Qed.

(** C6. Not only letters, digits, hyphens and spaces are left of a name.
    A semicolon is one of the characters that the list of [cleanName]
    misses, while [tokenizeCompany] replaces whatever is no letter, digit,
    white space or hyphen. *)
Lemma cleanName_keeps_semicolon :
  cleanName "acme;widgets" = "acme;widgets"
  /\ tokenizeCompany "acme;widgets" = ["acme"; "widgets"]
  /\ ~ (forall raw, allChars (fun c => isLetter c || isNumber c
                                       || Ascii.eqb c "-" || Ascii.eqb c " ")
                      (cleanName raw) = true).
Proof.
  split; [reflexivity |]. split; [vm_compute; reflexivity |].
  intros H. specialize (H "acme;widgets"). vm_compute in H. discriminate.
Qed.

(** What the normalizer does achieve.  No word of the normalized name, the
    words being what the spaces separate, is in the stop list; no unit of
    it is one of the punctuation characters the normalizer strips, a letter
    from A to Z, or white space other than the plain space; and its spaces
    are single: it is empty or every word is non-empty. *)
Lemma cleanName_normalized (raw : string) :
  let out := cleanName raw in
  Forall (fun t => ~ In t dropWords) (split " " out)
  /\ allChars (fun c => negb (isStripped c)) out = true
  /\ allChars (fun c => negb (isUpper c)) out = true
  /\ allChars (fun c => negb (isSpace c) || Ascii.eqb c " ") out = true
  /\ (out = "" \/ Forall (fun t => t <> "") (split " " out)).
Proof.
  intros out.
  set (keep := fun t => negb (inArray t dropWords)).
  set (fs := filter keep (split " " (tidied raw))).
  assert (Eout : out = join " " fs) by reflexivity.
  assert (Hfree : Forall (fun t => sepFree " " t = true) fs)
    by (apply Forall_filter, split_sepFree).
  assert (Hkept : allChars isKept out = true).
  { rewrite Eout. apply allChars_join; [reflexivity |].
    apply Forall_filter, split_allChars, tidied_kept. }
  assert (Hdrop : Forall (fun t => ~ In t dropWords) fs).
  { apply Forall_forall. intros t Ht. apply filter_In in Ht. destruct Ht as [_ Hk].
    unfold keep in Hk. apply negb_true_iff in Hk.
    intros HIn. apply inArray_In in HIn. congruence. }
  assert (Hsplit : fs <> [] -> split " " out = fs).
  { intros Hne. rewrite Eout. apply (split_join " " fs Hne Hfree). }
  split; [| split; [| split; [| split]]].
  - destruct fs as [| f0 fr] eqn:Efs.
    + rewrite Eout. change (split " " (join " " [])) with [""].
      constructor; [| constructor].
      intros HIn. apply (proj2 (inArray_In _ _)) in HIn.
      vm_compute in HIn. discriminate.
    + rewrite Hsplit by discriminate. exact Hdrop.
  - revert Hkept. apply allChars_impl. unfold isKept. intros c H.
    apply andb_true_iff in H. destruct H as [H _].
    apply andb_true_iff in H. apply H.
  - revert Hkept. apply allChars_impl. unfold isKept. intros c H.
    apply andb_true_iff in H. destruct H as [H _].
    apply andb_true_iff in H. apply H.
  - revert Hkept. apply allChars_impl. unfold isKept. intros c H.
    apply andb_true_iff in H. apply H.
  - destruct (string_dec (tidied raw) "") as [Et | Et].
    + left. rewrite Eout. unfold fs. rewrite Et. reflexivity.
    + destruct fs as [| f0 fr] eqn:Efs; [left; rewrite Eout; reflexivity |].
      right. rewrite Hsplit by discriminate. rewrite <- Efs.
      apply Forall_filter.
      eapply Forall_impl; [| apply (tidied_pieces raw Et)].
      intros t Ht. apply truthy_true_iff, Ht.
Qed.

(** ** What is accepted as a contact *)

(** C1. Not every email written to the patch passed the email pattern.
    The value of a data-email attribute is written although no part of it
    matches: the pattern is applied to the text of the page only, while
    every phone, whatever its origin, goes through the plausibility
    filter. *)
Lemma scraped_email_unchecked :
  processRecord obfuscated acmeWithDomain =
    Some [("Domain", "acme.com"); ("Email", "info [at] acme.co.uk");
          ("Enrichment Status", "OK");
          ("Last Enriched At", "2024-01-01T00:00:00.000Z")]
  /\ emailReTest "info [at] acme.co.uk" = false
  /\ ~ contactsPlausible obfuscated acmeWithDomain.
Proof.
  assert (E : processRecord obfuscated acmeWithDomain =
              Some [("Domain", "acme.com"); ("Email", "info [at] acme.co.uk");
                    ("Enrichment Status", "OK");
                    ("Last Enriched At", "2024-01-01T00:00:00.000Z")])
    by (vm_compute; reflexivity).
  split; [exact E |]. split; [vm_compute; reflexivity |].
  intros H. destruct (H _ E) as [_ Hem].
  specialize (Hem eq_refl "info [at] acme.co.uk" eq_refl).
  vm_compute in Hem. discriminate.
Qed.

Lemma pickBestPhone_plausible (phones : list string) :
  pickBestPhone phones = ""
  \/ (isLikelyPhone (pickBestPhone phones) = true
      /\ In (pickBestPhone phones) (map normalizePhone phones)).
Proof.
  unfold pickBestPhone.
  destruct (filter isLikelyPhone (map normalizePhone phones)) as [| a arr] eqn:E;
    [left; reflexivity |].
  right. rewrite <- E.
  destruct (ranking_winner phoneScore (filter isLikelyPhone (map normalizePhone phones)))
    as [n [r [Es [Hin _]]]]; [rewrite E; discriminate |].
  rewrite Es. apply filter_In in Hin. destruct Hin as [Hin Hl]. split; assumption.
Qed.

Lemma pickBestEmail_member (emails : list string) (preferredDomain : string) :
  pickBestEmail emails preferredDomain = ""
  \/ (pickBestEmail emails preferredDomain <> ""
      /\ In (pickBestEmail emails preferredDomain) (map trim emails)).
Proof.
  destruct (cleanEmails emails) as [| a arr] eqn:E.
  - left. unfold pickBestEmail. rewrite E. reflexivity.
  - right.
    destruct (pickBestEmail_pool emails preferredDomain) as [Hin _];
      [rewrite E; discriminate |].
    assert (Hc : In (pickBestEmail emails preferredDomain) (cleanEmails emails)).
    { unfold poolOf in Hin.
      destruct (filter (onPreferred preferredDomain) (cleanEmails emails)) eqn:Ep;
        [exact Hin |].
      rewrite <- Ep in Hin. apply filter_In in Hin. apply Hin. }
    unfold cleanEmails in Hc. apply filter_In in Hc. destruct Hc as [Hm Ht].
    split; [apply truthy_true_iff, Ht | exact Hm].
Qed.

Lemma processRecord_patch (w : World) (rec : Rec) (p : Patch) :
  processRecord w rec = Some p ->
  exists dom, resolveDomain w rec = Some dom /\ p = patchOf w (enrichWith w rec dom).
Proof.
  unfold processRecord, enrich.
  destruct (resolveDomain w rec) as [dom |]; simpl; [| discriminate].
  intros H. inversion H. exists dom. split; reflexivity.
Qed.

Lemma patchOf_domain (w : World) (e : Enriched) :
  patchGet AIRTABLE_DOMAIN_FIELD (patchOf w e)
  = (if truthy (eDomain e) then Some (eDomain e) else None).
Proof.
  unfold patchOf, setIf.
  destruct (truthy (eDomain e)), (truthy (eEmail e)), (truthy (ePhone e)),
    (truthy (eIndustry e)); reflexivity.
Qed.

(** The contacts of a record whose fields were blank come from the crawl
    of its domain. *)
Lemma enrichWith_blank (w : World) (rec : Rec) (dom : string) :
  let e := enrichWith w rec dom in
  eDomain e = dom
  /\ (fPhone rec = "" -> ePhone e <> "" ->
      dom <> "" /\ ePhone e = pickBestPhone (foundPhones (crawl w dom)))
  /\ (fEmail rec = "" -> eEmail e <> "" ->
      dom <> "" /\ eEmail e = pickBestEmail (foundEmails (crawl w dom)) dom).
Proof.
  unfold enrichWith.
  destruct (truthy dom) eqn:Ed; simpl andb.
  - apply truthy_true_iff in Ed.
    destruct (isEmpty (fEmail rec) || isEmpty (fPhone rec)) eqn:Eb; simpl.
    + split; [reflexivity |]. split.
      * intros Hp Hne. rewrite Hp in *. simpl in *.
        destruct (truthy (pickBestPhone (foundPhones (crawl w dom))));
          [split; [exact Ed | reflexivity] | congruence].
      * intros Hm Hne. rewrite Hm in *. simpl in *.
        destruct (truthy (pickBestEmail (foundEmails (crawl w dom)) dom));
          [split; [exact Ed | reflexivity] | congruence].
    + split; [reflexivity |]. split; intros H Hne; congruence.
  - simpl. split; [reflexivity |]. split; intros H Hne; congruence.
Qed.

Lemma processRecord_total (w : World) (rec : Rec) :
  exists p, processRecord w rec = Some p.
Proof.
  unfold processRecord, enrich, resolveDomain.
  destruct (isEmpty (fDomain rec)); [| eexists; reflexivity].
  destruct (bestDomainFor_pick w (fCompany rec) (fCountry rec)) as [sel [E _]].
  rewrite E. eexists; reflexivity.
Qed.

(** What is checked of a scraped contact.  A phone scraped into a blank
    field is the normalized form of a phone signal of the crawl and passes
    the plausibility filter; of an email scraped into a blank field the
    ranker only knows that it is a trimmed, non-blank email signal of the
    crawl. *)
Lemma accepted_contacts (w : World) (rec : Rec) :
  exists p,
    processRecord w rec = Some p
    /\ (fPhone rec = "" ->
        forall ph, patchGet AIRTABLE_PHONE_FIELD p = Some ph ->
          isLikelyPhone ph = true
          /\ exists dom, patchGet AIRTABLE_DOMAIN_FIELD p = Some dom
                         /\ In ph (map normalizePhone (foundPhones (crawl w dom))))
    /\ (fEmail rec = "" ->
        forall em, patchGet AIRTABLE_EMAIL_FIELD p = Some em ->
          em <> ""
          /\ exists dom, patchGet AIRTABLE_DOMAIN_FIELD p = Some dom
                         /\ In em (map trim (foundEmails (crawl w dom)))).
Proof.
  destruct (processRecord_total w rec) as [p Hp].
  exists p. split; [exact Hp |].
  destruct (processRecord_patch w rec p Hp) as [dom [_ ->]].
  destruct (enrichWith_blank w rec dom) as [Hd [Hph Hem]].
  destruct (patchOf_contacts w (enrichWith w rec dom)) as [Gem Gph].
  pose proof (patchOf_domain w (enrichWith w rec dom)) as Gd.
  rewrite Hd in Gd.
  split.
  - intros Hblank ph Hget. rewrite Gph in Hget.
    destruct (truthy (ePhone (enrichWith w rec dom))) eqn:Et; [| discriminate].
    inversion Hget; subst ph; clear Hget.
    apply truthy_true_iff in Et.
    destruct (Hph Hblank Et) as [Hdom Eph].
    apply truthy_true_iff in Hdom. rewrite Hdom in Gd.
    rewrite Eph in *.
    destruct (pickBestPhone_plausible (foundPhones (crawl w dom))) as [E | [Hl Hin]];
      [congruence |].
    split; [exact Hl |]. exists dom. split; assumption.
  - intros Hblank em Hget. rewrite Gem in Hget.
    destruct (truthy (eEmail (enrichWith w rec dom))) eqn:Et; [| discriminate].
    inversion Hget; subst em; clear Hget.
    apply truthy_true_iff in Et.
    destruct (Hem Hblank Et) as [Hdom Eem].
    apply truthy_true_iff in Hdom. rewrite Hdom in Gd.
    rewrite Eem in *.
    destruct (pickBestEmail_member (foundEmails (crawl w dom)) dom) as [E | [Hne Hin]];
      [congruence |].
    split; [exact Hne |]. exists dom. split; assumption.
Qed.


(** * Further properties *)

(** ** Ranking: the first of the best wins *)

Section SortFirst.
Context {A : Type} (after : A -> A -> bool).
Hypothesis after_asym : forall x y, after x y = true -> after y x = false.
Hypothesis after_trans :
  forall x y z, after x y = false -> after y z = false -> after x z = false.

(** The head of the sorted array is the first element that none beats:
    the elements before it in the array are beaten by it. *)
Lemma sort_head_first (l : list A) (x : A) (r : list A) :
  sort after l = x :: r ->
  exists l1 l2, l = (l1 ++ x :: l2)%list
                /\ (forall y, In y l1 -> after y x = true)
                /\ (forall y, In y l2 -> after x y = false).
Proof.
  revert x r. induction l as [| a l IH]; intros x r E; [discriminate |].
  simpl in E.
  destruct (sort after l) as [| x' r'] eqn:Es.
  - assert (l = []) by (apply Permutation_nil; rewrite <- Es; apply sort_perm).
    subst l. simpl in E. inversion E; subst.
    exists [], []. repeat split; intros y [].
  - destruct (IH x' r' eq_refl) as [l1 [l2 [El [H1 H2]]]].
    simpl in E. destruct (after a x') eqn:Ea; inversion E; subst.
    + exists (a :: l1), l2. split; [reflexivity |]. split; [| exact H2].
      intros y [<- | Hy]; [exact Ea | apply H1, Hy].
    + exists [], (l1 ++ x' :: l2)%list. split; [reflexivity |]. split; [intros y [] |].
      intros y Hy.
      destruct (sort_head after after_asym after_trans _ _ _ Es) as [_ Hmax].
      apply after_trans with x'; [exact Ea | apply Hmax, Hy].
Qed.

(** A sorted array is left as it is. *)
Lemma sort_sorted_id (l : list A) :
  StronglySorted (notAfter after) l -> sort after l = l.
Proof.
  induction 1 as [| x r Hr IH Hx]; [reflexivity |].
  simpl. rewrite IH. destruct r as [| y r]; [reflexivity |].
  simpl. inversion Hx as [| ? ? Hy _]; subst. unfold notAfter in Hy. now rewrite Hy.
Qed.
End SortFirst.

Lemma map_eq_middle {A B : Type} (f : A -> B) (l : list A) (m1 : list B) (y : B)
    (m2 : list B) :
  map f l = (m1 ++ y :: m2)%list ->
  exists l1 x l2, l = (l1 ++ x :: l2)%list /\ map f l1 = m1 /\ f x = y /\ map f l2 = m2.
Proof.
  revert m1. induction l as [| a l IH]; intros m1 E.
  - destruct m1; discriminate.
  - destruct m1 as [| b m1]; simpl in E; inversion E; subst.
    + exists [], a, l. repeat split.
    + destruct (IH m1 H1) as [l1 [x [l2 [-> [<- [<- <-]]]]]].
      exists (a :: l1), x, l2. repeat split.
Qed.

(** The winner of a ranking is the first of the best of the pool. *)
Lemma ranking_first (f : string -> Q) (pool : list string) :
  pool <> [] ->
  exists e r, sort scoredAfter (map (fun x => (x, f x)) pool) = (e, f e) :: r
              /\ firstBest f pool e.
Proof.
  intros Hne.
  destruct (ranking_winner f pool Hne) as [e [r [Es _]]].
  exists e, r. split; [exact Es |].
  destruct (sort_head_first scoredAfter scoredAfter_asym scoredAfter_trans _ _ _ Es)
    as [m1 [m2 [Em [H1 H2]]]].
  destruct (map_eq_middle _ _ _ _ _ Em) as [l1 [x [l2 [El [E1 [Ex E2]]]]]].
  inversion Ex; subst x. clear Ex.
  exists l1, l2. split; [exact El |]. split.
  - intros y Hy.
    assert (Hm : In (y, f y) m1) by (rewrite <- E1; apply (in_map (fun x => (x, f x))), Hy).
    specialize (H1 _ Hm). unfold scoredAfter in H1; simpl in H1.
    apply negb_true_iff in H1. apply Qnot_le_lt. intros C.
    apply Qle_bool_iff in C. congruence.
  - intros y Hy.
    assert (Hm : In (y, f y) m2) by (rewrite <- E2; apply (in_map (fun x => (x, f x))), Hy).
    specialize (H2 _ Hm). unfold scoredAfter in H2; simpl in H2.
    apply negb_false_iff in H2. apply Qle_bool_iff, H2.
Qed.

Lemma pickBestEmail_sorted (emails : list string) (preferredDomain e : string)
    (r : list (string * Q)) :
  cleanEmails emails <> [] ->
  sort scoredAfter (map (fun x => (x, emailScore x)) (poolOf emails preferredDomain))
  = (e, emailScore e) :: r ->
  pickBestEmail emails preferredDomain = e.
Proof.
  intros Hne Es. unfold pickBestEmail. unfold poolOf in Es.
  destruct (cleanEmails emails) as [| a0 arr0] eqn:Earr; [congruence |].
  destruct (filter (onPreferred preferredDomain) (a0 :: arr0)) as [| p ps] eqn:Ep.
  - rewrite (filter_negb_all _ _ Ep), Es. reflexivity.
  - rewrite Es. reflexivity.
Qed.

Lemma poolOf_nonempty (emails : list string) (preferredDomain : string) :
  cleanEmails emails <> [] -> poolOf emails preferredDomain <> [].
Proof.
  intros Hne. unfold poolOf.
  destruct (filter (onPreferred preferredDomain) (cleanEmails emails));
    [exact Hne | discriminate].
Qed.

Lemma pickBestEmail_first_of_pool (emails : list string) (preferredDomain : string) :
  (pickBestEmail emails preferredDomain = "" <->
   Forall (fun e => trim e = "") emails)
  /\ (pickBestEmail emails preferredDomain <> "" ->
      firstBest emailScore (poolOf emails preferredDomain)
        (pickBestEmail emails preferredDomain)).
Proof.
  assert (Hblank : cleanEmails emails = [] <-> Forall (fun e => trim e = "") emails).
  { unfold cleanEmails. induction emails as [| a l IH]; simpl.
    - split; [constructor | reflexivity].
    - destruct (truthy (trim a)) eqn:Et.
      + split; [discriminate |]. intros H. inversion H; subst.
        apply truthy_true_iff in Et. contradiction.
      + apply truthy_empty_iff in Et. rewrite IH. split.
        * intros H. constructor; assumption.
        * intros H. inversion H; assumption. }
  destruct (cleanEmails emails) as [| a arr] eqn:E.
  - assert (Ep : pickBestEmail emails preferredDomain = "")
      by (unfold pickBestEmail; rewrite E; reflexivity).
    split; [| congruence].
    split; [intros _; apply Hblank; reflexivity | intros _; exact Ep].
  - assert (Hne : cleanEmails emails <> []) by (rewrite E; discriminate).
    destruct (ranking_first emailScore _ (poolOf_nonempty emails preferredDomain Hne))
      as [e [r [Es Hfb]]].
    rewrite (pickBestEmail_sorted _ _ _ _ Hne Es).
    assert (Hin : In e (cleanEmails emails)).
    { destruct Hfb as [l1 [l2 [El _]]].
      assert (Hp : In e (poolOf emails preferredDomain))
        by (rewrite El; apply in_or_app; right; left; reflexivity).
      unfold poolOf in Hp.
      destruct (filter (onPreferred preferredDomain) (cleanEmails emails)) eqn:Ef;
        [exact Hp |].
      rewrite <- Ef in Hp. apply filter_In in Hp. apply Hp. }
    assert (He : e <> "").
    { unfold cleanEmails in Hin. apply filter_In in Hin.
      apply truthy_true_iff, Hin. }
    split; [| intros _; exact Hfb].
    split; [intros C; contradiction |].
    intros HF. apply Hblank in HF. discriminate HF.
Qed.

(** X1. [pickBestEmail] returns the empty string exactly when every
    candidate is blank once trimmed; otherwise it returns the first of the
    best-scored addresses of the pool it ranks, so that ties go to the
    address met first.  The pool holds the trimmed, non-blank addresses
    whose domain part ends with the preferred domain, or that the preferred
    domain ends with, when there is a preferred domain and such an address;
    it holds every trimmed, non-blank address otherwise. *)
Theorem pickBestEmail_first_best (emails : list string) (preferredDomain : string) :
  (pickBestEmail emails preferredDomain = "" <->
   Forall (fun e => trim e = "") emails)
  /\ (pickBestEmail emails preferredDomain <> "" ->
      firstBest emailScore (poolOf emails preferredDomain)
        (pickBestEmail emails preferredDomain))
  /\ (forall e,
        In e (poolOf emails preferredDomain) <->
        In e (cleanEmails emails)
        /\ ((preferredDomain <> "" /\ sharesEnding preferredDomain (domainPart e))
            \/ forall e', In e' (cleanEmails emails) ->
                          ~ (preferredDomain <> ""
                             /\ sharesEnding preferredDomain (domainPart e')))).
Proof.
  destruct (pickBestEmail_first_of_pool emails preferredDomain) as [Hempty Hfirst].
  split; [exact Hempty |]. split; [exact Hfirst |].
  intros e. apply poolOf_members.
Qed.

(** X2. [pickBestPhone] returns the empty string exactly when no candidate
    normalizes to a plausible phone; otherwise it returns the first of the
    best-scored plausible phones, so that ties go to the phone met first. *)
Theorem pickBestPhone_first_best (phones : list string) :
  (pickBestPhone phones = "" <->
   Forall (fun p => isLikelyPhone (normalizePhone p) = false) phones)
  /\ (pickBestPhone phones <> "" ->
      firstBest phoneScore (phonePool phones) (pickBestPhone phones)).
Proof.
  assert (Hnone : phonePool phones = [] <->
                  Forall (fun p => isLikelyPhone (normalizePhone p) = false) phones).
  { unfold phonePool. induction phones as [| a l IH]; simpl.
    - split; [constructor | reflexivity].
    - destruct (isLikelyPhone (normalizePhone a)) eqn:Et.
      + split; [discriminate |]. intros H. inversion H; subst. congruence.
      + rewrite IH. split.
        * intros H. constructor; assumption.
        * intros H. inversion H; assumption. }
  unfold pickBestPhone. fold (phonePool phones).
  destruct (phonePool phones) as [| a arr] eqn:E.
  - split; [| congruence].
    split; [intros _; apply Hnone; reflexivity | reflexivity].
  - rewrite <- E.
    destruct (ranking_first phoneScore (phonePool phones)) as [e [r [Es Hfb]]];
      [rewrite E; discriminate |].
    rewrite Es.
    assert (He : e <> "").
    { destruct Hfb as [l1 [l2 [El _]]].
      assert (Hp : In e (phonePool phones))
        by (rewrite El; apply in_or_app; right; left; reflexivity).
      unfold phonePool in Hp. apply filter_In in Hp. destruct Hp as [_ Hl].
      intros ->. discriminate Hl. }
    split; [| intros _; exact Hfb].
    split; [intros C; contradiction |].
    intros HF. apply Hnone in HF. discriminate HF.
Qed.

(** ** Phones *)

Lemma isUkShape_likely (n : string) : isUkShape n = true -> isLikelyPhone n = true.
Proof.
  unfold isUkShape. intros H. apply andb_true_iff in H. destruct H as [Hp H].
  unfold startsWith in Hp.
  destruct n as [| a n]; [discriminate Hp |]. apply prefix_cons in Hp. destruct Hp as [<- Hp].
  destruct n as [| b n]; [discriminate Hp |]. apply prefix_cons in Hp. destruct Hp as [<- Hp].
  destruct n as [| c n]; [discriminate Hp |]. apply prefix_cons in Hp. destruct Hp as [<- _].
  simpl sliceFrom in H.
  apply andb_true_iff in H. destruct H as [H H11].
  apply andb_true_iff in H. destruct H as [Hd H9].
  apply Z.leb_le in H9, H11.
  unfold isLikelyPhone. simpl Ascii.eqb. cbv iota.
  simpl allChars. rewrite Hd. simpl andb.
  unfold len in *. simpl String.length.
  apply andb_true_iff. split; apply Z.leb_le; lia.
Qed.

Lemma phoneScore_uk (n : string) :
  (isUkShape n = true -> (2 <= phoneScore n)%Q)
  /\ (isUkShape n = false -> (phoneScore n <= 1 # 2)%Q).
Proof.
  unfold phoneScore.
  destruct (isUkShape n); destruct ((11 <=? len n)%Z && (len n <=? 13)%Z);
    split; intros H; try discriminate H; unfold Qle; simpl; lia.
Qed.

(** X3. The UK bias decides: when some candidate normalizes to +44 and 9
    to 11 digits, the phone picked has that shape. *)
Theorem pickBestPhone_uk_bias (phones : list string)
    (Huk : exists p, In p phones /\ isUkShape (normalizePhone p) = true) :
  isUkShape (pickBestPhone phones) = true.
Proof.
  destruct Huk as [p [Hin Hp]].
  assert (Hpool : In (normalizePhone p) (phonePool phones)).
  { unfold phonePool. apply filter_In. split; [apply in_map, Hin | apply isUkShape_likely, Hp]. }
  destruct (ranking_winner phoneScore (phonePool phones)) as [e [r [Es [_ Hmax]]]].
  { intros E. rewrite E in Hpool. contradiction. }
  assert (Epick : pickBestPhone phones = e).
  { unfold pickBestPhone. fold (phonePool phones).
    destruct (phonePool phones) eqn:E; [contradiction |].
    rewrite <- E in Es |- *. rewrite Es. reflexivity. }
  rewrite Epick.
  destruct (isUkShape e) eqn:Ee; [reflexivity |].
  exfalso.
  pose proof (proj1 (phoneScore_uk _) Hp) as H2.
  pose proof (proj2 (phoneScore_uk _) Ee) as H1.
  pose proof (Hmax _ Hpool) as Hle.
  assert (C : (2 <= 1 # 2)%Q)
    by (eapply Qle_trans; [exact H2 | eapply Qle_trans; [exact Hle | exact H1]]).
  unfold Qle in C. simpl in C. lia.
Qed.

Lemma pickBestPhone_uk_bias_witness :
  (exists p, In p ["020 7946 0958"; "+44 20 7946 0958"]
             /\ isUkShape (normalizePhone p) = true)
  /\ isUkShape (pickBestPhone ["020 7946 0958"; "+44 20 7946 0958"]) = true.
Proof.
  assert (H : exists p, In p ["020 7946 0958"; "+44 20 7946 0958"]
                        /\ isUkShape (normalizePhone p) = true).
  { exists "+44 20 7946 0958". split; [right; left; reflexivity | reflexivity]. }
  split; [exact H |].
  exact (pickBestPhone_uk_bias _ H).
Defined.

Lemma digitsOf_stripped (p : string) :
  digitsOf (removeAll notPlusDigit p) = digitsOf p.
Proof.
  unfold digitsOf. induction p as [| c r IH]; [reflexivity |].
  simpl. unfold notPlusDigit at 1.
  destruct (isDigit c) eqn:Ed.
  - rewrite orb_true_r. simpl. rewrite Ed. simpl. now rewrite IH.
  - rewrite orb_false_r. destruct (Ascii.eqb c "+"); simpl; [rewrite Ed; simpl |]; exact IH.
Qed.

(** X4. [normalizePhone] returns plus signs and digits only, and keeps the
    digits of its input in their order, but for the two zeros of a leading
    0044. *)
Theorem normalizePhone_digits (p : string) :
  allChars isPlusDigit (normalizePhone p) = true
  /\ digitsOf (normalizePhone p)
     = (if startsWith "0044" (removeAll notPlusDigit p)
        then sliceFrom 2 (digitsOf p) else digitsOf p).
Proof.
  rewrite normalizePhone_unfold.
  destruct p as [| c0 p0]; [split; reflexivity |].
  cbv beta iota delta [isEmpty].
  set (s := removeAll notPlusDigit (String c0 p0)).
  assert (Hs : allChars isPlusDigit s = true) by (unfold isPlusDigit; apply removeAll_kept).
  split; [apply ukRewrite_plusDigit, Hs |].
  rewrite <- (digitsOf_stripped (String c0 p0)). fold s.
  unfold ukRewrite.
  destruct (startsWith "0044" s) eqn:E1.
  - unfold startsWith in E1.
    destruct s as [| a s]; [discriminate E1 |].
    apply prefix_cons in E1. destruct E1 as [<- E1].
    destruct s as [| b s]; [discriminate E1 |].
    apply prefix_cons in E1. destruct E1 as [<- E1].
    reflexivity.
  - destruct (startsWith "44" s && negb (startsWith "+" s)); reflexivity.
Qed.

(** ** The Cloudflare decoding, whatever the input *)

Lemma string_length_app (a b : string) :
  String.length (a ++ b) = (String.length a + String.length b)%nat.
Proof. induction a as [| c a IH]; simpl; [reflexivity | now rewrite IH]. Qed.

Lemma decodeLoop_length (e : option Z) (rest : string) :
  (forall email, String.length (decodeLoop e rest email)
                 = (String.length email + Nat.div2 (S (String.length rest)))%nat)
  /\ (forall c email, String.length (decodeLoop e (String c rest) email)
                      = (String.length email + Nat.div2 (S (S (String.length rest))))%nat).
Proof.
  induction rest as [| d rest [IH1 IH2]].
  - split; intros; simpl; [lia |]. rewrite string_length_app. simpl. lia.
  - split; [intros email; apply IH2 |].
    intros c email.
    change (decodeLoop e (String c (String d rest)) email)
      with (decodeLoop e rest
              (email ++ fromCharCode (bitXor (parseInt (String c (String d EmptyString)) 16) e))).
    rewrite IH1, string_length_app. simpl. lia.
Qed.

(** X5. [decodeCfEmail] never fails: whatever the units of its input, hex
    digits or not, it returns one unit for each pair of units after the
    first two, and one for a last odd unit; an input of two units or less
    gives the empty string. *)
Theorem decodeCfEmail_length (hex : string) :
  String.length (decodeCfEmail hex) = ((String.length hex - 1) / 2)%nat.
Proof.
  unfold decodeCfEmail.
  rewrite (proj1 (decodeLoop_length _ _)).
  destruct hex as [| a [| b r]]; [reflexivity | reflexivity |].
  cbn [sliceFrom String.length Nat.add].
  replace (S (S (String.length r)) - 1)%nat with (S (String.length r)) by lia.
  apply Nat.div2_div.
Qed.

(** ** The sets of the crawl *)

Lemma setAdd_NoDup (x : string) (l : list string) : NoDup l -> NoDup (setAdd x l).
Proof.
  intros H. unfold setAdd. destruct (inArray x l) eqn:E; [exact H |].
  apply (Permutation_NoDup (Permutation_cons_append l x)).
  constructor; [| exact H].
  intros HIn. apply inArray_In in HIn. congruence.
Qed.

Lemma setAdd_length (x : string) (l : list string) :
  (List.length (setAdd x l) <= S (List.length l))%nat.
Proof.
  unfold setAdd. destruct (inArray x l); [lia |]. rewrite length_app. simpl. lia.
Qed.

Lemma setAddAll_NoDup (xs l : list string) : NoDup l -> NoDup (setAddAll xs l).
Proof.
  unfold setAddAll. revert l. induction xs as [| x xs IH]; intros l H; [exact H |].
  simpl. apply IH, setAdd_NoDup, H.
Qed.

Lemma fold_adds_NoDup (step : list string -> string -> list string) (xs l : list string) :
  addsToSet step -> NoDup l -> NoDup (fold_left step xs l).
Proof.
  intros Hs. revert l. induction xs as [| x xs IH]; intros l H; [exact H |].
  simpl. apply IH. destruct (Hs l x) as [-> | [y ->]]; [exact H | apply setAdd_NoDup, H].
Qed.

Lemma addMailto_adds : addsToSet addMailto.
Proof.
  intros l x. unfold addMailto.
  destruct (truthy (dropPrefixNoCase "mailto:" x)); [right; eexists; reflexivity | now left].
Qed.

Lemma addTel_adds : addsToSet addTel.
Proof.
  intros l x. unfold addTel.
  destruct (truthy (dropPrefixNoCase "tel:" x)); [right; eexists; reflexivity | now left].
Qed.

Lemma addCfEmail_adds : addsToSet addCfEmail.
Proof.
  intros l x. unfold addCfEmail.
  destruct (truthy (decodeCfEmail x)); [right; eexists; reflexivity | now left].
Qed.

Lemma addDataEmail_adds : addsToSet addDataEmail.
Proof.
  intros l x. unfold addDataEmail.
  destruct (truthy (trim x)); [right; eexists; reflexivity | now left].
Qed.

(** X6. [extractContactsFromUrl] returns two duplicate-free arrays, however
    often the page repeats an address or a number, and two empty arrays
    when the fetch gives nothing. *)
Theorem extractContactsFromUrl_sets (w : World) (url : string) :
  NoDup (fst (extractContactsFromUrl w url))
  /\ NoDup (snd (extractContactsFromUrl w url))
  /\ (getHtml w url = "" -> extractContactsFromUrl w url = ([], [])).
Proof.
  unfold extractContactsFromUrl.
  destruct (getHtml w url) as [| c html] eqn:E; simpl isEmpty; cbv iota.
  - repeat split; constructor.
  - cbv zeta. simpl fst. simpl snd. split; [| split; [| discriminate]].
    + apply setAddAll_NoDup.
      apply fold_adds_NoDup; [apply addDataEmail_adds |].
      apply fold_adds_NoDup; [apply addCfEmail_adds |].
      apply fold_adds_NoDup; [apply addMailto_adds | constructor].
    + apply setAddAll_NoDup.
      apply fold_adds_NoDup; [apply addTel_adds | constructor].
Qed.

Lemma visit_within (w : World) (url : string) (n : nat) (st : Crawl) :
  crawlWithin n st -> crawlWithin (S n) (visit w url st).
Proof.
  intros [Hs [Hl [He Hp]]]. unfold visit.
  destruct (extractContactsFromUrl w url) as [emails phones].
  unfold crawlWithin; simpl.
  split; [apply setAdd_NoDup, Hs |].
  split; [pose proof (setAdd_length url (seen st)); lia |].
  split; apply setAddAll_NoDup; assumption.
Qed.

Lemma crawlWithin_le (n m : nat) (st : Crawl) :
  (n <= m)%nat -> crawlWithin n st -> crawlWithin m st.
Proof. intros Hle [Hs [Hl H]]. split; [exact Hs |]. split; [lia | exact H]. Qed.

Lemma seeds_within (w : World) (seeds : list string) (n : nat) (st : Crawl) :
  crawlWithin n st ->
  crawlWithin (n + List.length seeds) (fold_left (visitSeed w) seeds st).
Proof.
  revert n st. induction seeds as [| u seeds IH]; intros n st H; simpl.
  - rewrite Nat.add_0_r. exact H.
  - replace (n + S (List.length seeds))%nat with (S n + List.length seeds)%nat by lia.
    apply IH. unfold visitSeed.
    destruct (isEmpty u || inArray u (seen st)).
    + apply (crawlWithin_le n); [lia | exact H].
    + apply visit_within, H.
Qed.

Lemma internal_within (w : World) (us : list string) (count : Z) (n : nat) (st : Crawl) :
  (0 <= count <= 3)%Z ->
  crawlWithin n st ->
  crawlWithin (n + Z.to_nat (3 - count)) (visitInternal w us count st).
Proof.
  revert count n st. induction us as [| u us IH]; intros count n st Hc H;
    cbn [visitInternal].
  - apply (crawlWithin_le n); [lia | exact H].
  - destruct (3 <=? count)%Z eqn:E3.
    + apply (crawlWithin_le n); [lia | exact H].
    + apply Z.leb_gt in E3. destruct (inArray u (seen st)).
      * apply IH; assumption.
      * replace (n + Z.to_nat (3 - count))%nat
          with (S n + Z.to_nat (3 - (count + 1)))%nat by lia.
        apply (IH (count + 1)%Z (S n)); [lia | apply visit_within, H].
Qed.

Lemma inArray_false (x : string) (l : list string) :
  inArray x l = false -> ~ In x l.
Proof.
  unfold inArray. intros H Hin.
  assert (E : existsb (String.eqb x) l = true).
  { apply existsb_exists. exists x. split; [exact Hin | apply String.eqb_refl]. }
  congruence.
Qed.

Lemma visit_seen (w : World) (url : string) (st : Crawl) :
  seen (visit w url st) = setAdd url (seen st).
Proof. unfold visit. destruct (extractContactsFromUrl w url). reflexivity. Qed.

Lemma visit_logged (w : World) (pre : list string) (acc : Crawl * list string) (u : string) :
  inArray u (seen (fst acc)) = false ->
  logged pre acc ->
  logged pre (visit w u (fst acc), (snd acc ++ [u])%list).
Proof.
  intros Hu [Hs Hn]. unfold logged. cbn [fst snd].
  rewrite visit_seen. unfold setAdd. rewrite Hu. split.
  - rewrite Hs, <- app_assoc. reflexivity.
  - apply NoDup_app; [exact Hn | repeat constructor; intros [] |].
    intros x Hx [<- | []]. exact (inArray_false _ _ Hu Hx).
Qed.

Lemma seeds_logged (w : World) (seeds pre : list string) (acc : Crawl * list string) :
  logged pre acc ->
  let out := fold_left (visitSeedLog w) seeds acc in
  logged pre out
  /\ fst out = fold_left (visitSeed w) seeds (fst acc)
  /\ (List.length (snd out) <= List.length (snd acc) + List.length seeds)%nat.
Proof.
  revert acc. induction seeds as [| u seeds IH]; intros acc H; cbn [fold_left].
  - cbv zeta. split; [exact H |]. split; [reflexivity | lia].
  - specialize (IH (visitSeedLog w acc u)). cbv zeta in IH |- *.
    assert (Hstep : logged pre (visitSeedLog w acc u)
                    /\ fst (visitSeedLog w acc u) = visitSeed w (fst acc) u
                    /\ (List.length (snd (visitSeedLog w acc u))
                        <= S (List.length (snd acc)))%nat).
    { unfold visitSeedLog, visitSeed.
      destruct (isEmpty u) eqn:Ee; cbn [orb].
      - split; [exact H |]. split; [reflexivity | lia].
      - destruct (inArray u (seen (fst acc))) eqn:Eu.
        + split; [exact H |]. split; [reflexivity | lia].
        + split; [apply visit_logged; assumption |]. split; [reflexivity |].
          cbn [snd]. rewrite length_app. cbn [List.length]. lia. }
    destruct Hstep as [Hl [Hf Hn]].
    destruct (IH Hl) as [Hl' [Hf' Hn']].
    split; [exact Hl' |]. split; [rewrite Hf', Hf; reflexivity |].
    cbn [List.length]. lia.
Qed.

Lemma internal_logged (w : World) (us pre : list string) (count : Z)
    (acc : Crawl * list string) :
  (0 <= count <= 3)%Z ->
  logged pre acc ->
  let out := visitInternalLog w us count acc in
  logged pre out
  /\ fst out = visitInternal w us count (fst acc)
  /\ (List.length (snd out) <= List.length (snd acc) + Z.to_nat (3 - count))%nat.
Proof.
  revert count acc. induction us as [| u us IH]; intros count acc Hc H;
    cbn [visitInternalLog visitInternal]; cbv zeta.
  - split; [exact H |]. split; [reflexivity | lia].
  - destruct (3 <=? count)%Z eqn:E3.
    + split; [exact H |]. split; [reflexivity | lia].
    + apply Z.leb_gt in E3.
      destruct (inArray u (seen (fst acc))) eqn:Eu.
      * apply IH; assumption.
      * destruct (IH (count + 1)%Z (visit w u (fst acc), (snd acc ++ [u])%list))
          as [Hl [Hf Hn]]; [lia | apply visit_logged; assumption |].
        split; [exact Hl |]. split; [exact Hf |].
        cbn [snd] in Hn. rewrite length_app in Hn. cbn [List.length] in Hn. lia.
Qed.

Lemma crawlSeeds_logged (w : World) (domain : string) :
  logged [] (crawlSeeds w domain)
  /\ fst (crawlSeeds w domain)
     = fold_left (visitSeed w) (map (makeAbs w ("https://" ++ domain ++ "/")) seedPaths)
         {| seen := []; foundEmails := []; foundPhones := [] |}
  /\ (List.length (snd (crawlSeeds w domain)) <= 10)%nat.
Proof.
  assert (H0 : logged [] ({| seen := []; foundEmails := []; foundPhones := [] |}, [])).
  { split; [reflexivity | constructor]. }
  unfold crawlSeeds. cbv zeta.
  set (seeds := map (makeAbs w ("https://" ++ domain ++ "/")) seedPaths).
  assert (Hlen : List.length seeds = 10%nat) by (unfold seeds; rewrite length_map; reflexivity).
  clearbody seeds.
  destruct (seeds_logged w seeds [] _ H0) as [Hl [Hf Hn]].
  split; [exact Hl |]. split; [exact Hf |].
  cbn [snd List.length] in Hn. lia.
Qed.

Lemma crawl_logged (w : World) (domain : string) :
  fst (crawlInternal w domain) = crawl w domain
  /\ seen (crawl w domain) = pagesExtracted w domain
  /\ NoDup (pagesExtracted w domain)
  /\ (List.length (snd (crawlSeeds w domain)) <= 10)%nat
  /\ (List.length (snd (crawlInternal w domain)) <= 3)%nat.
Proof.
  destruct (crawlSeeds_logged w domain) as [[Hs Hn] [Hf Hlen]].
  cbn [app] in Hs.
  unfold pagesExtracted, crawlInternal, crawl. cbv zeta. rewrite <- Hf.
  generalize dependent (crawlSeeds w domain). intros cs Hs Hn _ Hlen.
  assert (H1 : logged (snd cs) (fst cs, [])).
  { split; cbn [fst snd]; [rewrite app_nil_r; exact Hs | exact Hn]. }
  destruct (truthy (getHtml w ("https://" ++ domain ++ "/"))).
  - match goal with
    | |- context [visitInternalLog w ?us 0 ?acc] =>
        destruct (internal_logged w us (snd cs) 0 acc) as [[Hs' Hn'] [Hf' Hl']];
          [lia | exact H1 |]
    end.
    cbn [fst snd List.length] in Hf', Hl'.
    split; [exact Hf' |]. rewrite <- Hf'.
    split; [exact Hs' |]. split; [rewrite <- Hs'; exact Hn' |].
    split; [exact Hlen | exact Hl'].
  - cbn [fst snd]. split; [reflexivity |]. rewrite app_nil_r.
    split; [exact Hs |]. split; [rewrite <- Hs; exact Hn |].
    split; [exact Hlen | simpl; lia].
Qed.

Lemma crawl_within (w : World) (domain : string) : crawlWithin 13 (crawl w domain).
Proof.
  unfold crawl.
  set (baseUrl := "https://" ++ domain ++ "/").
  assert (H0 : crawlWithin 0 {| seen := []; foundEmails := []; foundPhones := [] |}).
  { repeat split; simpl; try constructor. }
  pose proof (seeds_within w (map (makeAbs w baseUrl) seedPaths) 0 _ H0) as H10.
  rewrite length_map in H10. change (0 + List.length seedPaths)%nat with 10%nat in H10.
  destruct (truthy (getHtml w baseUrl)).
  - apply (internal_within w _ 0 10); [lia | exact H10].
  - apply (crawlWithin_le 10); [lia | exact H10].
Qed.

(** X7. The crawl of a domain is bounded.  It calls
    [extractContactsFromUrl] on at most thirteen pages, ten from the seeds
    and three from the internal links, on none of them twice, and these
    pages are what [seen] holds in the end.  With the fetch of the home
    page between the two loops that makes at most fourteen requests; the
    home page is the only URL that can be requested twice.  The addresses
    and numbers gathered are free of duplicates. *)
Theorem crawl_bounded (w : World) (domain : string) :
  fst (crawlInternal w domain) = crawl w domain
  /\ seen (crawl w domain) = pagesExtracted w domain
  /\ NoDup (pagesExtracted w domain)
  /\ (List.length (pagesExtracted w domain) <= 13)%nat
  /\ (List.length (requests w domain) <= 14)%nat
  /\ (forall u, (count_occ string_dec (requests w domain) u
                 <= if string_dec u ("https://" ++ domain ++ "/") then 2 else 1)%nat)
  /\ NoDup (foundEmails (crawl w domain))
  /\ NoDup (foundPhones (crawl w domain)).
Proof.
  destruct (crawl_logged w domain) as [Hf [Hs [Hn [H10 H3]]]].
  split; [exact Hf |]. split; [exact Hs |]. split; [exact Hn |].
  split; [unfold pagesExtracted; rewrite length_app; lia |].
  split; [unfold requests; cbv zeta; rewrite length_app; cbn [List.length]; lia |].
  split.
  - intros u.
    assert (Hc : (count_occ string_dec (pagesExtracted w domain) u <= 1)%nat)
      by (apply NoDup_count_occ; exact Hn).
    unfold pagesExtracted in Hc. unfold requests.
    rewrite count_occ_app in Hc. rewrite count_occ_app. cbn [count_occ].
    destruct (string_dec ("https://" ++ domain ++ "/") u) as [E | E];
      destruct (string_dec u ("https://" ++ domain ++ "/")) as [E' | E'];
      try congruence; lia.
  - destruct (crawl_within w domain) as [_ [_ H]]. exact H.
Qed.

Lemma visit_nothing (w : World) (url : string) (st : Crawl) :
  getHtml w url = "" ->
  foundEmails (visit w url st) = foundEmails st
  /\ foundPhones (visit w url st) = foundPhones st.
Proof.
  intros H. unfold visit, extractContactsFromUrl. rewrite H. simpl. split; reflexivity.
Qed.

Lemma seeds_unreachable (w : World) (seeds : list string) (st : Crawl) :
  (forall u, In u (filter truthy seeds) -> getHtml w u = "") ->
  foundEmails (fold_left (visitSeed w) seeds st) = foundEmails st
  /\ foundPhones (fold_left (visitSeed w) seeds st) = foundPhones st.
Proof.
  revert st. induction seeds as [| u seeds IH]; intros st H; cbn [fold_left]; [auto |].
  destruct (IH (visitSeed w st u)) as [-> ->].
  { intros v Hv. apply H. cbn [filter]. destruct (truthy u); [now right | exact Hv]. }
  unfold visitSeed.
  destruct (isEmpty u) eqn:Eu; cbn [orb]; [auto |].
  destruct (inArray u (seen st)); [auto |].
  apply visit_nothing, H. cbn [filter]. unfold truthy. rewrite Eu. now left.
Qed.

Lemma crawl_site_down (w : World) (domain : string) :
  (forall u, In u (sitePages w domain) -> getHtml w u = "") ->
  getHtml w ("https://" ++ domain ++ "/") = ""
  /\ foundEmails (crawl w domain) = [] /\ foundPhones (crawl w domain) = [].
Proof.
  intros Hfetch.
  assert (Hhome : getHtml w ("https://" ++ domain ++ "/") = "")
    by (apply Hfetch; left; reflexivity).
  split; [exact Hhome |].
  unfold crawl. cbv zeta. rewrite Hhome.
  cbv beta iota delta [truthy isEmpty negb].
  apply (seeds_unreachable w _ {| seen := []; foundEmails := []; foundPhones := [] |}).
  intros u Hu. apply Hfetch. right. exact Hu.
Qed.

Lemma acmeDown_site (u : string) :
  In u (sitePages acmeDown "acme.com") -> getHtml acmeDown u = "".
Proof.
  intros H.
  assert (Hall : forallb (fun u => isEmpty (getHtml acmeDown u))
                   (sitePages acmeDown "acme.com") = true) by (vm_compute; reflexivity).
  rewrite forallb_forall in Hall. specialize (Hall u H).
  destruct (getHtml acmeDown u); [reflexivity | discriminate Hall].
Qed.

(** X8. When the home page and the seed pages of a domain cannot be
    fetched, contact discovery comes back empty-handed, whatever the rest
    of the web answers: no email, no phone, no brand text. *)
Theorem discoverContacts_unreachable (w : World) (domain : string)
    (Hfetch : forall u, In u (sitePages w domain) -> getHtml w u = "") :
  discoverContacts w domain = {| email := ""; phone := ""; brandText := "" |}.
Proof.
  unfold discoverContacts.
  destruct (crawl_site_down w domain Hfetch) as [Hhome [-> ->]].
  rewrite Hhome. reflexivity.
Qed.

Lemma discoverContacts_unreachable_witness :
  getHtml acmeDown "https://example.org/" <> ""
  /\ discoverContacts acmeDown "acme.com" = {| email := ""; phone := ""; brandText := "" |}.
Proof.
  split; [discriminate |].
  exact (discoverContacts_unreachable acmeDown "acme.com" acmeDown_site).
Defined.

(** ** One record, further *)

Lemma patchOf_industry (w : World) (e : Enriched) :
  patchGet AIRTABLE_INDUSTRY_FIELD (patchOf w e)
  = (if truthy (eIndustry e) then Some (eIndustry e) else None).
Proof.
  unfold patchOf, setIf.
  destruct (truthy (eDomain e)), (truthy (eEmail e)), (truthy (ePhone e)),
    (truthy (eIndustry e)); reflexivity.
Qed.

Lemma patchOf_status (w : World) (e : Enriched) :
  patchGet AIRTABLE_STATUS_FIELD (patchOf w e) = Some (statusNote e)
  /\ patchGet AIRTABLE_LAST_ENRICHED_AT_FIELD (patchOf w e) = Some (nowIso w).
Proof.
  unfold patchOf, setIf.
  destruct (truthy (eDomain e)), (truthy (eEmail e)), (truthy (ePhone e)),
    (truthy (eIndustry e)); split; reflexivity.
Qed.

(** The fields of a record that are filled go through unchanged. *)
Lemma enrichWith_filled (w : World) (rec : Rec) (dom : string) :
  let e := enrichWith w rec dom in
  (fEmail rec <> "" -> eEmail e = fEmail rec)
  /\ (fPhone rec <> "" -> ePhone e = fPhone rec)
  /\ (fIndustry rec <> "" -> eIndustry e = fIndustry rec).
Proof.
  unfold enrichWith.
  destruct (truthy dom && (isEmpty (fEmail rec) || isEmpty (fPhone rec))); simpl;
    repeat split; intros H; try reflexivity;
    apply truthy_true_iff in H; unfold truthy in H; apply negb_true_iff in H;
    rewrite H; reflexivity.
Qed.

(** X9. [processRecord] never overwrites a field that is filled: the
    domain, the email, the phone and the industry of the record, when
    present, are the values of the patch. *)
Theorem processRecord_keeps_filled (w : World) (rec : Rec) :
  exists p,
    processRecord w rec = Some p
    /\ (fDomain rec <> "" -> patchGet AIRTABLE_DOMAIN_FIELD p = Some (fDomain rec))
    /\ (fEmail rec <> "" -> patchGet AIRTABLE_EMAIL_FIELD p = Some (fEmail rec))
    /\ (fPhone rec <> "" -> patchGet AIRTABLE_PHONE_FIELD p = Some (fPhone rec))
    /\ (fIndustry rec <> "" -> patchGet AIRTABLE_INDUSTRY_FIELD p = Some (fIndustry rec)).
Proof.
  destruct (processRecord_total w rec) as [p Hp]. exists p. split; [exact Hp |].
  destruct (processRecord_patch w rec p Hp) as [dom [Hdom ->]].
  destruct (enrichWith_filled w rec dom) as [Hem [Hph Hind]].
  destruct (patchOf_contacts w (enrichWith w rec dom)) as [Gem Gph].
  destruct (enrichWith_blank w rec dom) as [Hd _].
  split; [| split; [| split]].
  - intros H. rewrite patchOf_domain, Hd.
    unfold resolveDomain in Hdom.
    apply truthy_true_iff in H. pose proof H as Ht.
    unfold truthy in H. apply negb_true_iff in H. rewrite H in Hdom.
    inversion Hdom; subst dom. now rewrite Ht.
  - intros H. rewrite Gem, (Hem H). apply truthy_true_iff in H. now rewrite H.
  - intros H. rewrite Gph, (Hph H). apply truthy_true_iff in H. now rewrite H.
  - intros H. rewrite patchOf_industry, (Hind H). apply truthy_true_iff in H. now rewrite H.
Qed.

Lemma bestDomainFor_pick_generated (w : World) (name country : string) (sel : Selection)
    (r : VerificationResult) :
  bestDomainFor w name country = Some sel -> pick sel = Some r ->
  In (domain r) (generated (cleanName name) country).
Proof.
  unfold bestDomainFor.
  destruct (isEmpty (cleanName name)).
  - intros H. inversion H; subst. discriminate.
  - destruct (selection_stops w (sortedCandidates (cleanName name) country))
      as [sel' [n [Hrun [Hc [_ [_ Hbest]]]]]].
    intros H Hr. rewrite Hrun in H. inversion H; subst sel'.
    rewrite Hr in Hbest. destruct Hbest as [Hin _].
    rewrite Hc in Hin. apply In_firstn in Hin.
    apply in_map_iff in Hin. destruct Hin as [d [<- Hd]]. simpl.
    apply In_firstn in Hd.
    apply (Permutation_in _ (proj1 (sortedCandidates_sorted _ _)) Hd).
Qed.

(** X10. A domain that [processRecord] writes into a blank Domain field
    was verified alive, by DNS or by HTTP, and is one of the candidates
    generated from the company name. *)
Theorem processRecord_domain_verified (w : World) (rec : Rec) :
  exists p,
    processRecord w rec = Some p
    /\ (fDomain rec = "" ->
        forall d, patchGet AIRTABLE_DOMAIN_FIELD p = Some d ->
          dnsAlive w d || httpAlive w d = true
          /\ In d (generated (cleanName (fCompany rec)) (fCountry rec))).
Proof.
  destruct (processRecord_total w rec) as [p Hp]. exists p. split; [exact Hp |].
  destruct (processRecord_patch w rec p Hp) as [dom [Hdom ->]].
  destruct (enrichWith_blank w rec dom) as [Hd _].
  intros Hblank d Hget. rewrite patchOf_domain, Hd in Hget.
  destruct (truthy dom) eqn:Et; [| discriminate]. inversion Hget; subst d; clear Hget.
  unfold resolveDomain in Hdom. rewrite Hblank in Hdom. simpl isEmpty in Hdom. cbv iota in Hdom.
  destruct (bestDomainFor_pick w (fCompany rec) (fCountry rec)) as [sel [Hrun Hpick]].
  rewrite Hrun in Hdom.
  destruct (pick sel) as [r |] eqn:Er.
  - inversion Hdom; subst dom.
    destruct (Hpick r eq_refl) as [Hok Hr]. split.
    + rewrite Hr in Hok. exact Hok.
    + apply (bestDomainFor_pick_generated w _ _ sel r Hrun Er).
  - inversion Hdom; subst dom. discriminate Et.
Qed.

(** X11. A record whose domain, email and phone are filled asks nothing of
    the network: its patch is the same in every world with the same clock,
    it holds the three values, and the status is OK. *)
Theorem processRecord_complete_record (w w' : World) (rec : Rec)
    (Hd : fDomain rec <> "") (He : fEmail rec <> "") (Hp : fPhone rec <> "")
    (Hclock : nowIso w = nowIso w') :
  processRecord w rec = processRecord w' rec
  /\ exists p, processRecord w rec = Some p
               /\ patchGet AIRTABLE_DOMAIN_FIELD p = Some (fDomain rec)
               /\ patchGet AIRTABLE_EMAIL_FIELD p = Some (fEmail rec)
               /\ patchGet AIRTABLE_PHONE_FIELD p = Some (fPhone rec)
               /\ patchGet AIRTABLE_STATUS_FIELD p = Some "OK".
Proof.
  apply truthy_true_iff in Hd, He, Hp.
  assert (Ed : isEmpty (fDomain rec) = false) by (unfold truthy in Hd; now apply negb_true_iff).
  assert (Ee : isEmpty (fEmail rec) = false) by (unfold truthy in He; now apply negb_true_iff).
  assert (Ep : isEmpty (fPhone rec) = false) by (unfold truthy in Hp; now apply negb_true_iff).
  assert (Hrun : forall v, processRecord v rec =
                 Some (patchOf v {| eDomain := fDomain rec; eEmail := fEmail rec;
                                    ePhone := fPhone rec;
                                    eIndustry := eIndustry (enrichWith v rec (fDomain rec));
                                    eBrandOk := None |})).
  { intros v. unfold processRecord, enrich, resolveDomain. rewrite Ed. simpl option_map.
    unfold enrichWith. rewrite Ee, Ep, andb_false_r. reflexivity. }
  assert (Hind : eIndustry (enrichWith w rec (fDomain rec))
                 = eIndustry (enrichWith w' rec (fDomain rec))).
  { unfold enrichWith. rewrite Ee, Ep, andb_false_r. reflexivity. }
  split.
  - rewrite !Hrun, Hind. unfold patchOf. rewrite Hclock. reflexivity.
  - eexists. split; [apply Hrun |].
    rewrite patchOf_domain. destruct (patchOf_contacts w
      {| eDomain := fDomain rec; eEmail := fEmail rec; ePhone := fPhone rec;
         eIndustry := eIndustry (enrichWith w rec (fDomain rec)); eBrandOk := None |})
      as [-> ->].
    rewrite (proj1 (patchOf_status _ _)). simpl eDomain. simpl eEmail. simpl ePhone.
    rewrite Hd, He, Hp. repeat split.
    unfold statusNote. simpl. rewrite Hd, He. reflexivity.
Qed.

(** A record with every field filled. *)
Lemma processRecord_complete_record_witness :
  let rec := {| fCompany := "Acme Widgets Ltd"; fCountry := ""; fSic := SicText "25110";
                fDomain := "acme.com"; fEmail := "info@acme.com";
                fPhone := "+441234567890"; fIndustry := "" |} in
  fDomain rec <> "" /\ fEmail rec <> "" /\ fPhone rec <> ""
  /\ nowIso offline = nowIso unbranded
  /\ processRecord offline rec = processRecord unbranded rec.
Proof.
  intros rec.
  assert (Hd : fDomain rec <> "") by discriminate.
  assert (He : fEmail rec <> "") by discriminate.
  assert (Hp : fPhone rec <> "") by discriminate.
  assert (Hc : nowIso offline = nowIso unbranded) by reflexivity.
  split; [exact Hd |]. split; [exact He |]. split; [exact Hp |]. split; [exact Hc |].
  exact (proj1 (processRecord_complete_record offline unbranded rec Hd He Hp Hc)).
Defined.

(** When none of the candidates that may be verified is alive, nothing is
    picked. *)
Lemma bestDomainFor_dead (w : World) (name country : string) :
  (forall d, In d (cappedCandidates name country) -> ok (verify w d) = false) ->
  exists sel, bestDomainFor w name country = Some sel /\ pick sel = None.
Proof.
  intros Hdead. unfold bestDomainFor. unfold cappedCandidates in Hdead.
  destruct (isEmpty (cleanName name)).
  - eexists. split; reflexivity.
  - destruct (selection_stops w (sortedCandidates (cleanName name) country))
      as [sel [n [Hrun [Hc [_ [_ Hbest]]]]]].
    exists sel. split; [exact Hrun |].
    destruct (pick sel) as [r |] eqn:E; [| reflexivity].
    destruct Hbest as [Hin [Hok _]].
    rewrite Hc in Hin. apply In_firstn in Hin.
    apply in_map_iff in Hin. destruct Hin as [d [<- Hd]].
    rewrite (Hdead d Hd) in Hok. discriminate.
Qed.

Lemma elsewhere_dead (d : string) :
  In d (cappedCandidates (fCompany acmeWidgets) (fCountry acmeWidgets)) ->
  dnsAlive elsewhere d = false /\ httpAlive elsewhere d = false.
Proof.
  intros H.
  assert (Hall : forallb (fun d => negb (dnsAlive elsewhere d) && negb (httpAlive elsewhere d))
                   (cappedCandidates (fCompany acmeWidgets) (fCountry acmeWidgets)) = true)
    by (vm_compute; reflexivity).
  rewrite forallb_forall in Hall. specialize (Hall d H).
  apply andb_true_iff in Hall. destruct Hall as [H1 H2].
  apply negb_true_iff in H1, H2. split; assumption.
Qed.

(** X12. When none of the candidate domains that may be verified for a
    record without a domain is alive, whatever else is, the record gets no
    domain: it keeps the email and the phone it had, and its status is "No
    domain or contacts found" if it had neither and "Partial" otherwise. *)
Theorem processRecord_no_domain (w : World) (rec : Rec)
    (Hdead : forall d, In d (cappedCandidates (fCompany rec) (fCountry rec)) ->
                       dnsAlive w d = false /\ httpAlive w d = false)
    (Hblank : fDomain rec = "") :
  exists p,
    processRecord w rec = Some p
    /\ patchGet AIRTABLE_DOMAIN_FIELD p = None
    /\ patchGet AIRTABLE_EMAIL_FIELD p
       = (if truthy (fEmail rec) then Some (fEmail rec) else None)
    /\ patchGet AIRTABLE_PHONE_FIELD p
       = (if truthy (fPhone rec) then Some (fPhone rec) else None)
    /\ patchGet AIRTABLE_STATUS_FIELD p
       = Some (if isEmpty (fEmail rec) && isEmpty (fPhone rec)
               then "No domain or contacts found" else "Partial").
Proof.
  destruct (bestDomainFor_dead w (fCompany rec) (fCountry rec)) as [sel [Hrun Hpick]].
  { intros d Hd. destruct (Hdead d Hd) as [H1 H2].
    unfold verify. cbn [ok]. rewrite H1, H2. reflexivity. }
  assert (Hres : resolveDomain w rec = Some "").
  { unfold resolveDomain. rewrite Hblank. simpl isEmpty. cbv iota.
    rewrite Hrun, Hpick. reflexivity. }
  exists (patchOf w (enrichWith w rec "")).
  split; [unfold processRecord, enrich; rewrite Hres; reflexivity |].
  destruct (patchOf_contacts w (enrichWith w rec "")) as [-> ->].
  rewrite patchOf_domain, (proj1 (patchOf_status _ _)).
  unfold enrichWith. simpl truthy at 1. simpl andb. cbv iota beta.
  simpl eDomain. simpl eEmail. simpl ePhone.
  split; [reflexivity |]. split; [reflexivity |]. split; [reflexivity |].
  unfold statusNote. simpl.
  unfold truthy. destruct (isEmpty (fEmail rec)), (isEmpty (fPhone rec)); reflexivity.
Qed.

Lemma processRecord_no_domain_witness :
  dnsAlive elsewhere "example.org" = true
  /\ fDomain acmeWidgets = ""
  /\ exists p, processRecord elsewhere acmeWidgets = Some p
               /\ patchGet AIRTABLE_DOMAIN_FIELD p = None.
Proof.
  split; [reflexivity |]. split; [reflexivity |].
  destruct (processRecord_no_domain elsewhere acmeWidgets elsewhere_dead eq_refl)
    as [p [Hp [Hd _]]].
  exists p. split; assumption.
Defined.

(** X13. A record with a domain and no contacts, when the home page and
    the seed pages of the domain cannot be fetched, keeps its domain,
    gets no contact, and its status is "Domain only". *)
Theorem processRecord_unreachable_site (w : World) (rec : Rec)
    (Hfetch : forall u, In u (sitePages w (fDomain rec)) -> getHtml w u = "")
    (Hd : fDomain rec <> "") (He : fEmail rec = "") (Hp : fPhone rec = "") :
  exists p,
    processRecord w rec = Some p
    /\ patchGet AIRTABLE_DOMAIN_FIELD p = Some (fDomain rec)
    /\ patchGet AIRTABLE_EMAIL_FIELD p = None
    /\ patchGet AIRTABLE_PHONE_FIELD p = None
    /\ patchGet AIRTABLE_STATUS_FIELD p = Some "Domain only".
Proof.
  apply truthy_true_iff in Hd.
  assert (Ed : isEmpty (fDomain rec) = false) by (unfold truthy in Hd; now apply negb_true_iff).
  exists (patchOf w (enrichWith w rec (fDomain rec))).
  split; [unfold processRecord, enrich, resolveDomain; rewrite Ed; reflexivity |].
  destruct (patchOf_contacts w (enrichWith w rec (fDomain rec))) as [-> ->].
  rewrite patchOf_domain, (proj1 (patchOf_status _ _)).
  assert (Hc : discoverContacts w (fDomain rec)
               = {| email := ""; phone := ""; brandText := "" |}).
  { unfold discoverContacts.
    destruct (crawl_site_down w (fDomain rec) Hfetch) as [Hhome [-> ->]].
    rewrite Hhome. reflexivity. }
  unfold statusNote, enrichWith. rewrite Hc, He, Hp, Hd. simpl.
  rewrite Hd. repeat split; reflexivity.
Qed.

Lemma processRecord_unreachable_site_witness :
  getHtml acmeDown "https://example.org/" <> ""
  /\ fDomain acmeWithDomain <> "" /\ fEmail acmeWithDomain = "" /\ fPhone acmeWithDomain = ""
  /\ exists p, processRecord acmeDown acmeWithDomain = Some p
               /\ patchGet AIRTABLE_STATUS_FIELD p = Some "Domain only".
Proof.
  assert (Hd : fDomain acmeWithDomain <> "") by discriminate.
  split; [discriminate |]. split; [exact Hd |]. split; [reflexivity |]. split; [reflexivity |].
  destruct (processRecord_unreachable_site acmeDown acmeWithDomain
              acmeDown_site Hd eq_refl eq_refl) as [p [Hp [_ [_ [_ Hs]]]]].
  exists p. split; assumption.
Defined.

Ltac patch_entries H :=
  simpl in H;
  repeat (destruct H as [H | H];
          [inversion H; subst; clear H | ]);
  try contradiction.

Lemma patchOf_shape (w : World) (e : Enriched) :
  NoDup (map fst (patchOf w e))
  /\ (forall f v, In (f, v) (patchOf w e) -> In f patchFields)
  /\ (forall f v, In (f, v) (patchOf w e) ->
        In f [AIRTABLE_DOMAIN_FIELD; AIRTABLE_EMAIL_FIELD; AIRTABLE_PHONE_FIELD;
              AIRTABLE_INDUSTRY_FIELD] -> v <> "").
Proof.
  unfold patchOf, setIf.
  destruct (truthy (eDomain e)) eqn:Ed, (truthy (eEmail e)) eqn:Ee,
    (truthy (ePhone e)) eqn:Ep, (truthy (eIndustry e)) eqn:Ei;
    apply truthy_true_iff in Ed || clear Ed;
    apply truthy_true_iff in Ee || clear Ee;
    apply truthy_true_iff in Ep || clear Ep;
    apply truthy_true_iff in Ei || clear Ei;
    (split; [simpl; repeat constructor; simpl; intuition discriminate |]);
    (split; [intros f v H; patch_entries H; simpl; tauto |]);
    intros f v H Hf; patch_entries H; try assumption;
    simpl in Hf; intuition discriminate.
Qed.

(** X14. The patch of a record holds each field at most once and no field
    but the six of the configuration; a domain, an email, a phone or an
    industry in it is never empty; the status, one of the five notes, and
    the timestamp are always there. *)
Theorem processRecord_patch_shape (w : World) (rec : Rec) :
  exists p,
    processRecord w rec = Some p
    /\ NoDup (map fst p)
    /\ (forall f v, In (f, v) p -> In f patchFields)
    /\ (forall f v, In (f, v) p ->
          In f [AIRTABLE_DOMAIN_FIELD; AIRTABLE_EMAIL_FIELD; AIRTABLE_PHONE_FIELD;
                AIRTABLE_INDUSTRY_FIELD] -> v <> "")
    /\ (exists note, In note statusNotes
                     /\ patchGet AIRTABLE_STATUS_FIELD p = Some note)
    /\ patchGet AIRTABLE_LAST_ENRICHED_AT_FIELD p = Some (nowIso w).
Proof.
  destruct (processRecord_total w rec) as [p Hp]. exists p. split; [exact Hp |].
  destruct (processRecord_patch w rec p Hp) as [dom [_ ->]].
  destruct (patchOf_shape w (enrichWith w rec dom)) as [Hn [Hf Hv]].
  destruct (patchOf_status w (enrichWith w rec dom)) as [Hs Ht].
  split; [exact Hn |]. split; [exact Hf |]. split; [exact Hv |]. split; [| exact Ht].
  exists (statusNote (enrichWith w rec dom)). split; [| exact Hs].
  unfold statusNote, statusNotes.
  destruct (truthy (eDomain (enrichWith w rec dom))),
    (truthy (eEmail (enrichWith w rec dom))),
    (truthy (ePhone (enrichWith w rec dom)));
    simpl; try tauto;
    destruct (eBrandOk (enrichWith w rec dom)) as [[] |]; simpl; tauto.
Qed.

(** ** The industry classifier, further *)

Lemma section_names (lo hi : Z) (name : string) :
  In (lo, hi, name) SIC_SECTIONS ->
  name <> "" /\ (1 <= lo <= hi)%Z /\ (hi <= 99)%Z
  /\ forall two, (lo <= two <= hi)%Z -> ~ In two unmappedPrefixes.
Proof.
  intros H. unfold SIC_SECTIONS in H. simpl in H.
  repeat (destruct H as [H | H];
          [inversion H; subst; clear H;
           split; [discriminate |]; split; [lia |]; split; [lia |];
           intros two Ht HIn; simpl in HIn; lia |]).
  contradiction.
Qed.

Lemma find_mapped (two : Z) :
  (1 <= two <= 99)%Z -> ~ In two unmappedPrefixes ->
  find (inSection two) SIC_SECTIONS <> None.
Proof.
  intros Hr Hg. unfold unmappedPrefixes in Hg. simpl in Hg.
  unfold find, SIC_SECTIONS, inSection.
  decide_bounds; discriminate.
Qed.

(** X15. A code gets a label exactly when the number read from its first
    two units lies from 1 to 99 and is none of 4, 34, 40, 44, 48, 54, 57,
    67, 76, 83 and 89, the gaps between the sections. *)
Theorem lookupIndustry_mapped (code : string) :
  lookupIndustryFromSICCode code <> "" <->
  exists two, parseInt (sliceTo 2 (trim code)) 10 = Some two
              /\ (1 <= two <= 99)%Z /\ ~ In two unmappedPrefixes.
Proof.
  rewrite lookup_unfold. split.
  - intros H. destruct (isEmpty code); [congruence |].
    destruct (parseInt (sliceTo 2 (trim code)) 10) as [two |]; [| congruence].
    exists two. split; [reflexivity |].
    destruct (find (inSection two) SIC_SECTIONS) as [[[lo hi] name] |] eqn:E; [| congruence].
    apply find_some in E. destruct E as [HIn Hb].
    unfold inSection in Hb. apply andb_true_iff in Hb. destruct Hb as [H1 H2].
    apply Z.leb_le in H1, H2.
    destruct (section_names _ _ _ HIn) as [_ [Hlo [Hhi Hgap]]].
    split; [lia | apply Hgap; lia].
  - intros [two [Hp [Hr Hg]]].
    destruct (isEmpty code) eqn:Ec.
    { destruct code; [| discriminate Ec]. discriminate Hp. }
    rewrite Hp.
    destruct (find (inSection two) SIC_SECTIONS) as [[[lo hi] name] |] eqn:E.
    + apply find_some in E. destruct E as [HIn _].
      apply (section_names _ _ _ HIn).
    + exfalso. apply (find_mapped two Hr Hg E).
Qed.

Lemma setAdd_In (x y : string) (l : list string) :
  In y (setAdd x l) <-> y = x \/ In y l.
Proof.
  unfold setAdd. destruct (inArray x l) eqn:E.
  - apply inArray_In in E. split; [auto |]. intros [-> | H]; assumption.
  - rewrite in_app_iff. simpl. split; [intros [H | [<- | []]] | intros [-> | H]]; auto.
Qed.

Lemma setAdd_present (x : string) (l : list string) : In x l -> setAdd x l = l.
Proof. intros H. apply inArray_In in H. unfold setAdd. now rewrite H. Qed.

(** The step of the loop of [deriveIndustryFromSICField]. *)
Lemma labels_step_spec (acc : list string) (raw : string) :
  let acc' := (let label := lookupIndustryFromSICCode raw in
               if truthy label then setAdd label acc else acc) in
  NoDup acc -> NoDup acc'.
Proof.
  cbv zeta. intros H. destruct (truthy (lookupIndustryFromSICCode raw)); [| exact H].
  apply setAdd_NoDup, H.
Qed.

Lemma labels_fold (values acc : list string) :
  let step := fun labels raw =>
                let label := lookupIndustryFromSICCode raw in
                if truthy label then setAdd label labels else labels in
  (NoDup acc -> NoDup (fold_left step values acc))
  /\ (forall l, In l (fold_left step values acc) <->
                In l acc \/ (l <> "" /\ exists c, In c values /\ lookupIndustryFromSICCode c = l)).
Proof.
  cbv zeta. revert acc. induction values as [| c values IH]; intros acc.
  - simpl. split; [auto |]. intros l. split; [auto |]. intros [H | [_ [c [[] _]]]]; exact H.
  - simpl. destruct (IH (if truthy (lookupIndustryFromSICCode c)
                         then setAdd (lookupIndustryFromSICCode c) acc else acc)) as [IHn IHi].
    split.
    + intros H. apply IHn. apply (labels_step_spec acc c H).
    + intros l. rewrite IHi. destruct (truthy (lookupIndustryFromSICCode c)) eqn:Et.
      * rewrite setAdd_In. apply truthy_true_iff in Et. split.
        -- intros [[-> | H] | [Hl [c' [Hc' E]]]]; auto.
           ++ right. split; [exact Et |]. exists c. auto.
           ++ right. split; [exact Hl |]. exists c'. auto.
        -- intros [H | [Hl [c' [[-> | Hc'] E]]]]; auto.
           right. split; [exact Hl |]. exists c'. auto.
      * apply truthy_empty_iff in Et. split.
        -- intros [H | [Hl [c' [Hc' E]]]]; auto.
           right. split; [exact Hl |]. exists c'. auto.
        -- intros [H | [Hl [c' [[-> | Hc'] E]]]]; auto.
           ++ congruence.
           ++ right. split; [exact Hl |]. exists c'. auto.
Qed.

Lemma derive_array (codes : list string) :
  deriveIndustryFromSICField (SicArray codes) = join " | " (sicLabels codes).
Proof. reflexivity. Qed.

(** X16. The industry of a list of codes is the join of the labels of its
    codes, each once, whatever codes share a section or are repeated: the
    labels are distinct, each is the label of one of the codes, and a code
    that comes again adds nothing. *)
Theorem deriveIndustry_distinct_labels (codes again : list string) :
  deriveIndustryFromSICField (SicArray codes) = join " | " (sicLabels codes)
  /\ NoDup (sicLabels codes)
  /\ (forall l, In l (sicLabels codes) <->
                l <> "" /\ exists c, In c codes /\ lookupIndustryFromSICCode c = l)
  /\ ((forall c, In c again -> In c codes) ->
      deriveIndustryFromSICField (SicArray (codes ++ again))
      = deriveIndustryFromSICField (SicArray codes)).
Proof.
  split; [reflexivity |].
  destruct (labels_fold codes []) as [Hn Hi].
  split; [apply Hn; constructor |].
  split.
  { intros l. unfold sicLabels. rewrite Hi. simpl. tauto. }
  intros Hsub. rewrite !derive_array. f_equal.
  unfold sicLabels. rewrite fold_left_app.
  fold (sicLabels codes).
  assert (Hall : forall c, In c again -> lookupIndustryFromSICCode c <> "" ->
                           In (lookupIndustryFromSICCode c) (sicLabels codes)).
  { intros c Hc Hl. unfold sicLabels. apply Hi. right. split; [exact Hl |].
    exists c. split; [apply Hsub, Hc | reflexivity]. }
  clear Hsub Hn Hi.
  induction again as [| c again IH]; [reflexivity |].
  simpl. destruct (truthy (lookupIndustryFromSICCode c)) eqn:Et.
  - apply truthy_true_iff in Et.
    rewrite setAdd_present by (apply Hall; [left; reflexivity | exact Et]).
    apply IH. intros c' Hc'. apply Hall. right. exact Hc'.
  - apply IH. intros c' Hc'. apply Hall. right. exact Hc'.
Qed.

(** ** Candidates and their scores *)

Lemma strong_suffixes_exclusive (d : string) :
  endsWith ".co.uk" d = true -> endsWith ".com" d = false.
Proof.
  unfold endsWith.
  change (revStr ".co.uk") with "ku.oc.". change (revStr ".com") with "moc.".
  intros H. destruct (revStr d) as [| c r]; [discriminate H |].
  apply prefix_cons in H. destruct H as [<- _].
  cbn [String.prefix]. destruct (ascii_dec "m" "k"); [discriminate | reflexivity].
Qed.

(** X17. The score of a domain lies from -1 to 7.  The two strong
    suffixes exclude each other, a domain with one of them scores 4 or
    more, and any other domain scores 1 or less. *)
Theorem score_bands (d : string) :
  (-1 <= score d <= 7)%Z
  /\ (endsWith ".co.uk" d = true -> endsWith ".com" d = false)
  /\ (strongDomain d = true -> (4 <= score d)%Z)
  /\ (strongDomain d = false -> (score d <= 1)%Z).
Proof.
  pose proof (strong_suffixes_exclusive d) as Hx.
  unfold score, strongDomain.
  destruct (endsWith ".co.uk" d); [rewrite (Hx eq_refl) |];
    destruct (endsWith ".com" d); destruct (includes "-" d);
    destruct (len d <=? 12)%Z; simpl;
    repeat split; intros; try discriminate; try reflexivity; try lia.
Qed.

Lemma score_strong (d : string) :
  (strongDomain d = true -> (4 <= score d)%Z)
  /\ (strongDomain d = false -> (score d <= 1)%Z).
Proof.
  pose proof (strong_suffixes_exclusive d) as Hx.
  unfold score, strongDomain.
  destruct (endsWith ".co.uk" d); [rewrite (Hx eq_refl) |];
    destruct (endsWith ".com" d); destruct (includes "-" d);
    destruct (len d <=? 12)%Z; simpl;
    split; intros; try discriminate; lia.
Qed.

Lemma StronglySorted_after {A : Type} (R : A -> A -> Prop) (l1 l2 : list A) (a : A) :
  StronglySorted R (l1 ++ a :: l2)%list -> Forall (R a) l2.
Proof.
  induction l1 as [| x l1 IH]; simpl; intros H; inversion H; subst; auto.
Qed.

(** X18. In the sorted candidates every domain with a strong suffix comes
    before every other domain: after a candidate that ends neither in
    .co.uk nor in .com, none follows that does. *)
Theorem sortedCandidates_strong_first (cleaned country : string)
    (l1 l2 : list string) (a : string)
    (Hsplit : sortedCandidates cleaned country = (l1 ++ a :: l2)%list)
    (Ha : strongDomain a = false) :
  forall b, In b l2 -> strongDomain b = false.
Proof.
  intros b Hb.
  pose proof (proj2 (sortedCandidates_sorted cleaned country)) as Hs.
  rewrite Hsplit in Hs. apply StronglySorted_after in Hs.
  rewrite Forall_forall in Hs. specialize (Hs b Hb). simpl in Hs.
  destruct (strongDomain b) eqn:Eb; [| reflexivity].
  pose proof (proj1 (score_strong b) Eb). pose proof (proj2 (score_strong a) Ha). lia.
Qed.

Lemma sortedCandidates_strong_first_witness :
  sortedCandidates "acme" "" =
    (["acme.co.uk"; "acme.com"] ++ "acme.co" :: ["acme.ai"; "acme.io"; "acme.net";
                                                 "acme.org"; "acme.uk"])%list
  /\ strongDomain "acme.co" = false
  /\ forall b, In b ["acme.ai"; "acme.io"; "acme.net"; "acme.org"; "acme.uk"] ->
               strongDomain b = false.
Proof.
  assert (H : sortedCandidates "acme" "" =
              (["acme.co.uk"; "acme.com"] ++ "acme.co" :: ["acme.ai"; "acme.io"; "acme.net";
                                                           "acme.org"; "acme.uk"])%list)
    by (vm_compute; reflexivity).
  split; [exact H |]. split; [reflexivity |].
  exact (sortedCandidates_strong_first "acme" "" _ _ _ H eq_refl).
Defined.

Lemma setAdd_hd (x d : string) (l : list string) :
  l <> [] -> hd d (setAdd x l) = hd d l.
Proof.
  intros H. unfold setAdd. destruct (inArray x l); [reflexivity |].
  destruct l; [congruence | reflexivity].
Qed.

Lemma setAdd_nonempty (x : string) (l : list string) : setAdd x l <> [].
Proof.
  unfold setAdd. destruct (inArray x l) eqn:E.
  - destruct l; [discriminate E | discriminate].
  - destruct l; discriminate.
Qed.

Lemma variants_set_bounds (name : string) :
  (1 <= List.length (variants name))%nat /\ (List.length (variants name) <= 7)%nat.
Proof.
  assert (Hb : forall x v, (1 <= List.length (setAdd x v) <= S (List.length v))%nat).
  { intros x v. pose proof (setAdd_length x v). pose proof (setAdd_nonempty x v).
    destruct (setAdd x v); [congruence |]. simpl in *. lia. }
  unfold variants, setAddAll. simpl fold_left. change (setAdd name []) with [name].
  set (a := replaceRuns isSpace "" name). set (b := replaceRuns isSpace "-" name).
  pose proof (Hb a [name]) as Ha. pose proof (Hb b (setAdd a [name])) as Hbb.
  simpl List.length in Ha.
  set (v0 := setAdd b (setAdd a [name])) in *.
  assert (H1 : let v1 := if (5 <=? len (replaceRuns isSpace "" (removeAll isVowel name)))%Z
                         then setAdd (replaceRuns isSpace "" (removeAll isVowel name)) v0
                         else v0 in
               (1 <= List.length v1 <= 4)%nat).
  { cbv zeta. destruct (5 <=? len (replaceRuns isSpace "" (removeAll isVowel name)))%Z.
    - pose proof (Hb (replaceRuns isSpace "" (removeAll isVowel name)) v0). lia.
    - lia. }
  cbv zeta in H1 |- *.
  set (v1 := if (5 <=? len (replaceRuns isSpace "" (removeAll isVowel name)))%Z
             then setAdd (replaceRuns isSpace "" (removeAll isVowel name)) v0 else v0) in *.
  clearbody v1.
  destruct (2 <=? Z.of_nat (List.length (filter truthy (split " " name))))%Z; [| lia].
  match goal with
  | |- context [setAdd ?z (setAdd ?y (setAdd ?x v1))] =>
      pose proof (Hb x v1); pose proof (Hb y (setAdd x v1));
      pose proof (Hb z (setAdd y (setAdd x v1)))
  end.
  lia.
Qed.

(** X19. The variants of a name are distinct, seven at most, and begin
    with the name itself; the name without its spaces and the name with a
    hyphen for each run of spaces are among them. *)
Theorem variants_set (name : string) :
  NoDup (variants name)
  /\ hd "" (variants name) = name
  /\ In (replaceRuns isSpace "" name) (variants name)
  /\ In (replaceRuns isSpace "-" name) (variants name)
  /\ (1 <= List.length (variants name) <= 7)%nat.
Proof.
  unfold variants.
  set (v0 := setAddAll [name; replaceRuns isSpace "" name; replaceRuns isSpace "-" name] []).
  assert (H0 : NoDup v0 /\ hd "" v0 = name
               /\ In (replaceRuns isSpace "" name) v0
               /\ In (replaceRuns isSpace "-" name) v0
               /\ (1 <= List.length v0 <= 3)%nat).
  { unfold v0, setAddAll. simpl fold_left.
    change (setAdd name []) with [name].
    split; [repeat apply setAdd_NoDup; repeat constructor; intros [] |].
    split; [rewrite !setAdd_hd; [reflexivity | discriminate | apply setAdd_nonempty] |].
    split; [apply setAdd_In; right; apply setAdd_In; left; reflexivity |].
    split; [apply setAdd_In; left; reflexivity |].
    pose proof (setAdd_length (replaceRuns isSpace "" name) [name]).
    pose proof (setAdd_length (replaceRuns isSpace "-" name)
                  (setAdd (replaceRuns isSpace "" name) [name])).
    pose proof (setAdd_nonempty (replaceRuns isSpace "-" name)
                  (setAdd (replaceRuns isSpace "" name) [name])).
    destruct (setAdd (replaceRuns isSpace "-" name)
                (setAdd (replaceRuns isSpace "" name) [name])); [congruence |].
    simpl in *. lia. }
  clearbody v0.
  assert (Hstep : forall x v n,
             (NoDup v /\ hd "" v = name
              /\ In (replaceRuns isSpace "" name) v
              /\ In (replaceRuns isSpace "-" name) v
              /\ (1 <= List.length v <= n)%nat) ->
             (NoDup (setAdd x v) /\ hd "" (setAdd x v) = name
              /\ In (replaceRuns isSpace "" name) (setAdd x v)
              /\ In (replaceRuns isSpace "-" name) (setAdd x v)
              /\ (1 <= List.length (setAdd x v) <= S n)%nat)).
  { intros x v n [Hn [Hh [Ha [Hb Hl]]]].
    split; [apply setAdd_NoDup, Hn |].
    split; [rewrite setAdd_hd; [exact Hh | destruct v; [simpl in Hl; lia | discriminate]] |].
    split; [apply setAdd_In; right; exact Ha |].
    split; [apply setAdd_In; right; exact Hb |].
    pose proof (setAdd_length x v). pose proof (setAdd_nonempty x v).
    destruct (setAdd x v); [congruence |]. simpl in *. lia. }
  assert (H1 : let v1 := if (5 <=? len (replaceRuns isSpace "" (removeAll isVowel name)))%Z
                         then setAdd (replaceRuns isSpace "" (removeAll isVowel name)) v0
                         else v0 in
               NoDup v1 /\ hd "" v1 = name
               /\ In (replaceRuns isSpace "" name) v1
               /\ In (replaceRuns isSpace "-" name) v1
               /\ (1 <= List.length v1 <= 4)%nat).
  { cbv zeta. destruct (5 <=? len (replaceRuns isSpace "" (removeAll isVowel name)))%Z.
    - apply Hstep, H0.
    - destruct H0 as [Hn [Hh [Ha [Hb Hl]]]]. repeat split; try assumption; lia. }
  cbv zeta in H1 |- *.
  set (v1 := if (5 <=? len (replaceRuns isSpace "" (removeAll isVowel name)))%Z
             then setAdd (replaceRuns isSpace "" (removeAll isVowel name)) v0 else v0) in *.
  clearbody v1.
  destruct (2 <=? Z.of_nat (List.length (filter truthy (split " " name))))%Z.
  - apply (Hstep _ _ 6%nat), (Hstep _ _ 5%nat), (Hstep _ _ 4%nat), H1.
  - destruct H1 as [Hn [Hh [Ha [Hb Hl]]]]. repeat split; try assumption; lia.
Qed.

(** X20. Whatever the country, the top-level domains are the same eight in
    some order, so the candidates are eight for each variant: eight at
    least and fifty-six at most. *)
Theorem candidates_count (cleaned country : string) :
  Permutation (tldsForCountry country) commonTlds
  /\ List.length (sortedCandidates cleaned country)
     = (8 * List.length (variants cleaned))%nat
  /\ (8 <= List.length (sortedCandidates cleaned country) <= 56)%nat.
Proof.
  assert (Hp : Permutation (tldsForCountry country) commonTlds).
  { unfold tldsForCountry. destruct (isEmpty country); [apply Permutation_refl |].
    destruct (inArray (toLowerCase country) _); [| apply Permutation_refl].
    apply NoDup_Permutation.
    - repeat constructor; simpl; intuition discriminate.
    - unfold commonTlds. repeat constructor; simpl; intuition discriminate.
    - intros x. unfold commonTlds. simpl. tauto. }
  assert (Hl : List.length (sortedCandidates cleaned country)
               = (8 * List.length (variants cleaned))%nat).
  { unfold sortedCandidates.
    rewrite (Permutation_length (sort_perm _ _)).
    assert (H8 : List.length (tldsForCountry country) = 8%nat)
      by (rewrite (Permutation_length Hp); reflexivity).
    induction (variants cleaned) as [| n vs IH]; [reflexivity |].
    simpl flat_map. rewrite length_app, length_map, IH, H8. simpl. lia. }
  split; [exact Hp |]. split; [exact Hl |].
  destruct (variants_set_bounds cleaned). lia.
Qed.

(** ** Domain selection, further *)

Lemma batchLoop_pick (w : World) (cands : list string) (TOP fuel i : nat)
    (checked : list VerificationResult) (sel : Selection) :
  batchLoop w fuel cands TOP i checked = Some sel ->
  pick sel = hd_error (verifiedOf (candidates sel)).
Proof.
  revert i checked sel. induction fuel as [| fuel IH]; intros i checked sel;
    rewrite batchLoop_eq; destruct (i <? TOP)%nat; try discriminate.
  - intros H. inversion H; subst. reflexivity.
  - cbv zeta.
    remember (map (verify w) (firstn 5 (skipn i cands))) as res eqn:Eres.
    clear Eres.
    destruct (find isStrong res) as [strong |] eqn:Ef.
    + intros H. injection H as <-. cbn [candidates pick].
      apply find_some in Ef. destruct Ef as [Hin Hs].
      destruct (verifiedOf (checked ++ res)%list) as [| x r] eqn:Ev; [| reflexivity].
      exfalso. apply verifiedOf_empty in Ev.
      specialize (Ev strong (in_or_app _ _ _ (or_intror Hin))).
      unfold isStrong in Hs. apply andb_true_iff in Hs. destruct Hs as [Hs _]. congruence.
    + apply IH.
  - intros H. inversion H; subst. reflexivity.
Qed.

Lemma StronglySorted_firstn {A : Type} (R : A -> A -> Prop) (n : nat) (l : list A) :
  StronglySorted R l -> StronglySorted R (firstn n l).
Proof.
  intros H. revert n. induction H as [| x r Hr IH Hx]; intros [| n]; simpl;
    try constructor; [apply IH |].
  apply Forall_forall. intros y Hy. apply In_firstn in Hy.
  rewrite Forall_forall in Hx. apply Hx, Hy.
Qed.

Lemma StronglySorted_filter {A : Type} (R : A -> A -> Prop) (f : A -> bool) (l : list A) :
  StronglySorted R l -> StronglySorted R (filter f l).
Proof.
  induction 1 as [| x r Hr IH Hx]; simpl; [constructor |].
  destruct (f x); [| exact IH]. constructor; [exact IH |].
  apply Forall_filter, Hx.
Qed.

Lemma StronglySorted_map {A B : Type} (R : B -> B -> Prop) (f : A -> B) (l : list A) :
  StronglySorted (fun a b => R (f a) (f b)) l -> StronglySorted R (map f l).
Proof.
  induction 1 as [| x r Hr IH Hx]; simpl; constructor; [exact IH |].
  apply Forall_forall. intros y Hy. apply in_map_iff in Hy. destruct Hy as [a [<- Ha]].
  rewrite Forall_forall in Hx. apply Hx, Ha.
Qed.

Lemma hd_error_filter {A : Type} (f : A -> bool) (l : list A) :
  hd_error (filter f l) = find f l.
Proof.
  induction l as [| x l IH]; simpl; [reflexivity |]. destruct (f x); [reflexivity | exact IH].
Qed.

(** The results of the sorted candidates are in the order in which the
    second sort would put them. *)
Lemma verified_in_order (w : World) (cleaned country : string) (n : nat) :
  StronglySorted (notAfter resultAfter)
    (firstn n (map (verify w) (firstn 40 (sortedCandidates cleaned country)))).
Proof.
  apply StronglySorted_firstn, StronglySorted_map, StronglySorted_firstn.
  eapply StronglySorted_impl; [| apply (proj2 (sortedCandidates_sorted cleaned country))].
  intros a b H. unfold notAfter, resultAfter. simpl. apply Z.ltb_ge. exact H.
Qed.

(** X21. The pick of [bestDomainFor] is the first alive candidate in the
    order of verification, so that of two alive candidates with the same
    score the one generated first wins; the candidates verified are the
    first of the sorted candidates, forty at most. *)
Theorem bestDomainFor_first_alive (w : World) (name country : string) :
  exists sel,
    bestDomainFor w name country = Some sel
    /\ pick sel = find ok (candidates sel)
    /\ (List.length (candidates sel) <= 40)%nat
    /\ (cleanName name <> "" ->
        exists k, candidates sel
                  = map (verify w) (firstn k (sortedCandidates (cleanName name) country))).
Proof.
  unfold bestDomainFor.
  destruct (cleanName name) as [| c cleaned] eqn:E; simpl isEmpty; cbv iota.
  - eexists. split; [reflexivity |]. simpl. repeat split; [lia | congruence].
  - cbv zeta.
    destruct (selection_stops w (sortedCandidates (String c cleaned) country))
      as [sel [n [Hrun [Hc _]]]].
    exists sel. split; [exact Hrun |].
    split; [| split].
    + rewrite (batchLoop_pick _ _ _ _ _ _ _ Hrun). unfold verifiedOf.
      rewrite sort_sorted_id; [apply hd_error_filter |].
      apply StronglySorted_filter. rewrite Hc. apply verified_in_order.
    + rewrite Hc. pose proof (firstn_le_length (5 * n) (map (verify w) (firstn 40 (sortedCandidates (String c cleaned) country)))) as Hlen0.
      assert (Hincl : forall (l : list VerificationResult) m,
                 (List.length (firstn m l) <= List.length l)%nat)
        by (intros l m; rewrite length_firstn; lia).
      etransitivity; [apply Hincl |]. rewrite length_map, length_firstn. lia.
    + intros _. exists (Nat.min (5 * n) 40). rewrite Hc.
      rewrite <- firstn_map, firstn_firstn, firstn_map. reflexivity.
Qed.

Lemma isStrong_strongDomain (r : VerificationResult) :
  isStrong r = ok r && strongDomain (domain r).
Proof. reflexivity. Qed.

(** X22. When a candidate verified is alive and ends in .co.uk or .com,
    the pick is such a candidate too; and nothing is picked only when every
    candidate verified was dead, all of the capped list having been
    verified. *)
Theorem bestDomainFor_strong_or_exhausted (w : World) (name country : string) :
  exists sel,
    bestDomainFor w name country = Some sel
    /\ ((exists r, In r (candidates sel) /\ isStrong r = true) ->
        exists p, pick sel = Some p /\ isStrong p = true)
    /\ (pick sel = None ->
        (forall r, In r (candidates sel) -> ok r = false)
        /\ (cleanName name <> "" ->
            candidates sel
            = map (verify w) (firstn 40 (sortedCandidates (cleanName name) country)))).
Proof.
  unfold bestDomainFor.
  destruct (cleanName name) as [| c cleaned] eqn:E; simpl isEmpty; cbv iota.
  - eexists. split; [reflexivity |]. simpl. split.
    + intros [r [[] _]].
    + intros _. split; [intros r [] | congruence].
  - cbv zeta.
    destruct (selection_stops w (sortedCandidates (String c cleaned) country))
      as [sel [n [Hrun [Hc [_ [Hend Hbest]]]]]].
    exists sel. split; [exact Hrun |]. split.
    + intros [r [Hin Hs]].
      rewrite isStrong_strongDomain in Hs. apply andb_true_iff in Hs. destruct Hs as [Hok Hsd].
      destruct (pick sel) as [p |].
      * destruct Hbest as [_ [Hpok Hmax]]. exists p. split; [reflexivity |].
        rewrite isStrong_strongDomain, Hpok. simpl.
        destruct (strongDomain (domain p)) eqn:Ep; [reflexivity |].
        pose proof (Hmax r Hin Hok). pose proof (proj1 (score_strong _) Hsd).
        pose proof (proj2 (score_strong _) Ep). lia.
      * rewrite (Hbest r Hin) in Hok. discriminate.
    + intros Hnone. rewrite Hnone in Hbest. split; [exact Hbest |].
      intros _. rewrite Hc. destruct Hend as [[Hn [r [Hin Hs]]] | [Hlen _]].
      * exfalso.
        assert (Hin' : In r (candidates sel)).
        { rewrite Hc. replace (5 * n)%nat with (5 * (n - 1) + 5)%nat by lia.
          rewrite firstn_plus. apply in_or_app. right. exact Hin. }
        rewrite isStrong_strongDomain in Hs. apply andb_true_iff in Hs.
        rewrite (Hbest r Hin') in Hs. destruct Hs; discriminate.
      * apply firstn_all2, Hlen.
Qed.

Lemma StronglySorted_cross {A : Type} (R : A -> A -> Prop) (l1 l2 : list A) :
  StronglySorted R (l1 ++ l2)%list -> forall a b, In a l1 -> In b l2 -> R a b.
Proof.
  induction l1 as [| x l1 IH]; simpl; intros H a b Ha Hb; [contradiction |].
  inversion H as [| ? ? Hs Hx]; subst. destruct Ha as [<- | Ha].
  - rewrite Forall_forall in Hx. apply Hx, in_or_app. now right.
  - apply IH; assumption.
Qed.

(** X23. Stopping early and capping the list cost nothing in score: when a
    domain is picked, no alive candidate generated from the name, verified
    or not, scores higher than it. *)
Theorem bestDomainFor_best_of_all (w : World) (name country : string) :
  exists sel,
    bestDomainFor w name country = Some sel
    /\ forall p, pick sel = Some p ->
         forall d, In d (generated (cleanName name) country) ->
                   ok (verify w d) = true ->
                   (score d <= score (domain p))%Z.
Proof.
  unfold bestDomainFor.
  destruct (cleanName name) as [| c cleaned] eqn:E; simpl isEmpty; cbv iota.
  - eexists. split; [reflexivity |]. simpl. discriminate.
  - cbv zeta.
    set (cands := sortedCandidates (String c cleaned) country).
    destruct (selection_stops w cands) as [sel [n [Hrun [Hc [_ [_ Hbest]]]]]].
    exists sel. split; [exact Hrun |].
    intros p Hp d Hd Hok. rewrite Hp in Hbest. destruct Hbest as [Hin [_ Hmax]].
    destruct (sortedCandidates_sorted (String c cleaned) country) as [Hperm Hsorted].
    fold cands in Hperm, Hsorted.
    apply (Permutation_in _ (Permutation_sym Hperm)) in Hd.
    assert (Hk : candidates sel = map (verify w) (firstn (Nat.min (5 * n) 40) cands)).
    { rewrite Hc, <- firstn_map, firstn_firstn, firstn_map. reflexivity. }
    set (k := Nat.min (5 * n) 40) in *.
    rewrite <- (firstn_skipn k cands) in Hd, Hsorted.
    apply in_app_or in Hd. destruct Hd as [Hd | Hd].
    + apply (Hmax (verify w d)); [| exact Hok].
      rewrite Hk. apply in_map, Hd.
    + rewrite Hk in Hin. apply in_map_iff in Hin. destruct Hin as [d' [<- Hd']].
      apply (StronglySorted_cross _ _ _ Hsorted d' d Hd' Hd).
Qed.

(** ** The name normalizer is idempotent *)

Lemma lowerChar_idem (c : ascii) : lowerChar (lowerChar c) = lowerChar c.
Proof. destruct c as [[] [] [] [] [] [] [] []]; vm_compute; reflexivity. Qed.

Lemma toLowerCase_fixed (s : string) :
  allChars (fun c => Ascii.eqb (lowerChar c) c) s = true -> toLowerCase s = s.
Proof.
  induction s as [| c r IH]; simpl; [reflexivity |].
  intros H. apply andb_true_iff in H. destruct H as [Hc Hr].
  apply Ascii.eqb_eq in Hc. now rewrite Hc, (IH Hr).
Qed.

Lemma toLowerCase_lower (s : string) :
  allChars (fun c => Ascii.eqb (lowerChar c) c) (toLowerCase s) = true.
Proof.
  induction s as [| c r IH]; simpl; [reflexivity |].
  now rewrite lowerChar_idem, Ascii.eqb_refl, IH.
Qed.

Lemma replaceRuns_fixed (cls : ascii -> bool) (rep s : string) :
  allChars (fun c => negb (cls c)) s = true -> replaceRuns cls rep s = s.
Proof.
  induction s as [| c r IH]; [reflexivity |].
  intros H. simpl in H. apply andb_true_iff in H. destruct H as [Hc Hr].
  apply negb_true_iff in Hc. rewrite replaceRuns_cons, Hc, (IH Hr). reflexivity.
Qed.

(** White space that is single plain spaces is left as it is. *)
Lemma collapse_fixed (s : string) :
  allChars (fun c => negb (isSpace c) || Ascii.eqb c " ") s = true ->
  noDouble isSpace s = true ->
  replaceRuns isSpace " " s = s.
Proof.
  induction s as [| c r IH]; [reflexivity |].
  intros Ha Hd. simpl in Ha. apply andb_true_iff in Ha. destruct Ha as [Hc Hr].
  cbn [noDouble] in Hd. apply andb_true_iff in Hd. destruct Hd as [Hcd Hrd].
  rewrite replaceRuns_cons, (IH Hr Hrd).
  destruct (isSpace c) eqn:Ec; [| reflexivity].
  simpl in Hc. apply Ascii.eqb_eq in Hc. subst c.
  simpl in Hcd. apply negb_true_iff in Hcd. rewrite Hcd. reflexivity.
Qed.

Lemma trimStart_fixed (s : string) : startsIn isSpace s = false -> trimStart s = s.
Proof. destruct s as [| c r]; simpl; [reflexivity |]. intros ->. reflexivity. Qed.

Lemma trimEnd_fixed (s : string) : endsIn isSpace s = false -> trimEnd s = s.
Proof.
  induction s as [| c r IH]; [reflexivity |].
  cbn [endsIn trimEnd]. destruct r as [| d r].
  - simpl. intros ->. reflexivity.
  - cbn [isEmpty]. intros H. rewrite (IH H). cbn [isEmpty]. now rewrite andb_false_r.
Qed.

Lemma tidied_fixed (s : string) : isTidy s -> tidied s = s.
Proof.
  intros [Hl [Hk [Hd [Hs He]]]]. unfold tidied, trim.
  rewrite (toLowerCase_fixed _ Hl).
  rewrite (replaceRuns_fixed isStripped " " s).
  2: { revert Hk. apply allChars_impl. unfold isKept. intros c H.
       apply andb_true_iff in H. destruct H as [H _].
       apply andb_true_iff in H. apply H. }
  rewrite collapse_fixed; [| | exact Hd].
  2: { revert Hk. apply allChars_impl. unfold isKept. intros c H.
       apply andb_true_iff in H. apply H. }
  rewrite (trimStart_fixed _ Hs). apply trimEnd_fixed, He.
Qed.

Lemma word_then (t rest : string) :
  isWord t ->
  noDouble isSpace rest = true -> startsIn isSpace rest = false ->
  endsIn isSpace rest = false -> rest <> "" ->
  noDouble isSpace (t ++ String " " rest) = true
  /\ startsIn isSpace (t ++ String " " rest) = false
  /\ endsIn isSpace (t ++ String " " rest) = false.
Proof.
  intros [Hne Hw] Hd Hs He Hr.
  split; [| split].
  - clear Hne. induction t as [| c t IH]; simpl.
    + rewrite Hs, Hd. reflexivity.
    + simpl in Hw. apply andb_true_iff in Hw. destruct Hw as [Hc Ht].
      apply negb_true_iff in Hc. rewrite Hc. simpl. apply IH, Ht.
  - destruct t as [| c t]; [congruence |]. simpl in Hw |- *.
    apply andb_true_iff in Hw. destruct Hw as [Hc _]. apply negb_true_iff, Hc.
  - clear Hne Hw. induction t as [| c t IH]; simpl.
    + destruct rest; [congruence | exact He].
    + destruct (t ++ String " " rest) eqn:E; [destruct t; discriminate E | exact IH].
Qed.

Lemma word_alone (t : string) :
  isWord t ->
  noDouble isSpace t = true /\ startsIn isSpace t = false /\ endsIn isSpace t = false.
Proof.
  intros [Hne Hw]. split; [| split].
  - clear Hne. induction t as [| c t IH]; simpl; [reflexivity |].
    simpl in Hw. apply andb_true_iff in Hw. destruct Hw as [Hc Ht].
    apply negb_true_iff in Hc. rewrite Hc. simpl. apply IH, Ht.
  - destruct t as [| c t]; [congruence |]. simpl in Hw |- *.
    apply andb_true_iff in Hw. destruct Hw as [Hc _]. apply negb_true_iff, Hc.
  - clear Hne. induction t as [| c t IH]; simpl; [reflexivity |].
    simpl in Hw. apply andb_true_iff in Hw. destruct Hw as [Hc Ht].
    destruct t; [simpl; apply negb_true_iff, Hc | apply IH, Ht].
Qed.

Lemma join_words (ts : list string) :
  ts <> [] -> Forall isWord ts ->
  noDouble isSpace (join " " ts) = true
  /\ startsIn isSpace (join " " ts) = false
  /\ endsIn isSpace (join " " ts) = false
  /\ join " " ts <> "".
Proof.
  unfold join. induction ts as [| t ts IH]; intros Hne Hall; [congruence |].
  inversion Hall as [| ? ? Ht Hts]; subst.
  destruct ts as [| u ts].
  - simpl. destruct (word_alone t Ht) as [H1 [H2 H3]].
    repeat split; try assumption. apply Ht.
  - change (String.concat " " (t :: u :: ts))
      with (t ++ String " " (String.concat " " (u :: ts))).
    destruct (IH ltac:(discriminate) Hts) as [H1 [H2 [H3 H4]]].
    destruct (word_then t _ Ht H1 H2 H3 H4) as [G1 [G2 G3]].
    repeat split; try assumption.
    destruct t; [destruct Ht; congruence | discriminate].
Qed.

Lemma filter_idem {A : Type} (f : A -> bool) (l : list A) :
  filter f (filter f l) = filter f l.
Proof.
  induction l as [| x l IH]; simpl; [reflexivity |].
  destruct (f x) eqn:E; simpl; [rewrite E, IH; reflexivity | exact IH].
Qed.

(** X24. [cleanName] is idempotent: a normalized name is normalized to
    itself. *)
Theorem cleanName_idempotent (raw : string) :
  cleanName (cleanName raw) = cleanName raw.
Proof.
  set (keep := fun t => negb (inArray t dropWords)).
  set (fs := filter keep (split " " (tidied raw))).
  assert (Eout : cleanName raw = join " " fs) by reflexivity.
  destruct (string_dec (cleanName raw) "") as [E0 | Hne]; [rewrite E0; reflexivity |].
  assert (Htid : tidied raw <> "").
  { intros Et. apply Hne. rewrite Eout. unfold fs. rewrite Et. reflexivity. }
  assert (Hfs : fs <> []).
  { intros Ef. apply Hne. rewrite Eout, Ef. reflexivity. }
  assert (Hfree : Forall (fun t => sepFree " " t = true) fs)
    by (apply Forall_filter, split_sepFree).
  assert (Hkept : Forall (fun t => allChars isKept t = true) fs)
    by (apply Forall_filter, split_allChars, tidied_kept).
  assert (Hlow : Forall (fun t => allChars (fun c => Ascii.eqb (lowerChar c) c) t = true) fs).
  { apply Forall_filter, split_allChars. unfold tidied, trim.
    apply allChars_trimEnd, allChars_trimStart.
    apply replaceRuns_allChars; [reflexivity |].
    apply allChars_impl with (P := fun c => Ascii.eqb (lowerChar c) c);
      [intros c H; rewrite H; apply orb_true_r |].
    apply replaceRuns_allChars; [reflexivity |].
    apply allChars_impl with (P := fun c => Ascii.eqb (lowerChar c) c);
      [intros c H; rewrite H; apply orb_true_r |].
    apply toLowerCase_lower. }
  assert (Hwords : Forall isWord fs).
  { apply Forall_forall. intros t Ht. split.
    - apply truthy_true_iff.
      pose proof (Forall_filter _ keep _ (tidied_pieces raw Htid)) as Hp.
      rewrite Forall_forall in Hp. apply Hp, Ht.
    - rewrite Forall_forall in Hfree, Hkept.
      pose proof (Hfree t Ht) as Hf. pose proof (Hkept t Ht) as Hk.
      unfold sepFree in Hf. clear -Hf Hk.
      induction t as [| c t IH]; [reflexivity |].
      simpl in *. apply andb_true_iff in Hf, Hk.
      destruct Hf as [Hc Hf], Hk as [Hkc Hk]. rewrite (IH Hf Hk), andb_true_r.
      unfold isKept in Hkc. apply andb_true_iff in Hkc. destruct Hkc as [_ Hsp].
      unfold isSep in Hc. apply negb_true_iff in Hc. rewrite Hc, orb_false_r in Hsp.
      exact Hsp. }
  assert (Htidy : isTidy (cleanName raw)).
  { destruct (join_words fs Hfs Hwords) as [H1 [H2 [H3 _]]].
    rewrite Eout. split; [| split; [| split; [| split]]]; try assumption.
    - apply allChars_join; [reflexivity | exact Hlow].
    - apply allChars_join; [reflexivity | exact Hkept]. }
  assert (Estep : cleanName (cleanName raw)
                  = join " " (filter keep (split " " (tidied (cleanName raw)))))
    by reflexivity.
  rewrite Estep, (tidied_fixed _ Htidy), Eout.
  rewrite (split_join " " fs Hfs Hfree). unfold fs. rewrite filter_idem. reflexivity.
Qed.

(** ** Brand matching *)

Lemma brandMatchScore_quotient (company htmlText : string) :
  company <> "" -> htmlText <> "" -> tokenizeCompany company <> [] ->
  brandMatchScore company htmlText
  = (inject_Z (Z.of_nat (List.length (brandHits company htmlText)))
     / inject_Z (Z.of_nat (List.length (tokenizeCompany company))))%Q.
Proof.
  intros Hc Hh Ht. unfold brandMatchScore, brandHits.
  destruct company; [congruence |]. destruct htmlText; [congruence |].
  cbn [isEmpty orb].
  destruct (tokenizeCompany (String a company)); [congruence | reflexivity].
Qed.

Lemma brandMatchScore_zero (company htmlText : string) :
  company = "" \/ htmlText = "" \/ tokenizeCompany company = [] ->
  brandMatchScore company htmlText = 0%Q.
Proof.
  unfold brandMatchScore. intros [-> | [-> | H]].
  - reflexivity.
  - destruct company; reflexivity.
  - rewrite H. destruct (isEmpty company || isEmpty htmlText); reflexivity.
Qed.

Lemma filter_length_le {A : Type} (f : A -> bool) (l : list A) :
  (List.length (filter f l) <= List.length l)%nat.
Proof.
  induction l as [| x l IH]; simpl; [lia |]. destruct (f x); simpl; lia.
Qed.

Lemma quotient_le (h h' n : nat) :
  (0 < n)%nat -> (h <= h')%nat ->
  (inject_Z (Z.of_nat h) / inject_Z (Z.of_nat n)
   <= inject_Z (Z.of_nat h') / inject_Z (Z.of_nat n))%Q.
Proof.
  intros Hn Hh. unfold Qdiv. apply Qmult_le_compat_r.
  - rewrite <- Zle_Qle. lia.
  - apply Qinv_le_0_compat. change 0%Q with (inject_Z 0). rewrite <- Zle_Qle. lia.
Qed.

Lemma quotient_threshold (h n : nat) :
  (0 < n)%nat ->
  Qle_bool (4 # 10) (inject_Z (Z.of_nat h) / inject_Z (Z.of_nat n)) = true
  <-> (2 * n <= 5 * h)%nat.
Proof.
  intros Hn. rewrite Qle_bool_iff.
  assert (Hpos : (0 < inject_Z (Z.of_nat n))%Q).
  { change 0%Q with (inject_Z 0). rewrite <- Zlt_Qlt. lia. }
  split.
  - intros H.
    apply (Qmult_le_compat_r _ _ (inject_Z (Z.of_nat n))) in H; [| apply Qlt_le_weak, Hpos].
    unfold Qdiv in H. rewrite <- Qmult_assoc, (Qmult_comm (/ _)), Qmult_inv_r in H.
    2: { intros E. rewrite E in Hpos. apply (Qlt_irrefl _ Hpos). }
    rewrite Qmult_1_r in H. unfold Qle, Qmult, inject_Z in H.
    cbn [Qnum Qden] in H. rewrite Pos.mul_1_r in H. lia.
  - intros H. apply Qle_shift_div_l; [exact Hpos |].
    unfold Qle, Qmult, inject_Z. cbn [Qnum Qden]. rewrite Pos.mul_1_r. lia.
Qed.

Lemma brandMatchScore_bounds (company htmlText : string) :
  (0 <= brandMatchScore company htmlText <= 1)%Q.
Proof.
  destruct (string_dec company "") as [Ec | Hc];
    [| destruct (string_dec htmlText "") as [Eh | Hh];
       [| destruct (tokenizeCompany company) as [| t ts] eqn:Et]];
    try (rewrite brandMatchScore_zero by auto; split; discriminate).
  assert (Hne : tokenizeCompany company <> []) by (rewrite Et; discriminate).
  rewrite (brandMatchScore_quotient _ _ Hc Hh Hne), Et.
  assert (Hle : (List.length (brandHits company htmlText) <= List.length (t :: ts))%nat).
  { unfold brandHits. rewrite Et. apply filter_length_le. }
  assert (Hpos : (0 < inject_Z (Z.of_nat (List.length (t :: ts))))%Q).
  { change 0%Q with (inject_Z 0). rewrite <- Zlt_Qlt. simpl List.length. lia. }
  split.
  - apply Qle_shift_div_l; [exact Hpos |].
    rewrite Qmult_0_l. change 0%Q with (inject_Z 0). rewrite <- Zle_Qle. lia.
  - apply Qle_shift_div_r; [exact Hpos |].
    rewrite Qmult_1_l. rewrite <- Zle_Qle. lia.
Qed.

(** X25. The brand score lies from 0 to 1, and the match is confident, the
    score being 0.4 or more, exactly when the company and the page are not
    empty, the company has tokens, and the tokens found are two fifths of
    them at least. *)
Theorem brandMatchScore_range (company htmlText : string) :
  (0 <= brandMatchScore company htmlText <= 1)%Q
  /\ (Qle_bool (4 # 10) (brandMatchScore company htmlText) = true <->
      company <> "" /\ htmlText <> "" /\ tokenizeCompany company <> []
      /\ (2 * List.length (tokenizeCompany company)
          <= 5 * List.length (brandHits company htmlText))%nat).
Proof.
  split; [apply brandMatchScore_bounds |].
  destruct (string_dec company "") as [Ec | Hc];
    [| destruct (string_dec htmlText "") as [Eh | Hh];
       [| destruct (tokenizeCompany company) as [| t ts] eqn:Et]].
  - rewrite brandMatchScore_zero by auto.
    split; [discriminate | intros [H _]; contradiction].
  - rewrite brandMatchScore_zero by auto.
    split; [discriminate | intros [_ [H _]]; contradiction].
  - rewrite brandMatchScore_zero by auto.
    split; [discriminate | intros [_ [_ [H _]]]; contradiction].
  - assert (Hne : tokenizeCompany company <> []) by (rewrite Et; discriminate).
    rewrite (brandMatchScore_quotient _ _ Hc Hh Hne), Et.
    assert (Hn : (0 < List.length (t :: ts))%nat) by (simpl; lia).
    rewrite (quotient_threshold _ _ Hn). split.
    + intros H. repeat split; try assumption. discriminate.
    + intros [_ [_ [_ H]]]. exact H.
Qed.

Lemma toLowerCase_app (a b : string) :
  toLowerCase (a ++ b) = toLowerCase a ++ toLowerCase b.
Proof. induction a as [| c a IH]; simpl; [reflexivity | now rewrite IH]. Qed.

Lemma prefix_app (t s post : string) :
  String.prefix t s = true -> String.prefix t (s ++ post) = true.
Proof.
  revert t. induction s as [| c s IH]; intros t H.
  - destruct t; [| discriminate H]. destruct post; reflexivity.
  - destruct t as [| d t]; [reflexivity |].
    apply prefix_cons in H. destruct H as [-> H].
    simpl append. cbn [String.prefix].
    destruct (ascii_dec c c); [apply IH, H | congruence].
Qed.

Lemma includes_app (t pre s post : string) :
  includes t s = true -> includes t (pre ++ s ++ post) = true.
Proof.
  intros H. induction pre as [| c pre IH].
  - simpl append. induction s as [| c s IH].
    + simpl in H. rewrite orb_false_r in H.
      destruct t; [| discriminate H]. destruct post; reflexivity.
    + cbn [includes] in H. apply orb_true_iff in H. simpl append. cbn [includes].
      destruct H as [H | H].
      * change (String c (s ++ post)) with (String c s ++ post).
        rewrite (prefix_app _ _ post H). reflexivity.
      * rewrite (IH H). apply orb_true_r.
  - simpl append. cbn [includes]. simpl append in IH. rewrite IH. apply orb_true_r.
Qed.

Lemma filter_length_mono {A : Type} (f g : A -> bool) (l : list A) :
  (forall x, f x = true -> g x = true) ->
  (List.length (filter f l) <= List.length (filter g l))%nat.
Proof.
  intros H. induction l as [| x l IH]; simpl; [lia |].
  destruct (f x) eqn:E.
  - rewrite (H _ E). simpl. lia.
  - destruct (g x); simpl; lia.
Qed.

(** X26. For a company name and a page of units below 256, the strings
    of this development, more text on the page never lowers the brand
    score: the score of a page with text before and after it is at least
    the score of the page.  Lower-casing such text goes unit by unit, so
    what was found in the page is found in the longer one. *)
Theorem brandMatchScore_more_text (company htmlText before after : string) :
  (brandMatchScore company htmlText
   <= brandMatchScore company (before ++ htmlText ++ after))%Q.
Proof.
  destruct (brandMatchScore_bounds company (before ++ htmlText ++ after)) as [H0 _].
  destruct (string_dec company "") as [Ec | Hc];
    [| destruct (string_dec htmlText "") as [Eh | Hh];
       [| destruct (tokenizeCompany company) as [| t ts] eqn:Et]];
    try (rewrite (brandMatchScore_zero company htmlText) by auto; exact H0).
  assert (Hne : tokenizeCompany company <> []) by (rewrite Et; discriminate).
  assert (Hh' : before ++ htmlText ++ after <> "").
  { destruct before; [| discriminate]. destruct htmlText; [congruence | discriminate]. }
  rewrite (brandMatchScore_quotient _ _ Hc Hh Hne), (brandMatchScore_quotient _ _ Hc Hh' Hne).
  apply quotient_le; [rewrite Et; simpl; lia |].
  unfold brandHits. apply filter_length_mono.
  intros x H. apply andb_true_iff in H. destruct H as [H3 Hi].
  rewrite H3, !toLowerCase_app. simpl. apply includes_app, Hi.
Qed.

(** ** The probes of the verifier *)

Lemma tries_four (domain url : string) :
  In url (tries domain) <->
  url = "https://" ++ domain \/ url = "https://www." ++ domain
  \/ url = "http://" ++ domain \/ url = "http://www." ++ domain.
Proof. unfold tries. simpl. intuition. Qed.

(** X27. An error status counts for HEAD and not for GET: a HEAD answer
    with a status from 400 to 599 on one of the four URLs makes the domain
    alive, while the same status on every GET, every HEAD having failed and
    no body being longer than 100 units, leaves it dead. *)
Theorem httpAliveVia_error_status (net : Net) (domain : string) (st : Z)
    (Hst : (400 <= st < 600)%Z) :
  ((exists url res, In url (tries domain) /\ head net url = Some res /\ status res = st) ->
   httpAliveVia net domain = true)
  /\ ((forall url, In url (tries domain) -> head net url = None) ->
      (forall url, In url (tries domain) ->
         exists res, get net url = Some res /\ status res = st
                     /\ forall body, data res = Some body -> (len body <= 100)%Z) ->
      httpAliveVia net domain = false).
Proof.
  split.
  - intros [url [res [Hin [Hh Hs]]]]. unfold httpAliveVia.
    assert (E : existsb (headAnswers net) (tries domain) = true).
    { apply existsb_exists. exists url. split; [exact Hin |].
      unfold headAnswers. rewrite Hh, Hs.
      apply andb_true_iff. split; apply Z.ltb_lt; lia. }
    rewrite E. reflexivity.
  - intros Hhead Hget. unfold httpAliveVia.
    assert (E1 : existsb (headAnswers net) (tries domain) = false).
    { apply not_true_is_false. intros E. apply existsb_exists in E.
      destruct E as [url [Hin Ha]]. unfold headAnswers in Ha.
      rewrite (Hhead url Hin) in Ha. discriminate. }
    assert (E2 : existsb (getAnswers net) (tries domain) = false).
    { apply not_true_is_false. intros E. apply existsb_exists in E.
      destruct E as [url [Hin Ha]]. unfold getAnswers in Ha.
      destruct (Hget url Hin) as [res [Hg [Hs Hb]]]. rewrite Hg, Hs in Ha.
      apply orb_true_iff in Ha. destruct Ha as [Ha | Ha].
      - destruct (data res) as [body |]; [| discriminate].
        apply Z.ltb_lt in Ha. specialize (Hb body eq_refl). lia.
      - apply andb_true_iff in Ha. destruct Ha as [_ Ha]. apply Z.ltb_lt in Ha. lia. }
    rewrite E1, E2. reflexivity.
Qed.

Lemma httpAliveVia_error_status_witness :
  (400 <= 404 < 600)%Z /\ httpAliveVia notFoundNet "acme.com" = true.
Proof.
  assert (Hst : (400 <= 404 < 600)%Z) by lia.
  split; [exact Hst |].
  apply (proj1 (httpAliveVia_error_status notFoundNet "acme.com" 404 Hst)).
  exists "https://acme.com", {| status := 404; data := None |}.
  split; [left; reflexivity | split; reflexivity].
Defined.

(** X28. A domain verified over the network is ok exactly when one of its
    three DNS lookups succeeds with a non-empty answer, whatever becomes of
    the two others, or one of its four URLs answers HEAD with a status
    from 1 to 599, or answers GET with a body of more than 100 units or a
    status from 200 to 399. *)
Theorem verify_over_net (net : Net) (w : World) (d : string) :
  ok (verify (overNet net w) d) = true <->
  (exists answer, In (Some answer) [resolve4 net d; resolve6 net d; resolveMx net d]
                  /\ answer <> [])
  \/ (exists url res, In url (tries d) /\ head net url = Some res
                      /\ (0 < status res < 600)%Z)
  \/ (exists url res, In url (tries d) /\ get net url = Some res
                      /\ ((exists body, data res = Some body /\ (100 < len body)%Z)
                          \/ (200 <= status res < 400)%Z)).
Proof.
  change (ok (verify (overNet net w) d)) with (dnsAliveVia net d || httpAliveVia net d).
  rewrite orb_true_iff. unfold dnsAliveVia, httpAliveVia.
  assert (Hd : existsb settledNonEmpty [resolve4 net d; resolve6 net d; resolveMx net d] = true
               <-> exists answer,
                     In (Some answer) [resolve4 net d; resolve6 net d; resolveMx net d]
                     /\ answer <> []).
  { rewrite existsb_exists. split.
    - intros [[answer |] [Hin Hs]]; [| discriminate].
      exists answer. split; [exact Hin |]. intros ->. discriminate.
    - intros [answer [Hin Hne]]. exists (Some answer). split; [exact Hin |].
      destruct answer; [congruence | reflexivity]. }
  assert (Hh : existsb (headAnswers net) (tries d) = true
               <-> exists url res, In url (tries d) /\ head net url = Some res
                                   /\ (0 < status res < 600)%Z).
  { rewrite existsb_exists. unfold headAnswers. split.
    - intros [url [Hin Ha]]. destruct (head net url) as [res |] eqn:E; [| discriminate].
      apply andb_true_iff in Ha. destruct Ha as [H1 H2]. apply Z.ltb_lt in H1, H2.
      exists url, res. split; [exact Hin |]. split; [exact E |]. lia.
    - intros [url [res [Hin [E [H1 H2]]]]]. exists url. split; [exact Hin |].
      rewrite E. apply andb_true_iff. split; apply Z.ltb_lt; assumption. }
  assert (Hg : existsb (getAnswers net) (tries d) = true
               <-> exists url res, In url (tries d) /\ get net url = Some res
                                   /\ ((exists body, data res = Some body
                                                     /\ (100 < len body)%Z)
                                       \/ (200 <= status res < 400)%Z)).
  { rewrite existsb_exists. unfold getAnswers. split.
    - intros [url [Hin Ha]]. destruct (get net url) as [res |] eqn:E; [| discriminate].
      exists url, res. split; [exact Hin |]. split; [exact E |].
      apply orb_true_iff in Ha. destruct Ha as [Ha | Ha].
      + left. destruct (data res) as [body |]; [| discriminate].
        exists body. split; [reflexivity | apply Z.ltb_lt, Ha].
      + right. apply andb_true_iff in Ha. destruct Ha as [H1 H2].
        apply Z.leb_le in H1. apply Z.ltb_lt in H2. lia.
    - intros [url [res [Hin [E H]]]]. exists url. split; [exact Hin |]. rewrite E.
      apply orb_true_iff. destruct H as [[body [Eb Hb]] | [H1 H2]].
      + left. rewrite Eb. apply Z.ltb_lt, Hb.
      + right. apply andb_true_iff. split; [apply Z.leb_le | apply Z.ltb_lt]; assumption. }
  rewrite Hd. split.
  - intros [H | H]; [left; exact H |].
    destruct (existsb (headAnswers net) (tries d)) eqn:E1.
    + right. left. apply Hh. reflexivity.
    + destruct (existsb (getAnswers net) (tries d)) eqn:E2; [| discriminate].
      right. right. apply Hg. reflexivity.
  - intros [H | [H | H]]; [left; exact H | right | right].
    + apply Hh in H. rewrite H. reflexivity.
    + apply Hg in H. rewrite H. destruct (existsb (headAnswers net) (tries d)); reflexivity.
Qed.
